(** * Post-quantum helper: the hybrid envelope protocol

    A shallow embedding of [src/key-manager.js], [src/crypto-utils.js] and
    [src/encryptor.js].  JavaScript strings are sequences of UTF-16 code
    units, [Uint8Array]s are lists of bytes, thrown [Error]s are carried by
    their [message].  The KEM, the KDF and the AEAD cipher are external
    collaborators and enter as a record of operations; the platform
    services the code calls directly ([Buffer] Base64, [TextEncoder],
    [TextDecoder], [JSON]) are modelled concretely. *)

From Stdlib Require Import String Ascii List NArith ZArith Bool Lia.
From Stdlib.Strings Require Import Byte.
Import ListNotations.
Open Scope N_scope.

(* ================================================================== *)
(** * Part I.  Definitions *)
(* ================================================================== *)

(** ** Strings, bytes and thrown errors *)

(** A JavaScript string: its UTF-16 code units. *)
Definition jsstring := list N.

(** An ASCII literal of the source as a JavaScript string. *)
Definition js (s : string) : jsstring :=
  map N_of_ascii (list_ascii_of_string s).

Definition jsstring_eqb (a b : jsstring) : bool :=
  if list_eq_dec N.eq_dec a b then true else false.

(** The contents of a [Uint8Array]. *)
Definition bytes := list byte.

Definition bytes_eqb (a b : bytes) : bool :=
  if list_eq_dec Byte.byte_eq_dec a b then true else false.

(** Storing a number into a [Uint8Array] element keeps its low 8 bits. *)
Definition byte_of (n : N) : byte :=
  match Byte.of_N (n mod 256) with
  | Some b => b
  | None => x00
  end.

(** A computation that returns or throws [new Error(message)]. *)
Inductive result (A : Type) : Type :=
| Ok (a : A)
| Throw (message : jsstring).
Arguments Ok {A} a.
Arguments Throw {A} message.

(** ** crypto-utils.js: [Base64]

    [Buffer.from(bytes).toString('base64')] is RFC 4648 with padding.
    [Buffer.from(text, 'base64')] is Node's lenient decoder: it reads the
    low byte of every code unit, stops at the first ['='], skips every
    character outside the alphabet, accepts the URL-safe ['-'] and ['_'],
    and drops a dangling single character. *)
Module Base64.

Definition alphabet : jsstring :=
  js "ABCDEFGHIJKLMNOPQRSTUVWXYZabcdefghijklmnopqrstuvwxyz0123456789+/".

Definition digit (sextet : N) : N := nth (N.to_nat sextet) alphabet 0.

Definition pad : N := 61.

Fixpoint encode (bs : bytes) : jsstring :=
  match bs with
  | [] => []
  | [a] =>
      let n := Byte.to_N a * 16 in
      [digit (n / 64); digit (n mod 64); pad; pad]
  | [a; b] =>
      let n := (Byte.to_N a * 256 + Byte.to_N b) * 4 in
      [digit (n / 4096); digit (n / 64 mod 64); digit (n mod 64); pad]
  | a :: b :: c :: rest =>
      let n := Byte.to_N a * 65536 + Byte.to_N b * 256 + Byte.to_N c in
      digit (n / 262144) :: digit (n / 4096 mod 64)
        :: digit (n / 64 mod 64) :: digit (n mod 64) :: encode rest
  end.

Definition unbase64 (c : N) : option N :=
  if (65 <=? c) && (c <=? 90) then Some (c - 65)
  else if (97 <=? c) && (c <=? 122) then Some (c - 71)
  else if (48 <=? c) && (c <=? 57) then Some (c + 4)
  else if (c =? 43) || (c =? 45) then Some 62
  else if (c =? 47) || (c =? 95) then Some 63
  else None.

(** The legal characters before the first ['='], as 6-bit values; of a
    code unit only the low byte is looked at. *)
Fixpoint sextets (s : jsstring) : list N :=
  match s with
  | [] => []
  | c :: r =>
      let c := c mod 256 in
      if c =? pad then []
      else match unbase64 c with
           | Some v => v :: sextets r
           | None => sextets r
           end
  end.

Fixpoint groups (l : list N) : bytes :=
  match l with
  | a :: b :: c :: d :: r =>
      let n := ((a * 64 + b) * 64 + c) * 64 + d in
      byte_of (n / 65536) :: byte_of (n / 256 mod 256)
        :: byte_of (n mod 256) :: groups r
  | [a; b; c] =>
      let n := (a * 64 + b) * 64 + c in
      [byte_of (n / 1024); byte_of (n / 4 mod 256)]
  | [a; b] => [byte_of ((a * 64 + b) / 16)]
  | _ => []
  end.

Definition decode (base64 : jsstring) : bytes := groups (sextets base64).

End Base64.

(** The regular expression [/^[A-Za-z0-9+/]+=*$/] of key-manager.js and
    encryptor.js: one or more alphabet characters, then only ['=']. *)
Definition is_base64_char (c : N) : bool :=
  ((65 <=? c) && (c <=? 90)) || ((97 <=? c) && (c <=? 122))
  || ((48 <=? c) && (c <=? 57)) || (c =? 43) || (c =? 47).

Fixpoint base64_tail (s : jsstring) : bool :=
  match s with
  | [] => true
  | c :: r =>
      if is_base64_char c then base64_tail r else forallb (N.eqb 61) s
  end.

Definition BASE64_RE_test (s : jsstring) : bool :=
  match s with
  | [] => false
  | c :: r => is_base64_char c && base64_tail r
  end.

(** ** [TextEncoder] and [TextDecoder] (WHATWG Encoding, UTF-8) *)

Definition is_high_surrogate (c : N) : bool := (0xD800 <=? c) && (c <=? 0xDBFF).
Definition is_low_surrogate (c : N) : bool := (0xDC00 <=? c) && (c <=? 0xDFFF).

(** A string every surrogate of which is paired, over 16-bit units. *)
Fixpoint well_formed (s : jsstring) : bool :=
  match s with
  | [] => true
  | c :: r =>
      if is_high_surrogate c then
        match r with
        | d :: r' => is_low_surrogate d && well_formed r'
        | [] => false
        end
      else negb (is_low_surrogate c) && (c <? 0x10000) && well_formed r
  end.

Module TextEncoder.

(** Conversion to scalar values: a lone surrogate becomes U+FFFD. *)
Fixpoint scalars (s : jsstring) : list N :=
  match s with
  | [] => []
  | c :: r =>
      if is_high_surrogate c then
        match r with
        | d :: r' =>
            if is_low_surrogate d
            then (0x10000 + (c - 0xD800) * 0x400 + (d - 0xDC00)) :: scalars r'
            else 0xFFFD :: scalars r
        | [] => [0xFFFD]
        end
      else if is_low_surrogate c then 0xFFFD :: scalars r
      else c :: scalars r
  end.

Definition utf8 (cp : N) : bytes :=
  if cp <? 0x80 then [byte_of cp]
  else if cp <? 0x800 then
    [byte_of (0xC0 + cp / 64); byte_of (0x80 + cp mod 64)]
  else if cp <? 0x10000 then
    [byte_of (0xE0 + cp / 4096); byte_of (0x80 + cp / 64 mod 64);
     byte_of (0x80 + cp mod 64)]
  else
    [byte_of (0xF0 + cp / 262144); byte_of (0x80 + cp / 4096 mod 64);
     byte_of (0x80 + cp / 64 mod 64); byte_of (0x80 + cp mod 64)].

Definition encode (s : jsstring) : bytes := flat_map utf8 (scalars s).

End TextEncoder.

Module TextDecoder.

(** The decoder is between sequences, or inside one with [remaining]
    continuation bytes to come, the next of which must lie in [lo..hi]. *)
Inductive state : Type :=
| Start
| Continue (code_point : N) (remaining : nat) (lo hi : N).

Definition lead (b : N) : list N * state :=
  if b <=? 0x7F then ([b], Start)
  else if (0xC2 <=? b) && (b <=? 0xDF) then
    ([], Continue (b mod 32) 0 0x80 0xBF)
  else if (0xE0 <=? b) && (b <=? 0xEF) then
    ([], Continue (b mod 16) 1
           (if b =? 0xE0 then 0xA0 else 0x80)
           (if b =? 0xED then 0x9F else 0xBF))
  else if (0xF0 <=? b) && (b <=? 0xF4) then
    ([], Continue (b mod 8) 2
           (if b =? 0xF0 then 0x90 else 0x80)
           (if b =? 0xF4 then 0x8F else 0xBF))
  else ([0xFFFD], Start).

(** [remaining] counts the continuation bytes after the next one. *)
Definition step (st : state) (b : N) : list N * state :=
  match st with
  | Start => lead b
  | Continue cp k lo hi =>
      if (lo <=? b) && (b <=? hi) then
        let cp' := cp * 64 + b mod 64 in
        match k with
        | O => ([cp'], Start)
        | S k' => ([], Continue cp' k' 0x80 0xBF)
        end
      else
        let '(out, st') := lead b in (0xFFFD :: out, st')
  end.

Fixpoint run (st : state) (bs : bytes) : list N :=
  match bs with
  | [] => match st with Start => [] | Continue _ _ _ _ => [0xFFFD] end
  | b :: r => let '(out, st') := step st (Byte.to_N b) in out ++ run st' r
  end.

(** [new TextDecoder()] has [ignoreBOM = false]: a leading U+FEFF is
    removed from the output. *)
Definition strip_bom (cps : list N) : list N :=
  match cps with
  | c :: r => if c =? 0xFEFF then r else cps
  | [] => []
  end.

Definition units (cp : N) : jsstring :=
  if cp <? 0x10000 then [cp]
  else [0xD800 + (cp - 0x10000) / 0x400; 0xDC00 + (cp - 0x10000) mod 0x400].

Definition decode (bs : bytes) : jsstring :=
  flat_map units (strip_bom (run Start bs)).

End TextDecoder.

(** A Unicode scalar value: a code point that is not a surrogate. *)
Definition is_scalar (cp : N) : Prop :=
  cp < 0xD800 \/ (0xDFFF < cp /\ cp < 0x110000).

(** The first code unit is U+FEFF, the byte order mark. *)
Definition starts_with_bom (s : jsstring) : bool :=
  match s with
  | c :: _ => c =? 0xFEFF
  | [] => false
  end.

(** ** JavaScript values *)

Set Warnings "-register-all".

(** A number with a finite decimal expansion:
    [(-1)^negative * mantissa * 10^exponent]. *)
Record number : Type := {
  negative : bool;
  mantissa : N;
  exponent : Z
}.

Definition integer (n : N) : number :=
  {| negative := false; mantissa := n; exponent := 0%Z |}.

Inductive value : Type :=
| VUndefined
| VNull
| VBool (b : bool)
| VNum (n : number)
| VStr (s : jsstring)
| VArr (items : list value)
| VObj (props : list (jsstring * value)).

(** Whether the binary64 nearest to the number is zero: the number is 0
    or at most half the smallest subnormal, 2^-1075. *)
Definition rounds_to_zero (n : number) : bool :=
  (mantissa n =? 0)
  || ((exponent n <? 0)%Z
      && (mantissa n * 2 ^ 1075 <=? 10 ^ Z.to_N (- exponent n))).

(** ToBoolean. *)
Definition truthy (v : value) : bool :=
  match v with
  | VUndefined | VNull => false
  | VBool b => b
  | VNum n => negb (rounds_to_zero n)
  | VStr s => negb (jsstring_eqb s [])
  | VArr _ | VObj _ => true
  end.

Definition typeof (v : value) : jsstring :=
  match v with
  | VUndefined => js "undefined"
  | VNull => js "object"
  | VBool _ => js "boolean"
  | VNum _ => js "number"
  | VStr _ => js "string"
  | VArr _ | VObj _ => js "object"
  end.

(** [v === 'literal']. *)
Definition strict_equals_string (v : value) (literal : jsstring) : bool :=
  match v with
  | VStr s => jsstring_eqb s literal
  | _ => false
  end.

(** [a || b]. *)
Definition js_or (a b : value) : value := if truthy a then a else b.

(** [a && b]. *)
Definition js_and (a b : value) : value := if truthy a then b else a.

Fixpoint lookup (k : jsstring) (props : list (jsstring * value)) : value :=
  match props with
  | [] => VUndefined
  | (k', v) :: r => if jsstring_eqb k k' then v else lookup k r
  end.

(** Defining an own property keeps the position of an existing key. *)
Fixpoint obj_set (props : list (jsstring * value)) (k : jsstring) (v : value)
  : list (jsstring * value) :=
  match props with
  | [] => [(k, v)]
  | (k', v') :: r =>
      if jsstring_eqb k k' then (k, v) :: r else (k', v') :: obj_set r k v
  end.

(** [o.key] for the keys the source reads ([v], [alg], [kem], [s], [n],
    [c], [publicKey], [privateKey], [algorithm]); none of them is a
    property of a string, a number, a boolean or an array. *)
Definition get (o : value) (key : string) : result value :=
  match o with
  | VNull =>
      Throw (js "Cannot read properties of null (reading '"
               ++ js key ++ js "')")
  | VUndefined =>
      Throw (js "Cannot read properties of undefined (reading '"
               ++ js key ++ js "')")
  | VObj props => Ok (lookup (js key) props)
  | _ => Ok VUndefined
  end.

(** Decimal digits of a natural number. *)
Fixpoint decimal_digits (fuel : nat) (n : N) (acc : jsstring) : jsstring :=
  match fuel with
  | O => acc
  | S f =>
      let acc' := (48 + n mod 10) :: acc in
      if n / 10 =? 0 then acc' else decimal_digits f (n / 10) acc'
  end.

Definition decimal (n : N) : jsstring :=
  decimal_digits (S (N.to_nat (N.size n))) n [].

(** A positive rational [a / b] times [base ^ z]. *)
Definition scaled (base a b : N) (z : Z) : N * N :=
  if (0 <=? z)%Z then (a * base ^ Z.to_N z, b)
  else (a, b * base ^ Z.to_N (- z)).

(** The magnitude of a number, as a fraction. *)
Definition magnitude (n : number) : N * N :=
  scaled 10 (mantissa n) 1 (exponent n).

(** The integer nearest to [a / b], a tie going to the even one. *)
Definition round_half_even (a b : N) : N :=
  let q := a / b in
  let r := a mod b in
  if (b <? 2 * r) || ((b =? 2 * r) && N.odd q) then q + 1 else q.

(** The largest [z] with [2 ^ z <= a / b]. *)
Definition floor_log2 (a b : N) : Z :=
  let g := (Z.of_N (N.log2 a) - Z.of_N (N.log2 b))%Z in
  let '(x, y) := scaled 2 a b (- g) in
  if y <=? x then g else (g - 1)%Z.

(** The binary64 value nearest to [a / b > 0], ties to even, as a
    significand and an exponent [(m, e)] of value [m * 2 ^ e] with
    [m <= 2 ^ 53]; [None] when the result is [Infinity]. *)
Definition binary64 (a b : N) : option (N * Z) :=
  let e := Z.max (floor_log2 a b - 52) (-1074) in
  let '(x, y) := scaled 2 a b (- e) in
  let m := round_half_even x y in
  if (971 <? e)%Z || ((e =? 971)%Z && (m =? 2 ^ 53)) then None
  else Some (m, e).

Definition same_binary64 (x y : option (N * Z)) : bool :=
  match x, y with
  | Some (m1, e1), Some (m2, e2) =>
      let e := Z.min e1 e2 in
      m1 * 2 ^ Z.to_N (e1 - e) =? m2 * 2 ^ Z.to_N (e2 - e)
  | None, None => true
  | _, _ => false
  end.

(** Whether the number value is finite. *)
Definition is_finite (n : number) : bool :=
  rounds_to_zero n
  || ((exponent n =? 0)%Z && (mantissa n <? 2 ^ 53))
  || match (let '(a, b) := magnitude n in binary64 a b) with
     | Some _ => true
     | None => false
     end.

(** The least [z], from [z0] on, with [a / b < 10 ^ z]. *)
Fixpoint decimal_point (fuel : nat) (z0 : Z) (a b : N) : Z :=
  match fuel with
  | O => z0
  | S f =>
      let '(x, y) := scaled 10 a b (- z0) in
      if x <? y then z0 else decimal_point f (z0 + 1) a b
  end.

(** The digits [s] and the power [p], with as few digits as possible,
    such that [s * 10 ^ p] reads back as the binary64 value [a / b]; of
    two candidates of one length the nearer to the value is taken. *)
Fixpoint shortest (fuel : nat) (k n : Z) (a b : N) : N * Z :=
  let p := (n - k)%Z in
  let '(x, y) := scaled 10 a b (- p) in
  let near := round_half_even x y in
  let far := if near =? x / y then x / y + 1 else x / y in
  let reads s :=
    let '(c, d) := scaled 10 s 1 p in
    same_binary64 (binary64 c d) (binary64 a b) in
  match fuel with
  | O => (near, p)
  | S f =>
      if reads near then (near, p)
      else if reads far then (far, p)
      else shortest f (k + 1) n a b
  end.

Fixpoint strip_zeros (fuel : nat) (s : N) (p : Z) : N * Z :=
  match fuel with
  | O => (s, p)
  | S f => if (s mod 10 =? 0) && negb (s =? 0)
           then strip_zeros f (s / 10) (p + 1) else (s, p)
  end.

Definition zeros (n : Z) : jsstring := repeat 48 (Z.to_nat n).

(** The cases of Number::toString, on the digits and the position [n] of
    the decimal point: digits and zeros, digits around a point, a
    fraction below one, or the exponent form outside [1e-6 .. 1e21]. *)
Definition layout (digits : jsstring) (n : Z) : jsstring :=
  let k := Z.of_nat (length digits) in
  if ((k <=? n) && (n <=? 21))%Z then digits ++ zeros (n - k)
  else if ((0 <? n) && (n <=? 21))%Z
  then firstn (Z.to_nat n) digits ++ 46 :: skipn (Z.to_nat n) digits
  else if ((-6 <? n) && (n <=? 0))%Z
  then 48 :: 46 :: zeros (- n) ++ digits
  else
    let e := (n - 1)%Z in
    let sign := if (e <? 0)%Z then 45 else 43 in
    (if (k =? 1)%Z then digits
     else firstn 1 digits ++ 46 :: skipn 1 digits)
    ++ 101 :: sign :: decimal (Z.abs_N e).

(** Number::toString of the binary64 value nearest to the magnitude, by
    the rule of the language: the shortest digits that read back as the
    value, laid out by [layout]. *)
Definition shortest_decimal (n : number) : jsstring :=
  let '(a, b) := magnitude n in
  match binary64 a b with
  | None => js "Infinity"
  | Some (m, e) =>
      let '(va, vb) := scaled 2 m 1 e in
      let n0 := decimal_point 640 (-324) va vb in
      let '(s, p) := shortest 17 1 n0 va vb in
      let '(s, p) := strip_zeros 400 s p in
      let digits := decimal s in
      layout digits (Z.of_nat (length digits) + p)
  end.

(** Number::toString.  A value that is zero prints as ["0"]; an integer
    below [2 ^ 53] is a binary64 value and prints as its digits, which is
    what the general rule gives for it (the case is split off for the
    proofs about [v: 3] and [Date.now()]). *)
Definition Number_toString (n : number) : jsstring :=
  if rounds_to_zero n then [48]
  else
    (if negative n then [45] else [])
    ++ (if (exponent n =? 0)%Z && (mantissa n <? 2 ^ 53)
        then decimal (mantissa n)
        else shortest_decimal n).

Fixpoint join (sep : jsstring) (parts : list jsstring) : jsstring :=
  match parts with
  | [] => []
  | [p] => p
  | p :: r => p ++ sep ++ join sep r
  end.

(** ToString, for the template literals of the source.  An object is
    one without a [toString] of its own, as object literals and
    [JSON.parse] of the envelopes build them. *)
Fixpoint ToString (v : value) : jsstring :=
  match v with
  | VUndefined => js "undefined"
  | VNull => js "null"
  | VBool true => js "true"
  | VBool false => js "false"
  | VNum n => Number_toString n
  | VStr s => s
  | VArr items =>
      join [44]
        (map (fun x => match x with
                       | VUndefined | VNull => []
                       | _ => ToString x
                       end) items)
  | VObj _ => js "[object Object]"
  end.

(** ** [JSON] *)
Module JSON.

Definition hex_digit (d : N) : N := if d <? 10 then 48 + d else 87 + d.

Definition unicode_escape (c : N) : jsstring :=
  [92; 117; hex_digit (c / 4096 mod 16); hex_digit (c / 256 mod 16);
   hex_digit (c / 16 mod 16); hex_digit (c mod 16)].

(** QuoteJSONString, between the quotes: lone surrogates are escaped. *)
Fixpoint quote_body (s : jsstring) : jsstring :=
  match s with
  | [] => []
  | c :: r =>
      if c =? 8 then 92 :: 98 :: quote_body r
      else if c =? 9 then 92 :: 116 :: quote_body r
      else if c =? 10 then 92 :: 110 :: quote_body r
      else if c =? 12 then 92 :: 102 :: quote_body r
      else if c =? 13 then 92 :: 114 :: quote_body r
      else if c =? 34 then 92 :: 34 :: quote_body r
      else if c =? 92 then 92 :: 92 :: quote_body r
      else if c <? 32 then unicode_escape c ++ quote_body r
      else if is_high_surrogate c then
        match r with
        | d :: r' =>
            if is_low_surrogate d then c :: d :: quote_body r'
            else unicode_escape c ++ quote_body r
        | [] => unicode_escape c
        end
      else if is_low_surrogate c then unicode_escape c ++ quote_body r
      else c :: quote_body r
  end.

Definition quote (s : jsstring) : jsstring := 34 :: quote_body s ++ [34].

(** [JSON.stringify(v)] without indentation.  Property order is the
    order of the list (keys that are array indices, which JavaScript
    lists first, do not occur in the records of the source); an
    [undefined] member is left out, an [undefined] element is written
    [null], and so is a number that is not finite.
    ([JSON.stringify(undefined)] is [undefined], not a string; the model
    writes the empty string.) *)
Fixpoint stringify (v : value) : jsstring :=
  match v with
  | VUndefined => []
  | VNull => js "null"
  | VBool true => js "true"
  | VBool false => js "false"
  | VNum n => if is_finite n then Number_toString n else js "null"
  | VStr s => quote s
  | VArr items =>
      91 :: join [44]
              (map (fun x => match x with
                             | VUndefined => js "null"
                             | _ => stringify x
                             end) items)
         ++ [93]
  | VObj props =>
      123 :: join [44]
               (flat_map
                  (fun p => match p with
                            | (_, VUndefined) => []
                            | (k, x) => [quote k ++ 58 :: stringify x]
                            end) props)
          ++ [125]
  end.

Definition is_ws (c : N) : bool :=
  (c =? 32) || (c =? 9) || (c =? 10) || (c =? 13).

Fixpoint skip_ws (s : jsstring) : jsstring :=
  match s with
  | [] => []
  | c :: r => if is_ws c then skip_ws r else s
  end.

Definition is_digit (c : N) : bool := (48 <=? c) && (c <=? 57).

Definition hex_value (c : N) : option N :=
  if is_digit c then Some (c - 48)
  else if (97 <=? c) && (c <=? 102) then Some (c - 87)
  else if (65 <=? c) && (c <=? 70) then Some (c - 55)
  else None.

Definition hex4 (a b c d : N) : option N :=
  match hex_value a, hex_value b, hex_value c, hex_value d with
  | Some x, Some y, Some z, Some w => Some (((x * 16 + y) * 16 + z) * 16 + w)
  | _, _, _, _ => None
  end.

Definition simple_escape (e : N) : option N :=
  if e =? 34 then Some 34
  else if e =? 92 then Some 92
  else if e =? 47 then Some 47
  else if e =? 98 then Some 8
  else if e =? 102 then Some 12
  else if e =? 110 then Some 10
  else if e =? 114 then Some 13
  else if e =? 116 then Some 9
  else None.

Definition cons_unit (c : N) (r : option (jsstring * jsstring))
  : option (jsstring * jsstring) :=
  match r with
  | Some (s, rest) => Some (c :: s, rest)
  | None => None
  end.

(** A string literal after its opening quote: the string and the rest. *)
Fixpoint string_body (s : jsstring) : option (jsstring * jsstring) :=
  match s with
  | [] => None
  | c :: r =>
      if c =? 34 then Some ([], r)
      else if c =? 92 then
        match r with
        | [] => None
        | e :: r1 =>
            if e =? 117 then
              match r1 with
              | h1 :: h2 :: h3 :: h4 :: r2 =>
                  match hex4 h1 h2 h3 h4 with
                  | Some u => cons_unit u (string_body r2)
                  | None => None
                  end
              | _ => None
              end
            else
              match simple_escape e with
              | Some u => cons_unit u (string_body r1)
              | None => None
              end
        end
      else if c <? 32 then None
      else cons_unit c (string_body r)
  end.

Fixpoint take_digits (s : jsstring) : jsstring * jsstring :=
  match s with
  | [] => ([], [])
  | c :: r =>
      if is_digit c
      then let '(ds, r') := take_digits r in (c :: ds, r')
      else ([], s)
  end.

Definition digits_value (ds : jsstring) : N :=
  fold_left (fun a d => 10 * a + (d - 48)) ds 0.

Definition number_sign (s : jsstring) : bool * jsstring :=
  match s with
  | c :: r => if c =? 45 then (true, r) else (false, s)
  | [] => (false, [])
  end.

Definition number_int (s : jsstring) : option (jsstring * jsstring) :=
  match s with
  | [] => None
  | c :: r =>
      if c =? 48 then Some ([48], r)
      else if is_digit c then Some (take_digits s)
      else None
  end.

Definition number_frac (s : jsstring) : option (jsstring * jsstring) :=
  match s with
  | c :: r =>
      if c =? 46 then
        match take_digits r with
        | ([], _) => None
        | (fs, r') => Some (fs, r')
        end
      else Some ([], s)
  | [] => Some ([], [])
  end.

Definition number_exp (s : jsstring) : option (Z * jsstring) :=
  match s with
  | c :: r =>
      if (c =? 101) || (c =? 69) then
        let '(neg, r1) :=
          match r with
          | d :: r' =>
              if d =? 43 then (false, r')
              else if d =? 45 then (true, r') else (false, r)
          | [] => (false, [])
          end in
        match take_digits r1 with
        | ([], _) => None
        | (es, r2) =>
            let e := Z.of_N (digits_value es) in
            Some (if neg then (- e)%Z else e, r2)
        end
      else Some (0%Z, s)
  | [] => Some (0%Z, [])
  end.

(** [-? int frac? exp?] *)
Definition parse_number (s : jsstring) : option (number * jsstring) :=
  let '(neg, s1) := number_sign s in
  match number_int s1 with
  | None => None
  | Some (ints, s2) =>
      match number_frac s2 with
      | None => None
      | Some (fracs, s3) =>
          match number_exp s3 with
          | None => None
          | Some (e, s4) =>
              Some ({| negative := neg;
                       mantissa := digits_value (ints ++ fracs);
                       exponent := (e - Z.of_nat (length fracs))%Z |}, s4)
          end
      end
  end.

Fixpoint strip_prefix (p s : jsstring) : option jsstring :=
  match p, s with
  | [], _ => Some s
  | a :: p', b :: s' => if a =? b then strip_prefix p' s' else None
  | _ :: _, [] => None
  end.

Definition keyword (word : string) (v : value) (s : jsstring)
  : option (value * jsstring) :=
  match strip_prefix (js word) s with
  | Some rest => Some (v, rest)
  | None => None
  end.

(** Recursive descent; [s] starts at the first character of the value.
    Of two nested calls one consumes a character, so a fuel above twice
    the length of the text never runs out. *)
Fixpoint parse_value (fuel : nat) (s : jsstring) : option (value * jsstring) :=
  match fuel with
  | O => None
  | S f =>
      match s with
      | [] => None
      | c :: r =>
          if c =? 34 then
            match string_body r with
            | Some (str, rest) => Some (VStr str, rest)
            | None => None
            end
          else if c =? 123 then
            match skip_ws r with
            | d :: r' =>
                if d =? 125 then Some (VObj [], r')
                else parse_members f (d :: r') []
            | [] => None
            end
          else if c =? 91 then
            match skip_ws r with
            | d :: r' =>
                if d =? 93 then Some (VArr [], r')
                else parse_elements f (d :: r') []
            | [] => None
            end
          else if c =? 116 then keyword "true" (VBool true) s
          else if c =? 102 then keyword "false" (VBool false) s
          else if c =? 110 then keyword "null" VNull s
          else
            match parse_number s with
            | Some (n, rest) => Some (VNum n, rest)
            | None => None
            end
      end
  end

with parse_members (fuel : nat) (s : jsstring) (acc : list (jsstring * value))
  : option (value * jsstring) :=
  match fuel with
  | O => None
  | S f =>
      match s with
      | c :: r =>
          if c =? 34 then
            match string_body r with
            | Some (k, r1) =>
                match skip_ws r1 with
                | d :: r2 =>
                    if d =? 58 then
                      match parse_value f (skip_ws r2) with
                      | Some (v, r3) =>
                          match skip_ws r3 with
                          | e :: r4 =>
                              if e =? 44
                              then parse_members f (skip_ws r4) (obj_set acc k v)
                              else if e =? 125
                              then Some (VObj (obj_set acc k v), r4)
                              else None
                          | [] => None
                          end
                      | None => None
                      end
                    else None
                | [] => None
                end
            | None => None
            end
          else None
      | [] => None
      end
  end

with parse_elements (fuel : nat) (s : jsstring) (acc : list value)
  : option (value * jsstring) :=
  match fuel with
  | O => None
  | S f =>
      match parse_value f s with
      | Some (v, r1) =>
          match skip_ws r1 with
          | e :: r2 =>
              if e =? 44 then parse_elements f (skip_ws r2) (acc ++ [v])
              else if e =? 93 then Some (VArr (acc ++ [v]), r2)
              else None
          | [] => None
          end
      | None => None
      end
  end.

(** [JSON.parse(text)]; [None] is the thrown [SyntaxError]. *)
Definition parse (text : jsstring) : option value :=
  match parse_value (S (2 * length text)) (skip_ws text) with
  | Some (v, rest) =>
      match skip_ws rest with
      | [] => Some v
      | _ :: _ => None
      end
  | None => None
  end.

End JSON.

(** What may follow a number: not a digit, ['.'], ['e'] or ['E']. *)
Definition ends_number (rest : jsstring) : bool :=
  match rest with
  | [] => true
  | c :: _ =>
      negb (JSON.is_digit c) && negb (c =? 46) && negb (c =? 101)
      && negb (c =? 69)
  end.

(** A string or a non-negative safe integer: the values of an envelope. *)
Definition flat_value (v : value) : Prop :=
  (exists s, v = VStr s) \/ (exists n, n < 2 ^ 53 /\ v = VNum (integer n)).

(** One member of an object as [JSON.stringify] writes it. *)
Definition member (p : jsstring * value) : jsstring :=
  JSON.quote (fst p) ++ 58 :: JSON.stringify (snd p).

(** ** The external collaborators *)

(** The two classes imported from the [mlkem] package. *)
Inductive Kem : Type := MlKem1024 | MlKem768.

(** The primitives behind the adapter.  The KEM operations take the
    random bytes the library draws as an argument; every operation
    returns or throws.  [buffer_from] is [Buffer.from(v, 'base64')] on a
    value that is not a string, which Node decides case by case. *)
Record Primitives : Type := {
  kem_generateKeyPair : Kem -> bytes -> result (bytes * bytes);
  kem_encap : Kem -> bytes -> bytes -> result (bytes * bytes);
  kem_decap : Kem -> bytes -> bytes -> result bytes;
  subtle_deriveBits : bytes -> bytes -> bytes -> N -> result bytes;
  chacha20poly1305_encrypt : bytes -> bytes -> bytes -> bytes -> result bytes;
  chacha20poly1305_decrypt : bytes -> bytes -> bytes -> bytes -> result bytes;
  buffer_from : value -> result bytes
}.

(** key-manager.js: key size constants and supported algorithms. *)
Definition ML_KEM_1024_PUBLIC_KEY_SIZE : nat := 1568.
Definition ML_KEM_1024_PRIVATE_KEY_SIZE : nat := 3168.
Definition ML_KEM_768_PUBLIC_KEY_SIZE : nat := 1184.
Definition ML_KEM_768_PRIVATE_KEY_SIZE : nat := 2400.

Definition SUPPORTED_ALGORITHMS : list jsstring :=
  [js "ML-KEM-1024"; js "ML-KEM-768"].
Definition DEFAULT_ALGORITHM : jsstring := js "ML-KEM-1024".

Definition public_key_size (k : Kem) : nat :=
  match k with
  | MlKem1024 => ML_KEM_1024_PUBLIC_KEY_SIZE
  | MlKem768 => ML_KEM_768_PUBLIC_KEY_SIZE
  end.

Definition private_key_size (k : Kem) : nat :=
  match k with
  | MlKem1024 => ML_KEM_1024_PRIVATE_KEY_SIZE
  | MlKem768 => ML_KEM_768_PRIVATE_KEY_SIZE
  end.

(** The contract of section 6 of the specification: a generated key pair
    has the sizes of its suite, encapsulating to its public key succeeds
    and decapsulating with its private key recovers the same secret; the
    KDF yields a key of the requested 32 bytes; opening what was sealed
    under a 32-byte key and a 12-byte nonce gives the plaintext back. *)
Record Section6 (P : Primitives) : Prop := {
  kem_sizes : forall k seed pk sk,
    kem_generateKeyPair P k seed = Ok (pk, sk) ->
    length pk = public_key_size k /\ length sk = private_key_size k;
  kem_correct : forall k seed pk sk r,
    kem_generateKeyPair P k seed = Ok (pk, sk) ->
    exists ct ss,
      kem_encap P k pk r = Ok (ct, ss) /\ ct <> []
      /\ kem_decap P k ct sk = Ok ss;
  kdf_total : forall ikm salt info,
    exists key, subtle_deriveBits P ikm salt info 256 = Ok key
                /\ length key = 32%nat;
  aead_correct : forall key nonce pt,
    length key = 32%nat -> length nonce = 12%nat ->
    exists ct,
      chacha20poly1305_encrypt P key nonce [] pt = Ok ct /\ ct <> []
      /\ chacha20poly1305_decrypt P key nonce [] ct = Ok pt
}.

(** ** The runtime: randomness, clock, and the sensitive locals *)

(** The secure random source as a tape with a cursor, and the clock,
    whose reading [Date.now()] is a time value, a safe integer. *)
Record World : Type := {
  entropy : nat -> byte;
  cursor : nat;
  now : N;
  now_safe : now < 2 ^ 53
}.

(** The buffers bound to the locals [sharedSecret] and [chachaKey] of
    [encrypt] and [decrypt], as they are when the call leaves. *)
Record Frame : Type := {
  sharedSecret : option bytes;
  chachaKey : option bytes
}.

Definition empty_frame : Frame :=
  {| sharedSecret := None; chachaKey := None |}.

(** An [async] function body: it runs in a world [W] with a frame of
    sensitive locals and returns or throws. *)
Definition M (W A : Type) : Type := W -> Frame -> result A * W * Frame.

Definition ret {W A} (a : A) : M W A := fun w f => (Ok a, w, f).

Definition throw {W A} (message : jsstring) : M W A :=
  fun w f => (Throw message, w, f).

Definition bind {W A B} (m : M W A) (k : A -> M W B) : M W B :=
  fun w f =>
    match m w f with
    | (Ok a, w', f') => k a w' f'
    | (Throw e, w', f') => (Throw e, w', f')
    end.

(** [try { m } catch (error) { handler(error.message) }] *)
Definition try_catch {W A} (m : M W A) (handler : jsstring -> M W A) : M W A :=
  fun w f =>
    match m w f with
    | (Ok a, w', f') => (Ok a, w', f')
    | (Throw e, w', f') => handler e w' f'
    end.

(** [await] of a primitive. *)
Definition await {W A} (r : result A) : M W A := fun w f => (r, w, f).

Definition when {W} (c : bool) (m : M W unit) : M W unit :=
  if c then m else ret tt.

Notation "x <- m ;; k" := (bind m (fun x => k))
  (at level 61, m at next level, right associativity).
Notation "' pat <- m ;; k" := (bind m (fun pat => k))
  (at level 61, pat pattern, m at next level, right associativity).
Notation "m ;; k" := (bind m (fun _ => k))
  (at level 61, right associativity).

(** The same for code that does not touch the runtime. *)
Definition rbind {A B} (r : result A) (k : A -> result B) : result B :=
  match r with
  | Ok a => k a
  | Throw e => Throw e
  end.

Notation "'let*' x ':=' r 'in' k" := (rbind r (fun x => k))
  (at level 10, x name, r at level 100, k at level 200).

Definition const_sharedSecret {W} (b : bytes) : M W unit :=
  fun w f => (Ok tt, w, {| sharedSecret := Some b; chachaKey := chachaKey f |}).

Definition const_chachaKey {W} (b : bytes) : M W unit :=
  fun w f => (Ok tt, w, {| sharedSecret := sharedSecret f; chachaKey := Some b |}).

Definition Date_now : M World N := fun w f => (Ok (now w), w, f).

Definition outcome {W A} (r : result A * W * Frame) : result A := fst (fst r).
Definition world_after {W A} (r : result A * W * Frame) : W := snd (fst r).
Definition frame_after {W A} (r : result A * W * Frame) : Frame := snd r.

(** ** crypto-utils.js *)

(** [Base64.decode(v)]: [Buffer.from(v, 'base64')]. *)
Definition Base64_decode (P : Primitives) (v : value) : result bytes :=
  match v with
  | VStr base64 => Ok (Base64.decode base64)
  | _ => buffer_from P v
  end.

Module HKDF.

Definition derive (P : Primitives) (inputKeyMaterial salt : bytes)
                  (info : jsstring) (length : N) : result bytes :=
  subtle_deriveBits P inputKeyMaterial salt (TextEncoder.encode info)
                    (length * 8).

End HKDF.

Module ChaCha20Poly1305.

Definition encrypt (P : Primitives) (key nonce plaintext : bytes)
  : result bytes :=
  match chacha20poly1305_encrypt P key nonce [] plaintext with
  | Ok ciphertext => Ok ciphertext
  | Throw message =>
      Throw (js "ChaCha20-Poly1305 encryption failed: " ++ message)
  end.

Definition decrypt (P : Primitives) (key nonce ciphertext : bytes)
  : result bytes :=
  match chacha20poly1305_decrypt P key nonce [] ciphertext with
  | Ok plaintext => Ok plaintext
  | Throw message =>
      Throw (js "ChaCha20-Poly1305 decryption failed: " ++ message)
  end.

End ChaCha20Poly1305.

Module SecureRandom.

Definition getRandomBytes (length : nat) : M World bytes :=
  fun w f =>
    (Ok (map (entropy w) (seq (cursor w) length)),
     {| entropy := entropy w; cursor := cursor w + length; now := now w;
        now_safe := now_safe w |},
     f).

Definition generateSalt : M World bytes := getRandomBytes 32.

Definition generateNonce : M World bytes := getRandomBytes 12.

End SecureRandom.

Module CryptoUtils.

(** [data.fill(0)]: the contents of the buffer after the call. *)
Definition secureClear (data : bytes) : bytes := map (fun _ => x00) data.

Definition constantTimeEqual (a b : bytes) : bool :=
  if negb (length a =? length b)%nat then false
  else
    let result :=
      fold_left (fun acc '(x, y) => N.lor acc (N.lxor (Byte.to_N x) (Byte.to_N y)))
                (combine a b) 0 in
    result =? 0.

End CryptoUtils.

(** [CryptoUtils.secureClear(chachaKey)] and
    [CryptoUtils.secureClear(sharedSecret)] on the locals of the frame. *)
Definition secureClear_chachaKey {W} : M W unit :=
  fun w f =>
    (Ok tt, w,
     {| sharedSecret := sharedSecret f;
        chachaKey := option_map CryptoUtils.secureClear (chachaKey f) |}).

Definition secureClear_sharedSecret {W} : M W unit :=
  fun w f =>
    (Ok tt, w,
     {| sharedSecret := option_map CryptoUtils.secureClear (sharedSecret f);
        chachaKey := chachaKey f |}).

(** ** key-manager.js *)

Definition includes (l : list jsstring) (v : value) : bool :=
  existsb (strict_equals_string v) l.

Definition default_parameter (v : value) (d : jsstring) : value :=
  match v with
  | VUndefined => VStr d
  | _ => v
  end.

Definition unsupported_algorithm (algorithm : value) : jsstring :=
  js "Unsupported algorithm: " ++ ToString algorithm
     ++ js ". Supported: " ++ join (js ", ") SUPPORTED_ALGORITHMS.

Definition generateKeyPair (P : Primitives) (algorithm : value) : M World value :=
  let algorithm := default_parameter algorithm DEFAULT_ALGORITHM in
  if negb (includes SUPPORTED_ALGORITHMS algorithm) then
    throw (unsupported_algorithm algorithm)
  else
    try_catch
      (let kemInstance :=
         if strict_equals_string algorithm (js "ML-KEM-1024")
         then MlKem1024 else MlKem768 in
       (* the 64 random bytes key generation draws inside the library *)
       seed <- SecureRandom.getRandomBytes 64 ;;
       keyPair <- await (kem_generateKeyPair P kemInstance seed) ;;
       ret (VObj [(js "publicKey", VStr (Base64.encode (fst keyPair)));
                  (js "privateKey", VStr (Base64.encode (snd keyPair)));
                  (js "algorithm", algorithm)]))
      (fun message =>
         throw (js "Failed to generate " ++ ToString algorithm
                   ++ js " key pair: " ++ message)).

Definition exportKeyPair (keyPair : value) : M World value :=
  publicKey <- await (get keyPair "publicKey") ;;
  privateKey <- await (get keyPair "privateKey") ;;
  algorithm <- await (get keyPair "algorithm") ;;
  timestamp <- Date_now ;;
  ret (VObj [(js "publicKey", publicKey);
             (js "privateKey", privateKey);
             (js "algorithm", algorithm);
             (js "timestamp", VNum (integer timestamp));
             (js "version", VStr (js "1.0.0"))]).

Definition is_string (v : value) : bool :=
  jsstring_eqb (typeof v) (js "string").

Definition importKeyPair (data : value) : result value :=
  if negb (truthy data) || negb (jsstring_eqb (typeof data) (js "object")) then
    Throw (js "Invalid key pair data: must be an object")
  else
    let* publicKey := get data "publicKey" in
    if negb (truthy publicKey) || negb (is_string publicKey) then
      Throw (js "Invalid key pair data: missing or invalid publicKey")
    else
      let* privateKey := get data "privateKey" in
      if negb (truthy privateKey) || negb (is_string privateKey) then
        Throw (js "Invalid key pair data: missing or invalid privateKey")
      else
        let* declared := get data "algorithm" in
        let algorithm := js_or declared (VStr DEFAULT_ALGORITHM) in
        if negb (includes SUPPORTED_ALGORITHMS algorithm) then
          Throw (unsupported_algorithm algorithm)
        else
          Ok (VObj [(js "publicKey", publicKey);
                    (js "privateKey", privateKey);
                    (js "algorithm", algorithm)]).

Definition is_zero_byte (b : byte) : bool := Byte.to_N b =? 0.

(** The [if / else if / else] that sets [expectedSize]; [None] is the
    branch that returns [false]. *)
Definition expectedSize (algorithm : value) : option nat :=
  if strict_equals_string algorithm (js "ML-KEM-1024")
  then Some ML_KEM_1024_PUBLIC_KEY_SIZE
  else if strict_equals_string algorithm (js "ML-KEM-768")
  then Some ML_KEM_768_PUBLIC_KEY_SIZE
  else None.

(** The [try] block of [validatePublicKey]. *)
Definition validatePublicKey_try (publicKey algorithm : value) : result bool :=
  if negb (truthy publicKey) || negb (is_string publicKey) then Ok false
  else if negb (BASE64_RE_test (ToString publicKey)) then Ok false
  else
    let* keyBytes := Ok (Base64.decode (ToString publicKey)) in
    match expectedSize algorithm with
    | None => Ok false
    | Some expectedSize =>
        if negb (length keyBytes =? expectedSize)%nat then Ok false
        else
          let allZeros := forallb is_zero_byte keyBytes in
          if allZeros then Ok false else Ok true
    end.

(** [try { ... } catch { return false; }] *)
Definition validatePublicKey (publicKey algorithm : value) : bool :=
  let algorithm := default_parameter algorithm DEFAULT_ALGORITHM in
  match validatePublicKey_try publicKey algorithm with
  | Ok answer => answer
  | Throw _ => false
  end.

Definition getKeySizes (algorithm : value) : result (nat * nat) :=
  let algorithm := default_parameter algorithm DEFAULT_ALGORITHM in
  if strict_equals_string algorithm (js "ML-KEM-1024") then
    Ok (ML_KEM_1024_PUBLIC_KEY_SIZE, ML_KEM_1024_PRIVATE_KEY_SIZE)
  else if strict_equals_string algorithm (js "ML-KEM-768") then
    Ok (ML_KEM_768_PUBLIC_KEY_SIZE, ML_KEM_768_PRIVATE_KEY_SIZE)
  else Throw (js "Unknown algorithm: " ++ ToString algorithm).

(** ** encryptor.js *)

(** [algorithm === 'ML-KEM-768' ? mlKem768 : mlKem1024] *)
Definition select_kem (algorithm : value) : Kem :=
  if strict_equals_string algorithm (js "ML-KEM-768")
  then MlKem768 else MlKem1024.

(** The object literal [encryptedMessage]. *)
Definition envelope (alg : value) (kem s n c : jsstring) (t : N) : value :=
  VObj [(js "v", VNum (integer 3));
        (js "alg", alg);
        (js "kem", VStr kem);
        (js "s", VStr s);
        (js "n", VStr n);
        (js "c", VStr c);
        (js "t", VNum (integer t))].

Definition encrypt (P : Primitives) (message : jsstring)
                   (recipientPublicKey algorithm : value) : M World jsstring :=
  let algorithm := default_parameter algorithm (js "ML-KEM-1024") in
  try_catch
    (when (negb (truthy (VStr message)) && negb (jsstring_eqb message []))
          (throw (js "Message is required")) ;;
     when (negb (truthy recipientPublicKey) || negb (is_string recipientPublicKey))
          (throw (js "Invalid recipient public key")) ;;
     when (negb (BASE64_RE_test (ToString recipientPublicKey)))
          (throw (js "Public key must be valid Base64")) ;;
     let recipientPubKeyBytes := Base64.decode (ToString recipientPublicKey) in
     let kemInstance := select_kem algorithm in
     (* the 32 random bytes [encap] draws inside the library *)
     seed <- SecureRandom.getRandomBytes 32 ;;
     '(kemCiphertext, sharedSecret) <-
       await (kem_encap P kemInstance recipientPubKeyBytes seed) ;;
     const_sharedSecret sharedSecret ;;
     salt <- SecureRandom.generateSalt ;;
     chachaKey <- await (HKDF.derive P sharedSecret salt
                                     (js "ChaCha20-Poly1305") 32) ;;
     const_chachaKey chachaKey ;;
     nonce <- SecureRandom.generateNonce ;;
     let plaintext := TextEncoder.encode message in
     messageCiphertext <-
       await (ChaCha20Poly1305.encrypt P chachaKey nonce plaintext) ;;
     t <- Date_now ;;
     let encryptedMessage :=
       envelope algorithm (Base64.encode kemCiphertext) (Base64.encode salt)
                (Base64.encode nonce) (Base64.encode messageCiphertext) t in
     secureClear_chachaKey ;;
     secureClear_sharedSecret ;;
     ret (JSON.stringify encryptedMessage))
    (fun message => throw (js "Encryption failed: " ++ message)).

(** [!o.key] *)
Definition lacks (o : value) (key : string) : result bool :=
  let* x := get o key in Ok (negb (truthy x)).

(** [a || b] on conditions whose evaluation may throw. *)
Definition or_else (a b : result bool) : result bool :=
  let* x := a in if x then Ok true else b.

(** [a && b] on property reads. *)
Definition and_then (a b : result value) : result value :=
  let* x := a in if truthy x then b else Ok x.

(** [JSON.parse(text)] as a call that throws.  The message of the
    [SyntaxError] never leaves the [catch] blocks of the callers. *)
Definition JSON_parse (text : jsstring) : result value :=
  match JSON.parse text with
  | Some v => Ok v
  | None => Throw (js "Unexpected token in JSON")
  end.

Definition decrypt (P : Primitives) (encryptedContent privateKey algorithm : value)
  : M unit jsstring :=
  let algorithm := match algorithm with VUndefined => VNull | a => a end in
  try_catch
    (when (negb (truthy encryptedContent) || negb (is_string encryptedContent))
          (throw (js "Invalid encrypted content")) ;;
     when (negb (truthy privateKey) || negb (is_string privateKey))
          (throw (js "Invalid private key")) ;;
     messageData <-
       try_catch (await (JSON_parse (ToString encryptedContent)))
                 (fun _ => throw (js "Invalid encrypted message format")) ;;
     missing <-
       await (or_else (lacks messageData "v")
             (or_else (lacks messageData "alg")
             (or_else (lacks messageData "kem")
             (or_else (lacks messageData "s")
             (or_else (lacks messageData "n")
                      (lacks messageData "c")))))) ;;
     when missing (throw (js "Missing required fields in encrypted message")) ;;
     alg <- await (get messageData "alg") ;;
     let detectedAlgorithm := js_or algorithm alg in
     let kemInstance := select_kem detectedAlgorithm in
     let privateKeyBytes := Base64.decode (ToString privateKey) in
     kem <- await (get messageData "kem") ;;
     kemCiphertext <- await (Base64_decode P kem) ;;
     sharedSecret <-
       await (kem_decap P kemInstance kemCiphertext privateKeyBytes) ;;
     const_sharedSecret sharedSecret ;;
     s <- await (get messageData "s") ;;
     salt <- await (Base64_decode P s) ;;
     chachaKey <- await (HKDF.derive P sharedSecret salt
                                     (js "ChaCha20-Poly1305") 32) ;;
     const_chachaKey chachaKey ;;
     n <- await (get messageData "n") ;;
     nonce <- await (Base64_decode P n) ;;
     c <- await (get messageData "c") ;;
     messageCiphertext <- await (Base64_decode P c) ;;
     plaintext <-
       await (ChaCha20Poly1305.decrypt P chachaKey nonce messageCiphertext) ;;
     secureClear_chachaKey ;;
     secureClear_sharedSecret ;;
     let messageText := TextDecoder.decode plaintext in
     ret messageText)
    (fun message => throw (js "Decryption failed: " ++ message)).

(** The body of the [try] block, then [catch { return false }]. *)
Definition isValidEncryptedMessage (encryptedContent : value) : bool :=
  let body : result bool :=
    if negb (truthy encryptedContent) || negb (is_string encryptedContent)
    then Ok false
    else
      let* messageData := JSON_parse (ToString encryptedContent) in
      let* last :=
        and_then (get messageData "v")
       (and_then (get messageData "alg")
       (and_then (get messageData "kem")
       (and_then (get messageData "s")
       (and_then (get messageData "n")
                 (get messageData "c"))))) in
      Ok (negb (negb (truthy last))) in
  match body with
  | Ok answer => answer
  | Throw _ => false
  end.

(** ** Vocabulary of the statements *)

(** [o.key], [undefined] when the read throws. *)
Definition field (o : value) (key : string) : value :=
  match get o key with
  | Ok v => v
  | Throw _ => VUndefined
  end.

(** [delete o.key] *)
Definition obj_delete (props : list (jsstring * value)) (k : jsstring)
  : list (jsstring * value) :=
  filter (fun p => negb (jsstring_eqb k (fst p))) props.

(** The fields [decrypt] and [isValidEncryptedMessage] test. *)
Definition required_fields : list string :=
  ["v"; "alg"; "kem"; "s"; "n"; "c"]%string.

Definition has_required_fields (messageData : value) : bool :=
  forallb (fun key => truthy (field messageData key)) required_fields.

(** The random bytes one call of [encrypt] draws, in the order of the
    draws: the encapsulation randomness, the salt, the nonce. *)
Definition seed_of (w : World) : bytes :=
  map (entropy w) (seq (cursor w) 32).

Definition salt_of (w : World) : bytes :=
  map (entropy w) (seq (cursor w + 32) 32).

Definition nonce_of (w : World) : bytes :=
  map (entropy w) (seq (cursor w + 32 + 32) 12).

(** The world after [n] random bytes were drawn. *)
Definition advance (w : World) (n : nat) : World :=
  {| entropy := entropy w; cursor := cursor w + n; now := now w;
     now_safe := now_safe w |}.

(** The symmetric key [encrypt] derives in world [w]. *)
Definition encryption_key (P : Primitives) (algorithm recipientPublicKey : value)
                          (w : World) : result bytes :=
  let* encapsulated :=
    kem_encap P (select_kem algorithm)
              (Base64.decode (ToString recipientPublicKey)) (seed_of w) in
  HKDF.derive P (snd encapsulated) (salt_of w) (js "ChaCha20-Poly1305") 32.

(** [decrypt] leaving with [new Error(`Decryption failed: ${message}`)]
    before any secret exists. *)
Definition decryption_failed (message : jsstring)
  : result jsstring * unit * Frame :=
  (Throw (js "Decryption failed: " ++ message), tt, empty_frame).

(** The stages of [decrypt] after the structure check: decapsulation with
    the selected suite, key derivation, AEAD open, decoding. *)
Definition open_envelope (P : Primitives) (messageData : value)
                         (privateKey : jsstring) (kemInstance : Kem)
  : result jsstring * unit * Frame :=
  try_catch
    (let privateKeyBytes := Base64.decode privateKey in
     kem <- await (get messageData "kem") ;;
     kemCiphertext <- await (Base64_decode P kem) ;;
     sharedSecret <-
       await (kem_decap P kemInstance kemCiphertext privateKeyBytes) ;;
     const_sharedSecret sharedSecret ;;
     s <- await (get messageData "s") ;;
     salt <- await (Base64_decode P s) ;;
     chachaKey <- await (HKDF.derive P sharedSecret salt
                                     (js "ChaCha20-Poly1305") 32) ;;
     const_chachaKey chachaKey ;;
     n <- await (get messageData "n") ;;
     nonce <- await (Base64_decode P n) ;;
     c <- await (get messageData "c") ;;
     messageCiphertext <- await (Base64_decode P c) ;;
     plaintext <-
       await (ChaCha20Poly1305.decrypt P chachaKey nonce messageCiphertext) ;;
     secureClear_chachaKey ;;
     secureClear_sharedSecret ;;
     ret (TextDecoder.decode plaintext))
    (fun message => throw (js "Decryption failed: " ++ message))
    tt empty_frame.

(** The caller's override as [decrypt] sees it: the default is [null]. *)
Definition override_of (algorithm : value) : value :=
  match algorithm with
  | VUndefined => VNull
  | a => a
  end.

(** Both sensitive locals hold zero-filled buffers. *)
Definition zeroed (secret key : bytes) : Frame :=
  {| sharedSecret := Some (CryptoUtils.secureClear secret);
     chachaKey := Some (CryptoUtils.secureClear key) |}.

(** A local holds no non-zero byte. *)
Definition buffer_zeroed (buffer : option bytes) : bool :=
  match buffer with
  | Some data => forallb is_zero_byte data
  | None => true
  end.

(** [parsed = JSON.parse(text); parsed[key] = v; JSON.stringify(parsed)],
    the way the tests tamper with an envelope. *)
Definition set_member (text : jsstring) (key : string) (v : value) : jsstring :=
  match JSON.parse text with
  | Some (VObj props) => JSON.stringify (VObj (obj_set props (js key) v))
  | _ => text
  end.

(** [parsed = JSON.parse(text); delete parsed[key]; JSON.stringify(parsed)] *)
Definition delete_member (text : jsstring) (key : string) : jsstring :=
  match JSON.parse text with
  | Some (VObj props) => JSON.stringify (VObj (obj_delete props (js key)))
  | _ => text
  end.

(** [JSON.parse(text)[key]] *)
Definition member_of (text : jsstring) (key : string) : value :=
  match JSON.parse text with
  | Some messageData => field messageData key
  | None => VUndefined
  end.

(** [decrypt(encrypt(message, keyPair.publicKey, algorithm),
             keyPair.privateKey, override)] *)
Definition round_trip (P : Primitives) (keyPair algorithm override : value)
                      (w : World) (message : jsstring) : result jsstring :=
  match outcome (encrypt P message (field keyPair "publicKey") algorithm
                         w empty_frame) with
  | Ok text =>
      outcome (decrypt P (VStr text) (field keyPair "privateKey") override
                       tt empty_frame)
  | Throw e => Throw e
  end.


(** A primitive value: not an array, not an object. *)
Definition is_primitive (v : value) : bool :=
  match v with
  | VArr _ | VObj _ => false
  | _ => true
  end.


(** ** Stand-in primitives

    A small instance of the primitives that meets the contract of
    section 6, used to run the protocol on concrete inputs.  With
    [binding = false] the shared secret ignores the encapsulation
    randomness, the derived key ignores the salt and the tag ignores the
    nonce; the contract holds either way. *)
Module Stub.

(** [l] cut or zero-padded to [n] bytes. *)
Definition fit (n : nat) (l : bytes) : bytes := firstn n (l ++ repeat x00 n).

Definition mix (a b : bytes) : bytes :=
  map (fun '(x, y) => byte_of (Byte.to_N x + Byte.to_N y)) (combine a b).

Definition ciphertext_size (k : Kem) : nat :=
  match k with
  | MlKem1024 => 1568
  | MlKem768 => 1088
  end.

Definition keygen (k : Kem) (seed : bytes) : result (bytes * bytes) :=
  let pk := fit (public_key_size k) (x01 :: seed) in
  Ok (pk, fit (private_key_size k) pk).

Definition secret (binding : bool) (pk ct : bytes) : bytes :=
  if binding then mix (fit 32 pk) (fit 32 ct) else fit 32 pk.

Definition encap (binding : bool) (k : Kem) (pk seed : bytes)
  : result (bytes * bytes) :=
  if (length pk =? public_key_size k)%nat then
    let ct := fit (ciphertext_size k) (x02 :: seed) in
    Ok (ct, secret binding pk ct)
  else Throw (js "invalid encapsulation key").

Definition decap (binding : bool) (k : Kem) (ct sk : bytes) : result bytes :=
  if (length ct =? ciphertext_size k)%nat
     && (length sk =? private_key_size k)%nat
  then Ok (secret binding (firstn (public_key_size k) sk) ct)
  else Throw (js "invalid ciphertext or decapsulation key").

Definition deriveBits (binding : bool) (ikm salt info : bytes) (bits : N)
  : result bytes :=
  let n := N.to_nat (bits / 8) in
  Ok (if binding then mix (fit n ikm) (fit n salt) else fit n ikm).

Definition checksum (l : bytes) : byte :=
  byte_of (fold_left (fun acc b => acc + Byte.to_N b) l 0).

Definition tag (binding : bool) (key nonce aad body : bytes) : bytes :=
  fit 16 (checksum (aad ++ body) :: (if binding then nonce else []) ++ key).

Definition seal (binding : bool) (key nonce aad plaintext : bytes)
  : result bytes :=
  if (length key =? 32)%nat && (length nonce =? 12)%nat
  then Ok (plaintext ++ tag binding key nonce aad plaintext)
  else Throw (js "invalid key or nonce length").

Definition open (binding : bool) (key nonce aad ciphertext : bytes)
  : result bytes :=
  if (length key =? 32)%nat && (length nonce =? 12)%nat then
    let n := (length ciphertext - 16)%nat in
    if (16 <=? length ciphertext)%nat
       && bytes_eqb (skipn n ciphertext)
                    (tag binding key nonce aad (firstn n ciphertext))
    then Ok (firstn n ciphertext)
    else Throw (js "invalid tag")
  else Throw (js "invalid key or nonce length").

Definition primitives (binding : bool) : Primitives :=
  {| kem_generateKeyPair := keygen;
     kem_encap := encap binding;
     kem_decap := decap binding;
     subtle_deriveBits := deriveBits binding;
     chacha20poly1305_encrypt := seal binding;
     chacha20poly1305_decrypt := open binding;
     buffer_from := fun _ =>
       Throw (js "The first argument must be of type string") |}.

(** A world whose random tape is [37 i + 11 + offset] and whose clock
    reads a date in 2024. *)
Definition world (offset : N) : World :=
  {| entropy := fun i => byte_of (37 * N.of_nat i + 11 + offset);
     cursor := 0;
     now := 1730000000000;
     now_safe := eq_refl |}.

(** The primitives with every input bound into the outputs, and the
    degenerate ones. *)
Definition bound : Primitives := primitives true.
Definition unbound : Primitives := primitives false.

(** The key pair [generateKeyPair] returns in [world 0]. *)
Definition keyPair (P : Primitives) (algorithm : string) : value :=
  match outcome (generateKeyPair P (VStr (js algorithm)) (world 0) empty_frame) with
  | Ok generated => generated
  | Throw _ => VUndefined
  end.

(** The envelope [encrypt] emits for [message] to that key pair in
    [world offset]. *)
Definition sealed (P : Primitives) (algorithm declared : string)
                  (offset : N) (message : jsstring) : jsstring :=
  match outcome (encrypt P message (field (keyPair P algorithm) "publicKey")
                         (VStr (js declared)) (world offset) empty_frame) with
  | Ok text => text
  | Throw _ => []
  end.

(** A ciphertext of the length of [c] whose last byte is changed. *)
Definition flip_last (c : bytes) : bytes :=
  removelast c ++ [byte_of (Byte.to_N (last c x00) + 1)].

(** The key [encrypt] derives for that envelope. *)
Definition session_key (P : Primitives) (algorithm : string) (offset : N)
  : bytes :=
  match encryption_key P (VStr (js algorithm))
                       (field (keyPair P algorithm) "publicKey")
                       (world offset) with
  | Ok key => key
  | Throw _ => []
  end.

(** The AEAD ciphertext of that envelope with its last byte changed. *)
Definition tampered (P : Primitives) (algorithm : string) (offset : N)
                    (message : jsstring) : bytes :=
  flip_last (Base64.decode
               (ToString (member_of (sealed P algorithm algorithm offset message)
                                    "c"))).

End Stub.

(* ================================================================== *)
(** * Part II.  Properties *)
(* ================================================================== *)

(** ** Arithmetic and list helpers *)

Ltac euclid := zify; Z.to_euclidean_division_equations; lia.

Lemma jsstring_eqb_eq (a b : jsstring) : jsstring_eqb a b = true <-> a = b.
Proof.
  unfold jsstring_eqb. destruct (list_eq_dec N.eq_dec a b); split; congruence.
Qed.

Lemma jsstring_eqb_refl (a : jsstring) : jsstring_eqb a a = true.
Proof. now apply jsstring_eqb_eq. Qed.

Lemma jsstring_eqb_neq (a b : jsstring) : a <> b -> jsstring_eqb a b = false.
Proof.
  intros H. unfold jsstring_eqb. destruct (list_eq_dec N.eq_dec a b); congruence.
Qed.

Lemma bytes_eqb_refl (a : bytes) : bytes_eqb a a = true.
Proof.
  unfold bytes_eqb. destruct (list_eq_dec byte_eq_dec a a); congruence.
Qed.

Lemma bytes_eqb_eq (a b : bytes) : bytes_eqb a b = true -> a = b.
Proof.
  unfold bytes_eqb. destruct (list_eq_dec byte_eq_dec a b); congruence.
Qed.

Lemma to_N_lt (b : byte) : Byte.to_N b < 256.
Proof. pose proof (Byte.to_N_bounded b). lia. Qed.

Lemma byte_of_to_N (b : byte) : byte_of (Byte.to_N b) = b.
Proof.
  unfold byte_of. rewrite N.mod_small by apply to_N_lt.
  now rewrite Byte.of_to_N.
Qed.

Lemma to_N_byte_of (n : N) : n < 256 -> Byte.to_N (byte_of n) = n.
Proof.
  intros H. unfold byte_of. rewrite N.mod_small by assumption.
  destruct (Byte.of_N n) eqn:E.
  - now apply Byte.to_of_N.
  - apply Byte.of_N_None_iff in E. lia.
Qed.

(** A property checked on [0 .. n-1] holds below [n]. *)
Lemma below_forallb (n : nat) (f : N -> bool) :
  forallb f (map N.of_nat (seq 0 n)) = true ->
  forall i, i < N.of_nat n -> f i = true.
Proof.
  intros H i Hi. rewrite forallb_forall in H. apply H.
  apply in_map_iff. exists (N.to_nat i). split.
  - apply N2Nat.id.
  - apply in_seq. lia.
Qed.

Lemma list_ind3 {A} (P : list A -> Prop) :
  P [] -> (forall a, P [a]) -> (forall a b, P [a; b]) ->
  (forall a b c r, P r -> P (a :: b :: c :: r)) ->
  forall l, P l.
Proof.
  intros H0 H1 H2 H3 l.
  enough (P l /\ (forall a, P (a :: l)) /\ (forall a b, P (a :: b :: l)))
    as [H _] by exact H.
  induction l as [|x l [IH0 [IH1 IH2]]]; repeat split; auto.
Qed.

(** ** Base64 *)

Lemma digit_spec (i : N) :
  i < 64 ->
  Base64.unbase64 (Base64.digit i) = Some i
  /\ (Base64.digit i =? Base64.pad) = false
  /\ is_base64_char (Base64.digit i) = true.
Proof.
  intros Hi.
  pose (f := fun i =>
    match Base64.unbase64 (Base64.digit i) with
    | Some j => j =? i
    | None => false
    end && negb (Base64.digit i =? Base64.pad)
        && is_base64_char (Base64.digit i)).
  assert (Hf : f i = true) by (apply (below_forallb 64); [now vm_compute | exact Hi]).
  unfold f in Hf.
  destruct (Base64.unbase64 (Base64.digit i)) as [j|]; [|discriminate].
  apply andb_prop in Hf as [Hf H3]. apply andb_prop in Hf as [H1 H2].
  apply N.eqb_eq in H1. subst j.
  apply negb_true_iff in H2. auto.
Qed.

(** An alphabet character is its own low byte. *)
Lemma digit_low (i : N) : i < 64 -> Base64.digit i mod 256 = Base64.digit i.
Proof.
  intros Hi.
  assert (H : (Base64.digit i mod 256 =? Base64.digit i) = true)
    by (apply (below_forallb 64
                 (fun i => Base64.digit i mod 256 =? Base64.digit i));
        [now vm_compute | exact Hi]).
  now apply N.eqb_eq in H.
Qed.

Lemma sextets_digit (i : N) (r : jsstring) :
  i < 64 -> Base64.sextets (Base64.digit i :: r) = i :: Base64.sextets r.
Proof.
  intros Hi. destruct (digit_spec i Hi) as [H1 [H2 _]].
  cbn [Base64.sextets]. cbv zeta. now rewrite (digit_low i Hi), H2, H1.
Qed.

Lemma sextets_pad (r : jsstring) : Base64.sextets (Base64.pad :: r) = [].
Proof. reflexivity. Qed.

(** Decoding what [Base64.encode] wrote gives the bytes back. *)
Lemma Base64_decode_encode (bs : bytes) :
  Base64.decode (Base64.encode bs) = bs.
Proof.
  unfold Base64.decode.
  induction bs as [|a|a b|a b c r IH] using list_ind3.
  - reflexivity.
  - pose proof (to_N_lt a) as Ha.
    cbn [Base64.encode].
    rewrite !sextets_digit, sextets_pad by euclid.
    cbn [Base64.groups].
    replace ((Byte.to_N a * 16 / 64 * 64 + Byte.to_N a * 16 mod 64) / 16)
      with (Byte.to_N a) by euclid.
    now rewrite byte_of_to_N.
  - pose proof (to_N_lt a) as Ha. pose proof (to_N_lt b) as Hb.
    cbn [Base64.encode].
    rewrite !sextets_digit, sextets_pad by euclid.
    cbn [Base64.groups].
    set (n := (Byte.to_N a * 256 + Byte.to_N b) * 4).
    replace ((n / 4096 * 64 + n / 64 mod 64) * 64 + n mod 64) with n
      by (subst n; euclid).
    replace (n / 1024) with (Byte.to_N a) by (subst n; euclid).
    replace (n / 4 mod 256) with (Byte.to_N b) by (subst n; euclid).
    now rewrite !byte_of_to_N.
  - pose proof (to_N_lt a) as Ha. pose proof (to_N_lt b) as Hb.
    pose proof (to_N_lt c) as Hc.
    cbn [Base64.encode].
    rewrite !sextets_digit by euclid.
    cbn [Base64.groups]. rewrite IH.
    set (n := Byte.to_N a * 65536 + Byte.to_N b * 256 + Byte.to_N c).
    replace (((n / 262144 * 64 + n / 4096 mod 64) * 64 + n / 64 mod 64) * 64
             + n mod 64) with n by (subst n; euclid).
    replace (n / 65536) with (Byte.to_N a) by (subst n; euclid).
    replace (n / 256 mod 256) with (Byte.to_N b) by (subst n; euclid).
    replace (n mod 256) with (Byte.to_N c) by (subst n; euclid).
    now rewrite !byte_of_to_N.
Qed.

Lemma Base64_encode_inj (a b : bytes) :
  Base64.encode a = Base64.encode b -> a = b.
Proof.
  intros H. rewrite <- (Base64_decode_encode a), <- (Base64_decode_encode b).
  now rewrite H.
Qed.

Lemma base64_tail_encode (bs : bytes) : base64_tail (Base64.encode bs) = true.
Proof.
  induction bs as [|a|a b|a b c r IH] using list_ind3.
  - reflexivity.
  - pose proof (to_N_lt a) as Ha. cbn [Base64.encode base64_tail].
    destruct (digit_spec (Byte.to_N a * 16 / 64)) as [_ [_ ->]]; [euclid|].
    destruct (digit_spec (Byte.to_N a * 16 mod 64)) as [_ [_ ->]]; [euclid|].
    reflexivity.
  - pose proof (to_N_lt a) as Ha. pose proof (to_N_lt b) as Hb.
    cbn [Base64.encode base64_tail].
    set (n := (Byte.to_N a * 256 + Byte.to_N b) * 4).
    destruct (digit_spec (n / 4096)) as [_ [_ ->]]; [subst n; euclid|].
    destruct (digit_spec (n / 64 mod 64)) as [_ [_ ->]]; [euclid|].
    destruct (digit_spec (n mod 64)) as [_ [_ ->]]; [euclid|].
    reflexivity.
  - pose proof (to_N_lt a) as Ha. pose proof (to_N_lt b) as Hb.
    pose proof (to_N_lt c) as Hc.
    cbn [Base64.encode base64_tail].
    set (n := Byte.to_N a * 65536 + Byte.to_N b * 256 + Byte.to_N c).
    destruct (digit_spec (n / 262144)) as [_ [_ ->]]; [subst n; euclid|].
    destruct (digit_spec (n / 4096 mod 64)) as [_ [_ ->]]; [euclid|].
    destruct (digit_spec (n / 64 mod 64)) as [_ [_ ->]]; [euclid|].
    destruct (digit_spec (n mod 64)) as [_ [_ ->]]; [euclid|].
    exact IH.
Qed.

(** The encoding of a non-empty buffer is a non-empty string accepted by
    the Base64 regular expression of the source. *)
Lemma Base64_encode_test (bs : bytes) :
  bs <> [] -> BASE64_RE_test (Base64.encode bs) = true.
Proof.
  intros Hne. pose proof (base64_tail_encode bs) as Ht.
  destruct (Base64.encode bs) as [|c r] eqn:E.
  - destruct bs as [|a [|b [|c r]]]; [congruence| discriminate ..].
  - unfold BASE64_RE_test. cbn [base64_tail] in Ht.
    destruct (is_base64_char c) eqn:Hc; [exact Ht|].
    exfalso.
    destruct bs as [|a [|b [|c' r']]]; [congruence| | |];
      cbn [Base64.encode] in E; injection E as E1 E2; subst c;
      match type of Hc with
      | is_base64_char (Base64.digit ?i) = false =>
          destruct (digit_spec i) as [_ [_ Hd]];
            [ pose proof (to_N_lt a); try pose proof (to_N_lt b);
              try pose proof (to_N_lt c'); euclid
            | congruence ]
      end.
Qed.

Lemma Base64_encode_nonempty (bs : bytes) :
  bs <> [] -> Base64.encode bs <> [].
Proof.
  intros Hne E. apply Hne. apply Base64_encode_inj. now rewrite E.
Qed.

(** The encoding has four characters for every three bytes. *)
Lemma Base64_encode_length (data : bytes) :
  length (Base64.encode data) = (4 * ((length data + 2) / 3))%nat.
Proof.
  induction data as [| a | a b | a b c r IH] using list_ind3;
    try reflexivity.
  cbn [Base64.encode length]. rewrite IH.
  replace (Datatypes.S (Datatypes.S (Datatypes.S (length r))) + 2)%nat
    with (length r + 2 + 1 * 3)%nat by lia.
  rewrite Nat.div_add by discriminate. lia.
Qed.

(** The decoder does not insist on the canonical text: the bits of
    the last digit that belong to no byte are dropped, so two texts can
    decode to the same bytes. *)
Lemma Base64_decode_unused_bits :
  Base64.decode (js "QR==") = Base64.decode (js "QQ==").
Proof. reflexivity. Qed.

(** ** UTF-8 *)

(** Turn a boolean goal on comparisons into arithmetic. *)
Ltac bool_arith :=
  repeat match goal with
         | |- _ = true => fail 1
         | |- _ = false => fail 1
         | |- true = _ => symmetry
         | |- false = _ => symmetry
         end;
  rewrite ?andb_true_iff, ?orb_true_iff, ?negb_true_iff,
          ?andb_false_iff, ?orb_false_iff, ?negb_false_iff,
          ?N.leb_le, ?N.ltb_lt, ?N.eqb_eq, ?N.leb_gt, ?N.ltb_ge, ?N.eqb_neq;
  rewrite ?andb_true_iff, ?orb_true_iff, ?negb_true_iff,
          ?andb_false_iff, ?orb_false_iff, ?negb_false_iff,
          ?N.leb_le, ?N.ltb_lt, ?N.eqb_eq, ?N.leb_gt, ?N.ltb_ge, ?N.eqb_neq;
  euclid.


Lemma lead_ascii (b : N) :
  b <= 0x7F -> TextDecoder.lead b = ([b], TextDecoder.Start).
Proof.
  intros H. unfold TextDecoder.lead.
  replace (b <=? 0x7F) with true by bool_arith. reflexivity.
Qed.

Lemma lead_two (b : N) :
  0xC2 <= b <= 0xDF ->
  TextDecoder.lead b = ([], TextDecoder.Continue (b mod 32) 0 0x80 0xBF).
Proof.
  intros H. unfold TextDecoder.lead.
  replace (b <=? 0x7F) with false by bool_arith.
  replace ((0xC2 <=? b) && (b <=? 0xDF)) with true by bool_arith.
  reflexivity.
Qed.

Lemma lead_three (b : N) :
  0xE0 <= b <= 0xEF ->
  TextDecoder.lead b =
  ([], TextDecoder.Continue (b mod 16) 1
         (if b =? 0xE0 then 0xA0 else 0x80)
         (if b =? 0xED then 0x9F else 0xBF)).
Proof.
  intros H. unfold TextDecoder.lead.
  replace (b <=? 0x7F) with false by bool_arith.
  replace ((0xC2 <=? b) && (b <=? 0xDF)) with false by bool_arith.
  replace ((0xE0 <=? b) && (b <=? 0xEF)) with true by bool_arith.
  reflexivity.
Qed.

Lemma lead_four (b : N) :
  0xF0 <= b <= 0xF4 ->
  TextDecoder.lead b =
  ([], TextDecoder.Continue (b mod 8) 2
         (if b =? 0xF0 then 0x90 else 0x80)
         (if b =? 0xF4 then 0x8F else 0xBF)).
Proof.
  intros H. unfold TextDecoder.lead.
  replace (b <=? 0x7F) with false by bool_arith.
  replace ((0xC2 <=? b) && (b <=? 0xDF)) with false by bool_arith.
  replace ((0xE0 <=? b) && (b <=? 0xEF)) with false by bool_arith.
  replace ((0xF0 <=? b) && (b <=? 0xF4)) with true by bool_arith.
  reflexivity.
Qed.

Lemma step_continue (cp : N) (k : nat) (lo hi b : N) :
  lo <= b <= hi ->
  TextDecoder.step (TextDecoder.Continue cp k lo hi) b =
  match k with
  | O => ([cp * 64 + b mod 64], TextDecoder.Start)
  | S k' => ([], TextDecoder.Continue (cp * 64 + b mod 64) k' 0x80 0xBF)
  end.
Proof.
  intros H. unfold TextDecoder.step.
  replace ((lo <=? b) && (b <=? hi)) with true by bool_arith.
  reflexivity.
Qed.

Lemma run_cons (st : TextDecoder.state) (n : N) (r : bytes) :
  n < 256 ->
  TextDecoder.run st (byte_of n :: r) =
  fst (TextDecoder.step st n) ++ TextDecoder.run (snd (TextDecoder.step st n)) r.
Proof.
  intros H. cbn [TextDecoder.run]. rewrite to_N_byte_of by assumption.
  now destruct (TextDecoder.step st n).
Qed.

(** The decoder reads the encoding of a scalar value back as that value. *)
Lemma run_utf8 (cp : N) (rest : bytes) :
  is_scalar cp ->
  TextDecoder.run TextDecoder.Start (TextEncoder.utf8 cp ++ rest) =
  cp :: TextDecoder.run TextDecoder.Start rest.
Proof.
  intros Hs. unfold is_scalar in Hs. unfold TextEncoder.utf8.
  destruct (cp <? 0x80) eqn:H1; [|destruct (cp <? 0x800) eqn:H2;
    [|destruct (cp <? 0x10000) eqn:H3]];
    rewrite ?N.ltb_lt, ?N.ltb_ge in *; cbn [app].
  - rewrite run_cons by lia. cbn [TextDecoder.step].
    rewrite lead_ascii by lia. reflexivity.
  - rewrite run_cons by euclid. cbn [TextDecoder.step].
    rewrite lead_two by euclid. cbn [fst snd app].
    rewrite run_cons by euclid. rewrite step_continue by euclid.
    cbn [fst snd app]. f_equal. euclid.
  - rewrite run_cons by euclid. cbn [TextDecoder.step].
    rewrite lead_three by euclid. cbn [fst snd app].
    rewrite run_cons by euclid.
    rewrite step_continue
      by (destruct (0xE0 + cp / 4096 =? 0xE0) eqn:Ea;
          destruct (0xE0 + cp / 4096 =? 0xED) eqn:Eb;
          rewrite ?N.eqb_eq, ?N.eqb_neq in *; euclid).
    cbn [fst snd app].
    rewrite run_cons by euclid. rewrite step_continue by euclid.
    cbn [fst snd app]. f_equal. euclid.
  - rewrite run_cons by euclid. cbn [TextDecoder.step].
    rewrite lead_four by euclid. cbn [fst snd app].
    rewrite run_cons by euclid.
    rewrite step_continue
      by (destruct (0xF0 + cp / 262144 =? 0xF0) eqn:Ea;
          destruct (0xF0 + cp / 262144 =? 0xF4) eqn:Eb;
          rewrite ?N.eqb_eq, ?N.eqb_neq in *; euclid).
    cbn [fst snd app].
    rewrite run_cons by euclid. rewrite step_continue by euclid.
    cbn [fst snd app].
    rewrite run_cons by euclid. rewrite step_continue by euclid.
    cbn [fst snd app]. f_equal. euclid.
Qed.

Lemma run_flat_map (cps : list N) :
  Forall is_scalar cps ->
  TextDecoder.run TextDecoder.Start (flat_map TextEncoder.utf8 cps) = cps.
Proof.
  induction 1 as [|cp l Hcp _ IH]; [reflexivity|].
  cbn [flat_map]. rewrite run_utf8 by assumption. now rewrite IH.
Qed.

Lemma list_ind_pairs {A} (P : list A -> Prop) :
  P [] -> (forall a, P [a]) ->
  (forall a b l, P l -> P (b :: l) -> P (a :: b :: l)) ->
  forall l, P l.
Proof.
  intros H0 H1 H2 l.
  enough (P l /\ forall a, P (a :: l)) as [H _] by exact H.
  induction l as [|x l [IH0 IH1]]; split; auto.
Qed.


Lemma well_formed_cons (a : N) (r : jsstring) :
  well_formed (a :: r) =
  if is_high_surrogate a then
    match r with
    | d :: r' => is_low_surrogate d && well_formed r'
    | [] => false
    end
  else negb (is_low_surrogate a) && (a <? 0x10000) && well_formed r.
Proof. reflexivity. Qed.

Lemma scalars_cons (a : N) (r : jsstring) :
  TextEncoder.scalars (a :: r) =
  if is_high_surrogate a then
    match r with
    | d :: r' =>
        if is_low_surrogate d
        then (0x10000 + (a - 0xD800) * 0x400 + (d - 0xDC00))
               :: TextEncoder.scalars r'
        else 0xFFFD :: TextEncoder.scalars r
    | [] => [0xFFFD]
    end
  else if is_low_surrogate a then 0xFFFD :: TextEncoder.scalars r
  else a :: TextEncoder.scalars r.
Proof. reflexivity. Qed.

Lemma scalars_well_formed (s : jsstring) :
  well_formed s = true ->
  Forall is_scalar (TextEncoder.scalars s)
  /\ flat_map TextDecoder.units (TextEncoder.scalars s) = s
  /\ (starts_with_bom s = false ->
      TextDecoder.strip_bom (TextEncoder.scalars s) = TextEncoder.scalars s).
Proof.
  induction s as [|a|a b l IHl IHbl] using list_ind_pairs.
  - repeat split; auto.
  - rewrite well_formed_cons, scalars_cons.
    destruct (is_high_surrogate a) eqn:Ha; [discriminate|].
    destruct (is_low_surrogate a) eqn:Hb; [discriminate|].
    intros H. cbn in H. rewrite andb_true_r in H. apply N.ltb_lt in H.
    unfold is_high_surrogate, is_low_surrogate in *.
    repeat split.
    + constructor; [|constructor]. unfold is_scalar.
      rewrite andb_false_iff, !N.leb_gt in Ha, Hb. lia.
    + cbn. unfold TextDecoder.units.
      replace (a <? 0x10000) with true by bool_arith. reflexivity.
    + cbn. now intros ->.
  - rewrite well_formed_cons, scalars_cons.
    destruct (is_high_surrogate a) eqn:Ha.
    + destruct (is_low_surrogate b) eqn:Hb; [|discriminate].
      cbn [andb]. intros H. destruct (IHl H) as [F [U _]].
      unfold is_high_surrogate, is_low_surrogate in *.
      rewrite andb_true_iff, !N.leb_le in Ha, Hb.
      repeat split.
      * constructor; [|exact F]. unfold is_scalar. lia.
      * cbn [flat_map]. rewrite U. unfold TextDecoder.units.
        replace (_ <? 0x10000) with false by bool_arith.
        cbn [app]. f_equal; [euclid|]. f_equal. euclid.
      * intros _. cbn [TextDecoder.strip_bom].
        replace (_ =? 0xFEFF) with false by bool_arith. reflexivity.
    + destruct (is_low_surrogate a) eqn:Hl; [discriminate|].
      cbn [negb andb]. intros H. apply andb_prop in H as [Hlt H].
      apply N.ltb_lt in Hlt.
      destruct (IHbl H) as [F [U _]].
      unfold is_high_surrogate, is_low_surrogate in *.
      rewrite andb_false_iff, !N.leb_gt in Ha, Hl.
      repeat split.
      * constructor; [|exact F]. unfold is_scalar. lia.
      * cbn [flat_map]. rewrite U. unfold TextDecoder.units.
        replace (a <? 0x10000) with true by bool_arith. reflexivity.
      * cbn [starts_with_bom TextDecoder.strip_bom]. now intros ->.
Qed.

(** [new TextDecoder().decode(new TextEncoder().encode(s)) === s] for a
    well-formed string that does not start with a byte order mark. *)
Lemma TextDecoder_decode_encode (s : jsstring) :
  well_formed s = true -> starts_with_bom s = false ->
  TextDecoder.decode (TextEncoder.encode s) = s.
Proof.
  intros Hwf Hbom. destruct (scalars_well_formed s Hwf) as [F [U B]].
  unfold TextDecoder.decode, TextEncoder.encode.
  rewrite run_flat_map by exact F. rewrite B by exact Hbom. exact U.
Qed.


(** ** Numbers *)

(** Number::toString on sample values: a fraction, the exponent form
    from [1e21] on and below [1e-6], a negative number, the smallest
    subnormal, a value that is no binary64 value, an integer above
    [2 ^ 53], an overflow; and the general rule on safe integers, where
    it gives the digits. *)
Lemma Number_toString_samples :
  map Number_toString
    [ {| negative := false; mantissa := 15; exponent := -1 |};
      {| negative := false; mantissa := 1; exponent := 21 |};
      {| negative := false; mantissa := 1; exponent := 2 |};
      {| negative := false; mantissa := 1; exponent := -7 |};
      {| negative := false; mantissa := 1; exponent := -6 |};
      {| negative := true; mantissa := 25; exponent := -1 |};
      {| negative := false; mantissa := 5; exponent := -324 |};
      {| negative := false; mantissa := 30000000000000004; exponent := -17 |};
      integer 9007199254740993;
      {| negative := false; mantissa := 1; exponent := 400 |} ]
  = map js ["1.5"; "1e+21"; "100"; "1e-7"; "0.000001"; "-2.5"; "5e-324";
            "0.30000000000000004"; "9007199254740992"; "Infinity"]%string
  /\ map shortest_decimal (map integer [3; 1730000000000; 9007199254740991])
     = map decimal [3; 1730000000000; 9007199254740991].
Proof. vm_compute. split; reflexivity. Qed.

(** ** JSON *)

Lemma hex_digit_value (d : N) :
  d < 16 -> JSON.hex_value (JSON.hex_digit d) = Some d.
Proof.
  intros Hd.
  pose (f := fun d => match JSON.hex_value (JSON.hex_digit d) with
                      | Some x => x =? d
                      | None => false
                      end).
  assert (Hf : f d = true) by (apply (below_forallb 16); [now vm_compute | exact Hd]).
  unfold f in Hf. destruct (JSON.hex_value (JSON.hex_digit d)); [|discriminate].
  apply N.eqb_eq in Hf. now subst.
Qed.

Lemma string_body_cons (c : N) (r : jsstring) :
  JSON.string_body (c :: r) =
  if c =? 34 then Some ([], r)
  else if c =? 92 then
    match r with
    | [] => None
    | e :: r1 =>
        if e =? 117 then
          match r1 with
          | h1 :: h2 :: h3 :: h4 :: r2 =>
              match JSON.hex4 h1 h2 h3 h4 with
              | Some u => JSON.cons_unit u (JSON.string_body r2)
              | None => None
              end
          | _ => None
          end
        else
          match JSON.simple_escape e with
          | Some u => JSON.cons_unit u (JSON.string_body r1)
          | None => None
          end
    end
  else if c <? 32 then None
  else JSON.cons_unit c (JSON.string_body r).
Proof. reflexivity. Qed.

Lemma string_body_unicode_escape (c : N) (r : jsstring) :
  c < 65536 ->
  JSON.string_body (JSON.unicode_escape c ++ r) =
  JSON.cons_unit c (JSON.string_body r).
Proof.
  intros Hc. unfold JSON.unicode_escape. cbn [app].
  rewrite string_body_cons.
  change (92 =? 34) with false. change (92 =? 92) with true.
  change (117 =? 117) with true. cbv iota.
  unfold JSON.hex4. rewrite !hex_digit_value by euclid.
  do 2 f_equal. euclid.
Qed.

Lemma string_body_raw (c : N) (r : jsstring) :
  c <> 34 -> c <> 92 -> 32 <= c ->
  JSON.string_body (c :: r) = JSON.cons_unit c (JSON.string_body r).
Proof.
  intros H1 H2 H3. rewrite string_body_cons.
  replace (c =? 34) with false by bool_arith.
  replace (c =? 92) with false by bool_arith.
  replace (c <? 32) with false by bool_arith. reflexivity.
Qed.

Lemma string_body_simple (e u : N) (r : jsstring) :
  JSON.simple_escape e = Some u ->
  JSON.string_body (92 :: e :: r) = JSON.cons_unit u (JSON.string_body r).
Proof.
  intros H. rewrite string_body_cons.
  change (92 =? 34) with false. change (92 =? 92) with true. cbv iota.
  destruct (e =? 117) eqn:E.
  - apply N.eqb_eq in E. subst e. discriminate.
  - now rewrite H.
Qed.

Lemma quote_body_cons (c : N) (r : jsstring) :
  JSON.quote_body (c :: r) =
  if c =? 8 then 92 :: 98 :: JSON.quote_body r
  else if c =? 9 then 92 :: 116 :: JSON.quote_body r
  else if c =? 10 then 92 :: 110 :: JSON.quote_body r
  else if c =? 12 then 92 :: 102 :: JSON.quote_body r
  else if c =? 13 then 92 :: 114 :: JSON.quote_body r
  else if c =? 34 then 92 :: 34 :: JSON.quote_body r
  else if c =? 92 then 92 :: 92 :: JSON.quote_body r
  else if c <? 32 then JSON.unicode_escape c ++ JSON.quote_body r
  else if is_high_surrogate c then
    match r with
    | d :: r' =>
        if is_low_surrogate d then c :: d :: JSON.quote_body r'
        else JSON.unicode_escape c ++ JSON.quote_body r
    | [] => JSON.unicode_escape c
    end
  else if is_low_surrogate c then JSON.unicode_escape c ++ JSON.quote_body r
  else c :: JSON.quote_body r.
Proof. destruct r; reflexivity. Qed.

(** Reading back what [quote] wrote, up to the closing quote. *)
Lemma string_body_quote_body (s rest : jsstring) :
  JSON.string_body (JSON.quote_body s ++ 34 :: rest) = Some (s, rest).
Proof.
  remember (length s) as n eqn:Hn.
  assert (Hle : (length s <= n)%nat) by lia. clear Hn.
  revert s Hle. induction n as [|n IH]; intros s Hle.
  - destruct s; [reflexivity | cbn in Hle; lia].
  - destruct s as [|c r]; [reflexivity|].
    cbn [length] in Hle.
    assert (IHr : JSON.string_body (JSON.quote_body r ++ 34 :: rest) = Some (r, rest))
      by (apply IH; lia).
    rewrite quote_body_cons.
    destruct (c =? 8) eqn:E1; [apply N.eqb_eq in E1; subst c;
      cbn [app]; now rewrite (string_body_simple _ 8), IHr|].
    destruct (c =? 9) eqn:E2; [apply N.eqb_eq in E2; subst c;
      cbn [app]; now rewrite (string_body_simple _ 9), IHr|].
    destruct (c =? 10) eqn:E3; [apply N.eqb_eq in E3; subst c;
      cbn [app]; now rewrite (string_body_simple _ 10), IHr|].
    destruct (c =? 12) eqn:E4; [apply N.eqb_eq in E4; subst c;
      cbn [app]; now rewrite (string_body_simple _ 12), IHr|].
    destruct (c =? 13) eqn:E5; [apply N.eqb_eq in E5; subst c;
      cbn [app]; now rewrite (string_body_simple _ 13), IHr|].
    destruct (c =? 34) eqn:E6; [apply N.eqb_eq in E6; subst c;
      cbn [app]; now rewrite (string_body_simple _ 34), IHr|].
    destruct (c =? 92) eqn:E7; [apply N.eqb_eq in E7; subst c;
      cbn [app]; now rewrite (string_body_simple _ 92), IHr|].
    apply N.eqb_neq in E6, E7.
    destruct (c <? 32) eqn:E8.
    { apply N.ltb_lt in E8. rewrite <- app_assoc.
      rewrite string_body_unicode_escape by lia. now rewrite IHr. }
    apply N.ltb_ge in E8.
    destruct (is_high_surrogate c) eqn:Eh.
    { unfold is_high_surrogate in Eh. rewrite andb_true_iff, !N.leb_le in Eh.
      destruct r as [|d r'].
      - rewrite string_body_unicode_escape by lia. reflexivity.
      - destruct (is_low_surrogate d) eqn:El.
        + unfold is_low_surrogate in El. rewrite andb_true_iff, !N.leb_le in El.
          cbn [app]. rewrite !string_body_raw by lia.
          cbn [length] in Hle. rewrite IH by lia. reflexivity.
        + rewrite <- app_assoc.
          rewrite string_body_unicode_escape by lia. now rewrite IHr. }
    destruct (is_low_surrogate c) eqn:El.
    { unfold is_low_surrogate in El. rewrite andb_true_iff, !N.leb_le in El.
      rewrite <- app_assoc.
      rewrite string_body_unicode_escape by lia. now rewrite IHr. }
    cbn [app]. rewrite string_body_raw by lia. now rewrite IHr.
Qed.

Lemma pow2_succ (f : nat) : 2 ^ N.of_nat (S f) = 2 * 2 ^ N.of_nat f.
Proof. rewrite Nat2N.inj_succ. apply N.pow_succ_r'. Qed.

Lemma decimal_digits_all (fuel : nat) (n : N) (acc : jsstring) :
  forallb JSON.is_digit acc = true ->
  forallb JSON.is_digit (decimal_digits fuel n acc) = true.
Proof.
  revert n acc. induction fuel as [|f IH]; intros n acc Hacc; [exact Hacc|].
  cbn [decimal_digits].
  assert (Hd : forallb JSON.is_digit ((48 + n mod 10) :: acc) = true).
  { cbn [forallb]. rewrite Hacc, andb_true_r. unfold JSON.is_digit. bool_arith. }
  destruct (n / 10 =? 0); [exact Hd | now apply IH].
Qed.

Lemma decimal_digits_value (fuel : nat) (n : N) (acc : jsstring) :
  n < 2 ^ N.of_nat fuel ->
  exists k, forall a,
    fold_left (fun a d => 10 * a + (d - 48)) (decimal_digits fuel n acc) a =
    fold_left (fun a d => 10 * a + (d - 48)) acc (a * 10 ^ k + n).
Proof.
  revert n acc. induction fuel as [|f IH]; intros n acc Hn.
  - change (N.of_nat 0) with 0 in Hn. rewrite N.pow_0_r in Hn.
    exists 0. intros a. cbn [decimal_digits].
    f_equal. rewrite N.pow_0_r. lia.
  - rewrite pow2_succ in Hn. cbn [decimal_digits].
    destruct (n / 10 =? 0) eqn:E.
    + apply N.eqb_eq in E. exists 1. intros a. cbn [fold_left]. f_equal.
      rewrite N.pow_1_r. euclid.
    + apply N.eqb_neq in E.
      destruct (IH (n / 10) ((48 + n mod 10) :: acc)) as [k Hk].
      { set (x := 2 ^ N.of_nat f) in *. euclid. }
      exists (N.succ k). intros a. rewrite Hk. cbn [fold_left]. f_equal.
      rewrite N.pow_succ_r'. set (y := 10 ^ k). euclid.
Qed.

Lemma decimal_digits_head (fuel : nat) (n : N) (acc : jsstring) :
  n < 2 ^ N.of_nat fuel -> (0 < fuel)%nat ->
  exists c l, decimal_digits fuel n acc = c :: l
              /\ (c = 48 -> n = 0 /\ l = acc).
Proof.
  revert n acc. induction fuel as [|f IH]; intros n acc Hn Hf; [lia|].
  rewrite pow2_succ in Hn. cbn [decimal_digits].
  destruct (n / 10 =? 0) eqn:E.
  - apply N.eqb_eq in E. exists (48 + n mod 10), acc. split; [reflexivity|].
    intros H. split; [euclid | reflexivity].
  - apply N.eqb_neq in E.
    assert (Hn' : n / 10 < 2 ^ N.of_nat f)
      by (set (x := 2 ^ N.of_nat f) in *; euclid).
    destruct f as [|f'].
    { change (N.of_nat 0) with 0 in Hn'. rewrite N.pow_0_r in Hn'. euclid. }
    destruct (IH (n / 10) ((48 + n mod 10) :: acc) Hn') as [c [l [Hd Hz]]]; [lia|].
    exists c, l. split; [exact Hd|]. intros Hc. destruct (Hz Hc) as [Hz' _].
    congruence.
Qed.

Lemma decimal_bound (n : N) : n < 2 ^ N.of_nat (S (N.to_nat (N.size n))).
Proof.
  rewrite pow2_succ, N2Nat.id. pose proof (N.size_gt n). lia.
Qed.

Lemma decimal_all (n : N) : forallb JSON.is_digit (decimal n) = true.
Proof. now apply decimal_digits_all. Qed.

Lemma decimal_value (n : N) : JSON.digits_value (decimal n) = n.
Proof.
  unfold JSON.digits_value, decimal.
  destruct (decimal_digits_value _ n [] (decimal_bound n)) as [k Hk].
  rewrite Hk. cbn [fold_left]. lia.
Qed.

Lemma decimal_head (n : N) :
  exists c l, decimal n = c :: l /\ JSON.is_digit c = true
              /\ (c = 48 -> n = 0 /\ l = []).
Proof.
  destruct (decimal_digits_head _ n [] (decimal_bound n)) as [c [l [Hd Hz]]]; [lia|].
  exists c, l. split; [exact Hd|]. split; [|exact Hz].
  pose proof (decimal_all n) as Ha. unfold decimal in Ha. rewrite Hd in Ha.
  cbn [forallb] in Ha. now apply andb_prop in Ha.
Qed.


Lemma take_digits_app (ds rest : jsstring) :
  forallb JSON.is_digit ds = true -> ends_number rest = true ->
  JSON.take_digits (ds ++ rest) = (ds, rest).
Proof.
  intros Hds Hr. induction ds as [|d ds IH].
  - cbn [app]. destruct rest as [|c r]; [reflexivity|].
    cbn [JSON.take_digits]. cbn [ends_number] in Hr.
    destruct (JSON.is_digit c); [discriminate | reflexivity].
  - cbn [forallb] in Hds. apply andb_prop in Hds as [Hd Hds].
    cbn [app JSON.take_digits]. rewrite Hd, IH by assumption. reflexivity.
Qed.

Lemma parse_number_decimal (n : N) (rest : jsstring) :
  ends_number rest = true ->
  JSON.parse_number (decimal n ++ rest) = Some (integer n, rest).
Proof.
  intros Hr. destruct (decimal_head n) as [c [l [Hd [Hc Hz]]]].
  pose proof (decimal_all n) as Hall. pose proof (decimal_value n) as Hval.
  assert (Hc' := Hc). unfold JSON.is_digit in Hc'.
  rewrite andb_true_iff, !N.leb_le in Hc'.
  unfold JSON.parse_number, JSON.number_sign.
  rewrite Hd. cbn [app].
  replace (c =? 45) with false by bool_arith.
  cbv beta iota. unfold JSON.number_int. cbv beta iota.
  match goal with
  | |- match ?x with _ => _ end = _ =>
      assert (Hint : x = Some (decimal n, rest));
        [|rewrite Hint; clear Hint]
  end.
  { destruct (c =? 48) eqn:E.
    - apply N.eqb_eq in E. destruct (Hz E) as [_ ->]. subst c. now rewrite Hd.
    - rewrite Hc. change (c :: l ++ rest) with ((c :: l) ++ rest).
      rewrite <- Hd. now rewrite take_digits_app. }
  assert (Hfrac : JSON.number_frac rest = Some ([], rest)).
  { destruct rest as [|d r]; [reflexivity|]. cbn [ends_number] in Hr.
    unfold JSON.number_frac. destruct (d =? 46); [|reflexivity].
    rewrite !andb_true_iff in Hr. cbn in Hr. intuition discriminate. }
  rewrite Hfrac.
  assert (Hexp : JSON.number_exp rest = Some (0%Z, rest)).
  { destruct rest as [|d r]; [reflexivity|]. cbn [ends_number] in Hr.
    unfold JSON.number_exp.
    destruct (d =? 101); [rewrite !andb_true_iff in Hr; cbn in Hr; intuition discriminate|].
    destruct (d =? 69); [rewrite !andb_true_iff in Hr; cbn in Hr; intuition discriminate|].
    reflexivity. }
  rewrite Hexp. rewrite app_nil_r, Hval. reflexivity.
Qed.



Lemma skip_ws_cons (c : N) (r : jsstring) :
  JSON.is_ws c = false -> JSON.skip_ws (c :: r) = c :: r.
Proof. intros H. cbn [JSON.skip_ws]. now rewrite H. Qed.

Lemma is_digit_not_ws (c : N) : JSON.is_digit c = true -> JSON.is_ws c = false.
Proof.
  unfold JSON.is_digit, JSON.is_ws. rewrite andb_true_iff, !N.leb_le.
  intros H. bool_arith.
Qed.

(** A safe integer is written as its digits. *)
Lemma Number_toString_integer (n : N) :
  n < 2 ^ 53 -> Number_toString (integer n) = decimal n.
Proof.
  intros H. unfold Number_toString, rounds_to_zero, integer.
  cbn [mantissa exponent negative].
  change (0 <? 0)%Z with false. cbn [andb]. rewrite orb_false_r.
  destruct (n =? 0) eqn:E.
  - apply N.eqb_eq in E. subst n. reflexivity.
  - change (0 =? 0)%Z with true. apply N.ltb_lt in H. rewrite H. reflexivity.
Qed.

Lemma stringify_safe_integer (n : N) :
  n < 2 ^ 53 -> JSON.stringify (VNum (integer n)) = decimal n.
Proof.
  intros H. cbn [JSON.stringify].
  assert (F : is_finite (integer n) = true).
  { unfold is_finite, integer. cbn [mantissa exponent].
    change (0 =? 0)%Z with true. apply N.ltb_lt in H. rewrite H.
    cbn [andb]. now rewrite orb_true_r. }
  rewrite F. now apply Number_toString_integer.
Qed.

Lemma stringify_flat_head (v : value) :
  flat_value v ->
  exists c l, JSON.stringify v = c :: l /\ JSON.is_ws c = false.
Proof.
  intros [[s ->] | [n [Hn ->]]].
  - exists 34, (JSON.quote_body s ++ [34]). split; reflexivity.
  - destruct (decimal_head n) as [c [l [Hd [Hc _]]]].
    exists c, l. split; [|now apply is_digit_not_ws].
    now rewrite stringify_safe_integer.
Qed.

Lemma parse_value_S (f : nat) (c : N) (r : jsstring) :
  JSON.parse_value (S f) (c :: r) =
  if c =? 34 then
    match JSON.string_body r with
    | Some (str, rest) => Some (VStr str, rest)
    | None => None
    end
  else if c =? 123 then
    match JSON.skip_ws r with
    | d :: r' =>
        if d =? 125 then Some (VObj [], r')
        else JSON.parse_members f (d :: r') []
    | [] => None
    end
  else if c =? 91 then
    match JSON.skip_ws r with
    | d :: r' =>
        if d =? 93 then Some (VArr [], r')
        else JSON.parse_elements f (d :: r') []
    | [] => None
    end
  else if c =? 116 then JSON.keyword "true" (VBool true) (c :: r)
  else if c =? 102 then JSON.keyword "false" (VBool false) (c :: r)
  else if c =? 110 then JSON.keyword "null" VNull (c :: r)
  else
    match JSON.parse_number (c :: r) with
    | Some (n, rest) => Some (VNum n, rest)
    | None => None
    end.
Proof. reflexivity. Qed.

Lemma parse_members_S (f : nat) (c : N) (r : jsstring)
                      (acc : list (jsstring * value)) :
  JSON.parse_members (S f) (c :: r) acc =
  if c =? 34 then
    match JSON.string_body r with
    | Some (k, r1) =>
        match JSON.skip_ws r1 with
        | d :: r2 =>
            if d =? 58 then
              match JSON.parse_value f (JSON.skip_ws r2) with
              | Some (v, r3) =>
                  match JSON.skip_ws r3 with
                  | e :: r4 =>
                      if e =? 44
                      then JSON.parse_members f (JSON.skip_ws r4) (obj_set acc k v)
                      else if e =? 125
                      then Some (VObj (obj_set acc k v), r4)
                      else None
                  | [] => None
                  end
              | None => None
              end
            else None
        | [] => None
        end
    | None => None
    end
  else None.
Proof. reflexivity. Qed.

(** A flat value is read back, whatever the fuel, when what follows
    cannot continue a number. *)
Lemma parse_value_flat (v : value) (rest : jsstring) (f : nat) :
  flat_value v -> ends_number rest = true ->
  JSON.parse_value (S f) (JSON.stringify v ++ rest) = Some (v, rest).
Proof.
  intros [[s ->] | [n [Hn ->]]] Hr.
  - cbn [JSON.stringify]. unfold JSON.quote. cbn [app].
    rewrite <- app_assoc. cbn [app].
    rewrite parse_value_S. change (34 =? 34) with true. cbv iota.
    now rewrite string_body_quote_body.
  - assert (E : JSON.stringify (VNum (integer n)) = decimal n)
      by (now apply stringify_safe_integer).
    rewrite E. pose proof (parse_number_decimal n rest Hr) as Hp.
    destruct (decimal_head n) as [c [l [Hd [Hc _]]]].
    rewrite Hd in *. cbn [app] in *. rewrite parse_value_S.
    unfold JSON.is_digit in Hc. rewrite andb_true_iff, !N.leb_le in Hc.
    replace (c =? 34) with false by bool_arith.
    replace (c =? 123) with false by bool_arith.
    replace (c =? 91) with false by bool_arith.
    replace (c =? 116) with false by bool_arith.
    replace (c =? 102) with false by bool_arith.
    replace (c =? 110) with false by bool_arith.
    now rewrite Hp.
Qed.

Lemma obj_set_fresh (acc : list (jsstring * value)) (k : jsstring) (v : value) :
  ~ In k (map fst acc) -> obj_set acc k v = acc ++ [(k, v)].
Proof.
  induction acc as [|[k' v'] acc IH]; intros Hk; [reflexivity|].
  cbn [obj_set app]. cbn [map fst In] in Hk.
  rewrite jsstring_eqb_neq by (intros ->; tauto).
  rewrite IH by tauto. reflexivity.
Qed.

Lemma join_cons2 (sep p q : jsstring) (r : list jsstring) :
  join sep (p :: q :: r) = p ++ sep ++ join sep (q :: r).
Proof. reflexivity. Qed.

Lemma member_head (p : jsstring * value) :
  exists l, member p = 34 :: l.
Proof. unfold member, JSON.quote. cbn [app]. eauto. Qed.

Lemma join_member_head (p : jsstring * value) (ps : list (jsstring * value)) :
  exists l, join [44] (map member (p :: ps)) = 34 :: l.
Proof.
  destruct (member_head p) as [l Hl].
  destruct ps as [|q ps]; cbn [map join]; rewrite Hl; cbn [app]; eauto.
Qed.

Lemma parse_members_flat (props : list (jsstring * value)) :
  forall (acc : list (jsstring * value)) (rest : jsstring) (fuel : nat),
  props <> [] ->
  Forall (fun p => flat_value (snd p)) props ->
  NoDup (map fst (acc ++ props)) ->
  (length props < fuel)%nat ->
  JSON.parse_members fuel (join [44] (map member props) ++ 125 :: rest) acc =
  Some (VObj (acc ++ props), rest).
Proof.
  induction props as [|[k v] ps IH]; intros acc rest fuel Hne Hflat Hnd Hfuel;
    [congruence|].
  inversion Hflat as [|? ? Hv Hps]; subst. cbn [snd] in Hv.
  destruct fuel as [|[|f]]; [cbn [length] in Hfuel; lia ..|].
  assert (Hk : ~ In k (map fst acc)).
  { rewrite map_app in Hnd. cbn [map fst] in Hnd.
    apply NoDup_remove_2 in Hnd. intros Hin. apply Hnd.
    apply in_or_app. now left. }
  destruct (stringify_flat_head v Hv) as [c [l [Hs Hc]]].
  assert (Hstep : forall tail e,
    (e = 44 \/ e = 125) ->
    JSON.parse_members (S (S f)) (member (k, v) ++ e :: tail) acc =
    if e =? 44
    then JSON.parse_members (S f) (JSON.skip_ws tail) (acc ++ [(k, v)])
    else Some (VObj (acc ++ [(k, v)]), tail)).
  { intros tail e He. unfold member, JSON.quote. cbn [fst snd app].
    rewrite <- !app_assoc. cbn [app].
    rewrite parse_members_S. change (34 =? 34) with true. cbv iota.
    rewrite string_body_quote_body.
    rewrite skip_ws_cons by reflexivity. change (58 =? 58) with true.
    cbv iota.
    assert (Hsk : JSON.skip_ws (JSON.stringify v ++ e :: tail)
                  = JSON.stringify v ++ e :: tail).
    { rewrite Hs. cbn [app]. now apply skip_ws_cons. }
    rewrite Hsk.
    rewrite parse_value_flat
      by (try assumption; destruct He; subst e; reflexivity).
    rewrite skip_ws_cons by (destruct He; subst e; reflexivity).
    rewrite obj_set_fresh by assumption.
    destruct He; subst e; reflexivity. }
  destruct ps as [|q ps].
  - cbn [map join]. rewrite Hstep by tauto. reflexivity.
  - change (map member ((k, v) :: q :: ps))
      with (member (k, v) :: member q :: map member ps).
    rewrite join_cons2.
    change (member q :: map member ps) with (map member (q :: ps)).
    rewrite <- !app_assoc. cbn [app].
    rewrite Hstep by tauto. change (44 =? 44) with true. cbv iota.
    destruct (join_member_head q ps) as [l' Hl'].
    assert (Hsk : JSON.skip_ws (join [44] (map member (q :: ps)) ++ 125 :: rest)
                  = join [44] (map member (q :: ps)) ++ 125 :: rest).
    { rewrite Hl'. cbn [app]. now apply skip_ws_cons. }
    rewrite Hsk. rewrite IH.
    + now rewrite <- app_assoc.
    + discriminate.
    + assumption.
    + now rewrite <- app_assoc.
    + cbn [length] in *. lia.
Qed.

Lemma stringify_flat_object (props : list (jsstring * value)) :
  Forall (fun p => flat_value (snd p)) props ->
  JSON.stringify (VObj props) = 123 :: join [44] (map member props) ++ [125].
Proof.
  intros Hflat. cbn [JSON.stringify]. do 3 f_equal.
  induction Hflat as [|[k v] ps Hv _ IH]; [reflexivity|].
  cbn [flat_map map]. rewrite IH. cbn [snd] in Hv.
  destruct Hv as [[s ->] | [n [Hn ->]]]; reflexivity.
Qed.

Lemma join_member_length (props : list (jsstring * value)) :
  (length props <= length (join [44%N] (map member props)))%nat.
Proof.
  induction props as [|p [|q ps] IH].
  - cbn. lia.
  - destruct (member_head p) as [l Hl]. cbn [map join]. rewrite Hl. cbn. lia.
  - change (map member (p :: q :: ps))
      with (member p :: member q :: map member ps).
    rewrite join_cons2.
    change (member q :: map member ps) with (map member (q :: ps)).
    rewrite !length_app.
    destruct (member_head p) as [l Hl]. rewrite Hl.
    cbn [length] in *. lia.
Qed.

(** [JSON.parse(JSON.stringify(o))] gives back a flat object [o] with
    distinct keys. *)
Lemma JSON_parse_stringify_flat (props : list (jsstring * value)) :
  props <> [] ->
  Forall (fun p => flat_value (snd p)) props ->
  NoDup (map fst props) ->
  JSON.parse (JSON.stringify (VObj props)) = Some (VObj props).
Proof.
  intros Hne Hflat Hnd. rewrite stringify_flat_object by assumption.
  unfold JSON.parse. rewrite skip_ws_cons by reflexivity.
  rewrite parse_value_S. change (123 =? 34) with false.
  change (123 =? 123) with true. cbv iota.
  destruct props as [|p ps]; [congruence|].
  destruct (join_member_head p ps) as [l Hl].
  assert (Hlen := join_member_length (p :: ps)).
  remember (join [44] (map member (p :: ps))) as body eqn:Hb.
  rewrite Hl. cbn [app]. rewrite skip_ws_cons by reflexivity.
  change (34 =? 125) with false. cbv iota.
  change (34 :: l ++ [125]) with ((34 :: l) ++ [125]). rewrite <- Hl.
  rewrite Hb. rewrite parse_members_flat; try assumption.
  - reflexivity.
  - rewrite <- Hb. cbn [length]. rewrite length_app. cbn [length] in *. lia.
Qed.

Lemma JSON_stringify_flat_inj (a b : list (jsstring * value)) :
  a <> [] -> b <> [] ->
  Forall (fun p => flat_value (snd p)) a ->
  Forall (fun p => flat_value (snd p)) b ->
  NoDup (map fst a) -> NoDup (map fst b) ->
  JSON.stringify (VObj a) = JSON.stringify (VObj b) -> a = b.
Proof.
  intros Ha Hb Fa Fb Na Nb E.
  pose proof (JSON_parse_stringify_flat a Ha Fa Na) as Pa.
  pose proof (JSON_parse_stringify_flat b Hb Fb Nb) as Pb.
  rewrite E in Pa. congruence.
Qed.

(** ** The fuel of [JSON.parse] never runs out *)

Lemma skip_ws_length (s : jsstring) : (length (JSON.skip_ws s) <= length s)%nat.
Proof.
  induction s as [|c r IH]; [reflexivity|].
  cbn [JSON.skip_ws]. destruct (JSON.is_ws c); cbn [length]; lia.
Qed.

Lemma cons_unit_some (c : N) (x : option (jsstring * jsstring))
      (k r : jsstring) :
  JSON.cons_unit c x = Some (k, r) -> exists k', x = Some (k', r).
Proof. destruct x as [[k' r']|]; cbn; intros H; [|discriminate].
  injection H as _ <-. eauto. Qed.

Lemma string_body_length (s k r : jsstring) :
  JSON.string_body s = Some (k, r) -> (length r < length s)%nat.
Proof.
  remember (length s) as n eqn:Hn.
  assert (Hle : (length s <= n)%nat) by lia. clear Hn.
  revert s k r Hle. induction n as [|n IH]; intros s k r Hle.
  - destruct s; [discriminate | cbn in Hle; lia].
  - destruct s as [|c s]; [discriminate|].
    cbn [length] in Hle. rewrite string_body_cons.
    destruct (c =? 34).
    { intros H. injection H as _ <-. cbn [length]. lia. }
    destruct (c =? 92).
    { destruct s as [|e s1]; [discriminate|].
      destruct (e =? 117).
      - destruct s1 as [|h1 [|h2 [|h3 [|h4 r2]]]]; try discriminate.
        destruct (JSON.hex4 h1 h2 h3 h4); [|discriminate].
        intros H. apply cons_unit_some in H as [k' H].
        apply IH in H; cbn [length] in *; lia.
      - destruct (JSON.simple_escape e); [|discriminate].
        intros H. apply cons_unit_some in H as [k' H].
        apply IH in H; cbn [length] in *; lia. }
    destruct (c <? 32); [discriminate|].
    intros H. apply cons_unit_some in H as [k' H].
    apply IH in H; cbn [length] in *; lia.
Qed.

Lemma take_digits_length (s ds r : jsstring) :
  JSON.take_digits s = (ds, r) -> (length ds + length r = length s)%nat.
Proof.
  revert ds r. induction s as [|c s IH]; intros ds r.
  - cbn. intros H. injection H as <- <-. reflexivity.
  - cbn [JSON.take_digits]. destruct (JSON.is_digit c).
    + destruct (JSON.take_digits s) as [ds' r'] eqn:E.
      intros H. injection H as <- <-. specialize (IH _ _ eq_refl).
      cbn [length]. lia.
    + intros H. injection H as <- <-. reflexivity.
Qed.

Lemma parse_number_length (s r : jsstring) (n : number) :
  JSON.parse_number s = Some (n, r) -> (length r < length s)%nat.
Proof.
  unfold JSON.parse_number.
  destruct (JSON.number_sign s) as [neg s1] eqn:Hs.
  assert (L1 : (length s1 <= length s)%nat).
  { unfold JSON.number_sign in Hs. destruct s as [|c r0].
    - injection Hs as _ <-. lia.
    - destruct (c =? 45); injection Hs as _ <-; cbn [length]; lia. }
  destruct (JSON.number_int s1) as [[ints s2]|] eqn:Hi; [|discriminate].
  assert (L2 : (length s2 < length s1)%nat).
  { unfold JSON.number_int in Hi. destruct s1 as [|c r0]; [discriminate|].
    destruct (c =? 48).
    - injection Hi as _ <-. cbn [length]. lia.
    - destruct (JSON.is_digit c) eqn:Hc; [|discriminate].
      injection Hi as Hi. cbn [JSON.take_digits] in Hi. rewrite Hc in Hi.
      destruct (JSON.take_digits r0) as [ds r'] eqn:E.
      injection Hi as _ <-. apply take_digits_length in E.
      cbn [length]. lia. }
  destruct (JSON.number_frac s2) as [[fracs s3]|] eqn:Hf; [|discriminate].
  assert (L3 : (length s3 <= length s2)%nat).
  { unfold JSON.number_frac in Hf. destruct s2 as [|c r0].
    - injection Hf as _ <-. lia.
    - destruct (c =? 46).
      + destruct (JSON.take_digits r0) as [ds r'] eqn:E.
        apply take_digits_length in E.
        destruct ds; [discriminate|]. injection Hf as _ <-.
        cbn [length] in *. lia.
      + injection Hf as _ <-. lia. }
  destruct (JSON.number_exp s3) as [[e s4]|] eqn:He; [|discriminate].
  assert (L4 : (length s4 <= length s3)%nat).
  { unfold JSON.number_exp in He. destruct s3 as [|c r0].
    - injection He as _ <-. lia.
    - destruct ((c =? 101) || (c =? 69)).
      + destruct (match r0 with
                  | [] => (false, [])
                  | d :: r' =>
                      if d =? 43 then (false, r')
                      else if d =? 45 then (true, r') else (false, r0)
                  end) as [ng r1] eqn:Hr.
        assert (L : (length r1 <= length r0)%nat).
        { destruct r0 as [|d r']; [injection Hr as _ <-; lia|].
          destruct (d =? 43); [injection Hr as _ <-; cbn [length]; lia|].
          destruct (d =? 45); injection Hr as _ <-; cbn [length]; lia. }
        destruct (JSON.take_digits r1) as [es r2] eqn:E.
        apply take_digits_length in E.
        destruct es; [discriminate|]. injection He as _ <-.
        cbn [length] in *. lia.
      + injection He as _ <-. lia. }
  intros H. injection H as _ <-. lia.
Qed.

Lemma strip_prefix_length (p s r : jsstring) :
  JSON.strip_prefix p s = Some r -> (length r + length p = length s)%nat.
Proof.
  revert s r. induction p as [|a p IH]; intros s r.
  - cbn. intros H. injection H as <-. lia.
  - destruct s as [|b s]; [discriminate|]. cbn [JSON.strip_prefix].
    destruct (a =? b); [|discriminate].
    intros H. apply IH in H. cbn [length]. lia.
Qed.

Lemma keyword_length (word : string) (v v' : value) (s r : jsstring) :
  js word <> [] ->
  JSON.keyword word v s = Some (v', r) -> (length r < length s)%nat.
Proof.
  intros Hw. unfold JSON.keyword.
  destruct (JSON.strip_prefix (js word) s) as [rest|] eqn:E; [|discriminate].
  intros H. injection H as _ <-. apply strip_prefix_length in E.
  destruct (js word); [congruence|]. cbn [length] in E. lia.
Qed.

Lemma parse_elements_S (f : nat) (s : jsstring) (acc : list value) :
  JSON.parse_elements (S f) s acc =
  match JSON.parse_value f s with
  | Some (v, r1) =>
      match JSON.skip_ws r1 with
      | e :: r2 =>
          if e =? 44 then JSON.parse_elements f (JSON.skip_ws r2) (acc ++ [v])
          else if e =? 93 then Some (VArr (acc ++ [v]), r2)
          else None
      | [] => None
      end
  | None => None
  end.
Proof. reflexivity. Qed.

(** Parsing consumes input. *)
Lemma parse_consumes (fuel : nat) :
  (forall s v r, JSON.parse_value fuel s = Some (v, r) ->
                 (length r < length s)%nat)
  /\ (forall s acc v r, JSON.parse_members fuel s acc = Some (v, r) ->
                        (length r < length s)%nat)
  /\ (forall s acc v r, JSON.parse_elements fuel s acc = Some (v, r) ->
                        (length r < length s)%nat).
Proof.
  induction fuel as [|f [IHv [IHm IHe]]].
  - repeat split; intros; discriminate.
  - split; [|split].
    + intros s v r. destruct s as [|c s]; [discriminate|].
      rewrite parse_value_S.
      destruct (c =? 34).
      { destruct (JSON.string_body s) as [[k r1]|] eqn:E; [|discriminate].
        intros H. injection H as _ <-. apply string_body_length in E.
        cbn [length]. lia. }
      destruct (c =? 123).
      { pose proof (skip_ws_length s) as L.
        destruct (JSON.skip_ws s) as [|d r'] eqn:E; [discriminate|].
        destruct (d =? 125).
        - intros H. injection H as _ <-. cbn [length] in *. lia.
        - intros H. apply IHm in H. cbn [length] in *. lia. }
      destruct (c =? 91).
      { pose proof (skip_ws_length s) as L.
        destruct (JSON.skip_ws s) as [|d r'] eqn:E; [discriminate|].
        destruct (d =? 93).
        - intros H. injection H as _ <-. cbn [length] in *. lia.
        - intros H. apply IHe in H. cbn [length] in *. lia. }
      destruct (c =? 116); [apply keyword_length; discriminate|].
      destruct (c =? 102); [apply keyword_length; discriminate|].
      destruct (c =? 110); [apply keyword_length; discriminate|].
      destruct (JSON.parse_number (c :: s)) as [[n r1]|] eqn:E; [|discriminate].
      intros H. injection H as _ <-. now apply parse_number_length in E.
    + intros s acc v r. destruct s as [|c s]; [discriminate|].
      rewrite parse_members_S.
      destruct (c =? 34); [|discriminate].
      destruct (JSON.string_body s) as [[k r1]|] eqn:E1; [|discriminate].
      apply string_body_length in E1.
      pose proof (skip_ws_length r1) as L1.
      destruct (JSON.skip_ws r1) as [|d r2]; [discriminate|].
      destruct (d =? 58); [|discriminate].
      pose proof (skip_ws_length r2) as L2.
      destruct (JSON.parse_value f (JSON.skip_ws r2)) as [[v' r3]|] eqn:E2;
        [|discriminate].
      apply IHv in E2.
      pose proof (skip_ws_length r3) as L3.
      destruct (JSON.skip_ws r3) as [|e r4]; [discriminate|].
      pose proof (skip_ws_length r4) as L4.
      destruct (e =? 44).
      * intros H. apply IHm in H. cbn [length] in *. lia.
      * destruct (e =? 125); [|discriminate].
        intros H. injection H as _ <-. cbn [length] in *. lia.
    + intros s acc v r. rewrite parse_elements_S.
      destruct (JSON.parse_value f s) as [[v' r1]|] eqn:E1; [|discriminate].
      apply IHv in E1.
      pose proof (skip_ws_length r1) as L1.
      destruct (JSON.skip_ws r1) as [|e r2]; [discriminate|].
      pose proof (skip_ws_length r2) as L2.
      destruct (e =? 44).
      * intros H. apply IHe in H. cbn [length] in *. lia.
      * destruct (e =? 93); [|discriminate].
        intros H. injection H as _ <-. cbn [length] in *. lia.
Qed.

(** Above twice the length of the input the result does not depend on
    the fuel. *)
Lemma parse_fuel (f1 : nat) :
  (forall s f2, (2 * length s < f1)%nat -> (2 * length s < f2)%nat ->
                JSON.parse_value f1 s = JSON.parse_value f2 s)
  /\ (forall s acc f2,
        (2 * length s + 1 < f1)%nat -> (2 * length s + 1 < f2)%nat ->
        JSON.parse_members f1 s acc = JSON.parse_members f2 s acc)
  /\ (forall s acc f2,
        (2 * length s + 1 < f1)%nat -> (2 * length s + 1 < f2)%nat ->
        JSON.parse_elements f1 s acc = JSON.parse_elements f2 s acc).
Proof.
  induction f1 as [|f [IHv [IHm IHe]]].
  - repeat split; intros; lia.
  - split; [|split].
    + intros s f2 H1 H2. destruct f2 as [|g]; [lia|].
      destruct s as [|c s]; [reflexivity|].
      rewrite !parse_value_S. cbn [length] in H1, H2.
      destruct (c =? 34); [reflexivity|].
      destruct (c =? 123).
      { pose proof (skip_ws_length s) as L.
        destruct (JSON.skip_ws s) as [|d r']; [reflexivity|].
        destruct (d =? 125); [reflexivity|].
        apply IHm; cbn [length] in *; lia. }
      destruct (c =? 91).
      { pose proof (skip_ws_length s) as L.
        destruct (JSON.skip_ws s) as [|d r']; [reflexivity|].
        destruct (d =? 93); [reflexivity|].
        apply IHe; cbn [length] in *; lia. }
      reflexivity.
    + intros s acc f2 H1 H2. destruct f2 as [|g]; [lia|].
      destruct s as [|c s]; [reflexivity|].
      rewrite !parse_members_S. cbn [length] in H1, H2.
      destruct (c =? 34); [|reflexivity].
      destruct (JSON.string_body s) as [[k r1]|] eqn:E1; [|reflexivity].
      apply string_body_length in E1.
      pose proof (skip_ws_length r1) as L1.
      destruct (JSON.skip_ws r1) as [|d r2]; [reflexivity|].
      destruct (d =? 58); [|reflexivity].
      pose proof (skip_ws_length r2) as L2.
      rewrite (IHv (JSON.skip_ws r2) g) by (cbn [length] in *; lia).
      destruct (JSON.parse_value g (JSON.skip_ws r2)) as [[v' r3]|] eqn:E2;
        [|reflexivity].
      apply (proj1 (parse_consumes g)) in E2.
      pose proof (skip_ws_length r3) as L3.
      destruct (JSON.skip_ws r3) as [|e r4]; [reflexivity|].
      pose proof (skip_ws_length r4) as L4.
      destruct (e =? 44); [|reflexivity].
      apply IHm; cbn [length] in *; lia.
    + intros s acc f2 H1 H2. destruct f2 as [|g]; [lia|].
      rewrite !parse_elements_S.
      rewrite (IHv s g) by lia.
      destruct (JSON.parse_value g s) as [[v' r1]|] eqn:E1; [|reflexivity].
      apply (proj1 (parse_consumes g)) in E1.
      pose proof (skip_ws_length r1) as L1.
      destruct (JSON.skip_ws r1) as [|e r2]; [reflexivity|].
      pose proof (skip_ws_length r2) as L2.
      destruct (e =? 44); [|reflexivity].
      apply IHe; cbn [length] in *; lia.
Qed.

(** [JSON.parse] with any larger fuel gives the same answer. *)
Lemma JSON_parse_fuel (text : jsstring) (extra : nat) :
  JSON.parse_value (S (2 * length text) + extra) (JSON.skip_ws text)
  = JSON.parse_value (S (2 * length text)) (JSON.skip_ws text).
Proof.
  pose proof (skip_ws_length text) as L.
  apply (proj1 (parse_fuel _)); lia.
Qed.

(** ** The stand-in primitives meet the contract *)

Lemma fit_length (n : nat) (l : bytes) : length (Stub.fit n l) = n.
Proof.
  unfold Stub.fit. rewrite length_firstn, length_app, repeat_length. lia.
Qed.

Lemma firstn_fit (n m : nat) (l : bytes) :
  length l = n -> (n <= m)%nat -> firstn n (Stub.fit m l) = l.
Proof.
  intros Hl Hnm. unfold Stub.fit. rewrite firstn_firstn.
  replace (Nat.min n m) with n by lia.
  rewrite firstn_app. replace (n - length l)%nat with 0%nat by lia.
  cbn [firstn]. rewrite app_nil_r. apply firstn_all2. lia.
Qed.

Lemma mix_length (a b : bytes) :
  length (Stub.mix a b) = Nat.min (length a) (length b).
Proof. unfold Stub.mix. now rewrite length_map, length_combine. Qed.

Lemma key_sizes_le (k : Kem) : (public_key_size k <= private_key_size k)%nat.
Proof.
  destruct k; unfold public_key_size, private_key_size,
    ML_KEM_1024_PUBLIC_KEY_SIZE, ML_KEM_1024_PRIVATE_KEY_SIZE,
    ML_KEM_768_PUBLIC_KEY_SIZE, ML_KEM_768_PRIVATE_KEY_SIZE; lia.
Qed.

Lemma ciphertext_size_pos (k : Kem) : (0 < Stub.ciphertext_size k)%nat.
Proof. destruct k; unfold Stub.ciphertext_size; lia. Qed.

Lemma nonempty_of_length {A} (l : list A) : (0 < length l)%nat -> l <> [].
Proof. destruct l; cbn; [lia | discriminate]. Qed.

Lemma Stub_contract (binding : bool) : Section6 (Stub.primitives binding).
Proof.
  constructor; cbn [Stub.primitives kem_generateKeyPair kem_encap kem_decap
                    subtle_deriveBits chacha20poly1305_encrypt
                    chacha20poly1305_decrypt].
  - intros k seed pk sk H. unfold Stub.keygen in H. injection H as <- <-.
    now rewrite !fit_length.
  - intros k seed pk sk r H. unfold Stub.keygen in H. injection H as <- <-.
    set (pk := Stub.fit (public_key_size k) (x01 :: seed)).
    assert (Hpk : length pk = public_key_size k) by apply fit_length.
    exists (Stub.fit (Stub.ciphertext_size k) (x02 :: r)).
    exists (Stub.secret binding pk (Stub.fit (Stub.ciphertext_size k) (x02 :: r))).
    unfold Stub.encap, Stub.decap.
    rewrite Hpk, !fit_length, !Nat.eqb_refl. cbn [andb].
    rewrite firstn_fit by (auto using key_sizes_le).
    repeat split.
    apply nonempty_of_length. rewrite fit_length. apply ciphertext_size_pos.
  - intros ikm salt info. unfold Stub.deriveBits.
    change (N.to_nat (256 / 8)) with 32%nat.
    eexists. split; [reflexivity|].
    destruct binding; [rewrite mix_length|]; rewrite ?fit_length; reflexivity.
  - intros key nonce pt Hk Hn. unfold Stub.seal, Stub.open.
    rewrite Hk, Hn. cbn [Nat.eqb andb].
    change ((32 =? 32)%nat) with true. change ((12 =? 12)%nat) with true.
    cbn [andb].
    set (t := Stub.tag binding key nonce [] pt).
    assert (Ht : length t = 16%nat) by apply fit_length.
    exists (pt ++ t). split; [reflexivity|]. split.
    + apply nonempty_of_length. rewrite length_app. lia.
    + rewrite length_app, Ht.
      replace (length pt + 16 - 16)%nat with (length pt) by lia.
      rewrite skipn_app, skipn_all, Nat.sub_diag. cbn [skipn app].
      rewrite firstn_app, firstn_all, Nat.sub_diag. cbn [firstn].
      rewrite app_nil_r. fold t. rewrite bytes_eqb_refl.
      replace (16 <=? length pt + 16)%nat with true
        by (symmetry; apply Nat.leb_le; lia).
      reflexivity.
Qed.

(** ** Running the protocol *)

Lemma Ok_inj {A} (a b : A) : Ok a = Ok b -> a = b.
Proof. intros H. now injection H. Qed.

Lemma truthy_string (s : jsstring) : s <> [] -> truthy (VStr s) = true.
Proof. intros H. cbn. now rewrite jsstring_eqb_neq. Qed.

Lemma message_guard (message : jsstring) :
  negb (truthy (VStr message)) && negb (jsstring_eqb message []) = false.
Proof. cbn. now destruct (jsstring_eqb message []). Qed.

Ltac run_monad :=
  cbv beta iota delta
    [try_catch bind when ret throw await const_sharedSecret const_chachaKey
     secureClear_chachaKey secureClear_sharedSecret Date_now
     SecureRandom.getRandomBytes SecureRandom.generateSalt
     SecureRandom.generateNonce rbind or_else and_then lacks
     option_map outcome world_after frame_after empty_frame];
  cbn [fst snd sharedSecret chachaKey entropy cursor now negb orb andb].

(** [encrypt] for a public key string that passes the format check,
    stage by stage. *)
Lemma encrypt_stages (P : Primitives) (message pk : jsstring)
      (algorithm : value) (w : World) :
  BASE64_RE_test pk = true ->
  let alg := default_parameter algorithm (js "ML-KEM-1024") in
  encrypt P message (VStr pk) algorithm w empty_frame =
  match kem_encap P (select_kem alg) (Base64.decode pk) (seed_of w) with
  | Throw e =>
      (Throw (js "Encryption failed: " ++ e), advance w 32, empty_frame)
  | Ok (ct, ss) =>
      match HKDF.derive P ss (salt_of w) (js "ChaCha20-Poly1305") 32 with
      | Throw e =>
          (Throw (js "Encryption failed: " ++ e), advance w (32 + 32),
           {| sharedSecret := Some ss; chachaKey := None |})
      | Ok key =>
          match ChaCha20Poly1305.encrypt P key (nonce_of w)
                                         (TextEncoder.encode message) with
          | Throw e =>
              (Throw (js "Encryption failed: " ++ e), advance w (32 + 32 + 12),
               {| sharedSecret := Some ss; chachaKey := Some key |})
          | Ok c =>
              (Ok (JSON.stringify
                     (envelope alg (Base64.encode ct)
                        (Base64.encode (salt_of w))
                        (Base64.encode (nonce_of w))
                        (Base64.encode c) (now w))),
               advance w (32 + 32 + 12), zeroed ss key)
          end
      end
  end.
Proof.
  intros Hre alg.
  assert (Hne : pk <> []) by (intros ->; discriminate).
  unfold encrypt, is_string, zeroed, advance, seed_of, salt_of, nonce_of.
  fold alg. cbn [ToString typeof].
  rewrite message_guard, truthy_string, jsstring_eqb_refl, Hre by assumption.
  run_monad.
  destruct (kem_encap P _ _ _) as [[ct ss]|e]; [|reflexivity].
  run_monad.
  destruct (HKDF.derive P ss _ _ _) as [key|e];
    [|rewrite !Nat.add_assoc; reflexivity].
  run_monad.
  destruct (ChaCha20Poly1305.encrypt P key _ _) as [c|e];
    rewrite !Nat.add_assoc; reflexivity.
Qed.

(** [decrypt] on a text that parses to a record with the six required
    fields as non-empty strings, stage by stage. *)
Lemma decrypt_stages (P : Primitives) (text sk : jsstring)
      (algorithm d v alg : value) (kem s n c : jsstring) :
  text <> [] -> sk <> [] ->
  JSON.parse text = Some d ->
  get d "v" = Ok v -> truthy v = true ->
  get d "alg" = Ok alg -> truthy alg = true ->
  get d "kem" = Ok (VStr kem) -> kem <> [] ->
  get d "s" = Ok (VStr s) -> s <> [] ->
  get d "n" = Ok (VStr n) -> n <> [] ->
  get d "c" = Ok (VStr c) -> c <> [] ->
  decrypt P (VStr text) (VStr sk) algorithm tt empty_frame =
  match kem_decap P
          (select_kem
             (js_or (match algorithm with VUndefined => VNull | a => a end) alg))
          (Base64.decode kem) (Base64.decode sk) with
  | Throw e => (Throw (js "Decryption failed: " ++ e), tt, empty_frame)
  | Ok ss =>
      match HKDF.derive P ss (Base64.decode s) (js "ChaCha20-Poly1305") 32 with
      | Throw e =>
          (Throw (js "Decryption failed: " ++ e), tt,
           {| sharedSecret := Some ss; chachaKey := None |})
      | Ok key =>
          match ChaCha20Poly1305.decrypt P key (Base64.decode n)
                                         (Base64.decode c) with
          | Throw e =>
              (Throw (js "Decryption failed: " ++ e), tt,
               {| sharedSecret := Some ss; chachaKey := Some key |})
          | Ok plaintext => (Ok (TextDecoder.decode plaintext), tt, zeroed ss key)
          end
      end
  end.
Proof.
  intros Ht Hsk Hp Hv Tv Halg Talg Hkem Tkem Hs Ts Hn Tn Hc Tc.
  unfold decrypt, JSON_parse, is_string, zeroed.
  cbn [ToString typeof Base64_decode].
  rewrite !truthy_string by assumption.
  rewrite jsstring_eqb_refl, Hp.
  run_monad.
  rewrite Hv, Halg, Hkem, Hs, Hn, Hc. run_monad.
  rewrite Tv, Talg, !truthy_string by assumption.
  run_monad. cbn [Base64_decode].
  destruct (kem_decap P _ _ _) as [ss|e]; [|reflexivity].
  destruct (HKDF.derive P ss _ _ _) as [key|e]; [|reflexivity].
  destruct (ChaCha20Poly1305.decrypt P key _ _) as [pt|e]; reflexivity.
Qed.

(** The envelope [encrypt] writes is read back by [JSON.parse]. *)
Lemma envelope_parse (alg kem s n c : jsstring) (t : N) :
  t < 2 ^ 53 ->
  JSON.parse (JSON.stringify (envelope (VStr alg) kem s n c t))
  = Some (envelope (VStr alg) kem s n c t).
Proof.
  intros Ht. unfold envelope. apply JSON_parse_stringify_flat.
  - discriminate.
  - repeat (apply Forall_cons;
            [cbn [snd]; unfold flat_value;
             first [ left; eexists; reflexivity
                   | right; eexists; split;
                     [|reflexivity]; first [exact Ht | reflexivity] ]|]).
    apply Forall_nil.
  - cbn [map fst].
    repeat (constructor; [cbn [In]; intros H; repeat destruct H as [H|H];
                          try discriminate; exact H|]).
    constructor.
Qed.

Lemma stringify_nonempty (props : list (jsstring * value)) :
  JSON.stringify (VObj props) <> [].
Proof. cbn [JSON.stringify]. discriminate. Qed.

Lemma supported_cases (S : jsstring) :
  In S SUPPORTED_ALGORITHMS -> S = js "ML-KEM-1024" \/ S = js "ML-KEM-768".
Proof. cbn [SUPPORTED_ALGORITHMS In]. intuition. Qed.

(** What [generateKeyPair] returns for a supported algorithm. *)
Lemma generateKeyPair_supported (P : Primitives) (S : jsstring) (w : World)
      (keyPair : value) :
  In S SUPPORTED_ALGORITHMS ->
  outcome (generateKeyPair P (VStr S) w empty_frame) = Ok keyPair ->
  exists pk sk,
    kem_generateKeyPair P (select_kem (VStr S))
                        (map (entropy w) (seq (cursor w) 64)) = Ok (pk, sk)
    /\ keyPair = VObj [(js "publicKey", VStr (Base64.encode pk));
                       (js "privateKey", VStr (Base64.encode sk));
                       (js "algorithm", VStr S)].
Proof.
  intros HS. apply supported_cases in HS.
  destruct HS as [-> | ->]; unfold generateKeyPair;
    cbn [default_parameter];
    match goal with
    | |- context [includes ?l ?v] =>
        replace (includes l v) with true by reflexivity
    end;
    match goal with
    | |- context [if strict_equals_string ?v ?l then MlKem1024 else MlKem768] =>
        replace (if strict_equals_string v l then MlKem1024 else MlKem768)
          with (select_kem v) by reflexivity
    end;
    run_monad;
    match goal with
    | |- context [kem_generateKeyPair P ?k ?seed] =>
        destruct (kem_generateKeyPair P k seed) as [[pk sk]|e] eqn:E
    end; cbn [fst snd]; intros H; try discriminate;
    injection H as <-; exists pk, sk; split; reflexivity.
Qed.

Lemma field_publicKey (a b c : value) :
  field (VObj [(js "publicKey", a); (js "privateKey", b); (js "algorithm", c)])
        "publicKey" = a.
Proof. reflexivity. Qed.

Lemma field_privateKey (a b c : value) :
  field (VObj [(js "publicKey", a); (js "privateKey", b); (js "algorithm", c)])
        "privateKey" = b.
Proof. reflexivity. Qed.

Lemma key_size_pos (k : Kem) :
  (0 < public_key_size k)%nat /\ (0 < private_key_size k)%nat.
Proof.
  destruct k; unfold public_key_size, private_key_size,
    ML_KEM_1024_PUBLIC_KEY_SIZE, ML_KEM_1024_PRIVATE_KEY_SIZE,
    ML_KEM_768_PUBLIC_KEY_SIZE, ML_KEM_768_PRIVATE_KEY_SIZE; lia.
Qed.

Lemma salt_of_length (w : World) : length (salt_of w) = 32%nat.
Proof. unfold salt_of. now rewrite length_map, length_seq. Qed.

Lemma nonce_of_length (w : World) : length (nonce_of w) = 12%nat.
Proof. unfold nonce_of. now rewrite length_map, length_seq. Qed.

Section Contract.

Variable P : Primitives.
Hypothesis contract : Section6 P.

Lemma HKDF_total (ikm salt : bytes) (info : jsstring) :
  exists key, HKDF.derive P ikm salt info 32 = Ok key /\ length key = 32%nat.
Proof.
  unfold HKDF.derive. change (32 * 8) with 256.
  apply (kdf_total P contract).
Qed.

(** Under the contract, [encrypt] to a generated public key succeeds, and
    [decrypt] with the private key reaches the AEAD with the key and the
    nonce of the encryption. *)
Lemma encrypt_generated
      (k : Kem) (seed pk sk : bytes) (algorithm : jsstring)
      (message : jsstring) (w : World) :
  kem_generateKeyPair P k seed = Ok (pk, sk) ->
  select_kem (VStr algorithm) = k ->
  exists ct ss key c,
    kem_encap P k pk (seed_of w) = Ok (ct, ss) /\ ct <> []
    /\ kem_decap P k ct sk = Ok ss
    /\ HKDF.derive P ss (salt_of w) (js "ChaCha20-Poly1305") 32 = Ok key
    /\ length key = 32%nat
    /\ chacha20poly1305_encrypt P key (nonce_of w) []
         (TextEncoder.encode message) = Ok c
    /\ c <> []
    /\ chacha20poly1305_decrypt P key (nonce_of w) [] c
       = Ok (TextEncoder.encode message)
    /\ encrypt P message (VStr (Base64.encode pk)) (VStr algorithm) w empty_frame
       = (Ok (JSON.stringify
                (envelope (VStr algorithm) (Base64.encode ct)
                   (Base64.encode (salt_of w)) (Base64.encode (nonce_of w))
                   (Base64.encode c) (now w))),
          advance w (32 + 32 + 12), zeroed ss key).
Proof.
  intros Hgen Hk.
  destruct (kem_sizes P contract _ _ _ _ Hgen) as [Hpk Hsk].
  destruct (kem_correct P contract _ _ _ _ (seed_of w) Hgen)
    as [ct [ss [He [Hct Hd]]]].
  destruct (HKDF_total ss (salt_of w) (js "ChaCha20-Poly1305"))
    as [key [Hkey Hlen]].
  destruct (aead_correct P contract key (nonce_of w) (TextEncoder.encode message)
              Hlen (nonce_of_length w)) as [c [Hseal [Hc Hopen]]].
  exists ct, ss, key, c. repeat (split; [assumption|]).
  assert (Hne : pk <> []).
  { apply nonempty_of_length. rewrite Hpk. apply key_size_pos. }
  rewrite encrypt_stages by (now apply Base64_encode_test).
  cbn [default_parameter]. rewrite Hk, Base64_decode_encode, He, Hkey.
  unfold ChaCha20Poly1305.encrypt. now rewrite Hseal.
Qed.

End Contract.

(** [decrypt] of an envelope with string fields, up to the AEAD; the
    [c] field is any non-empty text. *)
Lemma decrypt_envelope_text (P : Primitives) (alg : jsstring) (override : value)
      (ct salt nonce : bytes) (c : jsstring) (sk ss key : bytes) (t : N) :
  t < 2 ^ 53 ->
  alg <> [] -> ct <> [] -> salt <> [] -> nonce <> [] -> c <> [] -> sk <> [] ->
  select_kem (js_or (match override with VUndefined => VNull | a => a end)
                    (VStr alg)) = select_kem (VStr alg) ->
  kem_decap P (select_kem (VStr alg)) ct sk = Ok ss ->
  HKDF.derive P ss salt (js "ChaCha20-Poly1305") 32 = Ok key ->
  decrypt P
    (VStr (JSON.stringify
             (envelope (VStr alg) (Base64.encode ct) (Base64.encode salt)
                (Base64.encode nonce) c t)))
    (VStr (Base64.encode sk)) override tt empty_frame =
  match chacha20poly1305_decrypt P key nonce [] (Base64.decode c) with
  | Ok plaintext => (Ok (TextDecoder.decode plaintext), tt, zeroed ss key)
  | Throw e =>
      (Throw (js "Decryption failed: ChaCha20-Poly1305 decryption failed: "
                ++ e),
       tt, {| sharedSecret := Some ss; chachaKey := Some key |})
  end.
Proof.
  intros Ht Halg Hct Hsalt Hnonce Hc Hsk Hsel Hdecap Hkey.
  rewrite (decrypt_stages P _ _ override
             (envelope (VStr alg) (Base64.encode ct) (Base64.encode salt)
                (Base64.encode nonce) c t)
             (VNum (integer 3)) (VStr alg)
             (Base64.encode ct) (Base64.encode salt) (Base64.encode nonce) c);
    try reflexivity;
    try assumption;
    try (now apply Base64_encode_nonempty);
    try (now apply truthy_string);
    try (now apply envelope_parse);
    try apply stringify_nonempty.
  rewrite Hsel, !Base64_decode_encode, Hdecap, Hkey.
  unfold ChaCha20Poly1305.decrypt.
  destruct (chacha20poly1305_decrypt P key nonce [] (Base64.decode c))
    as [pt|e]; reflexivity.
Qed.

(** The same when [c] carries the Base64 of a ciphertext. *)
Lemma decrypt_envelope (P : Primitives) (alg : jsstring) (override : value)
      (ct salt nonce c sk ss key : bytes) (t : N) :
  t < 2 ^ 53 ->
  alg <> [] -> ct <> [] -> salt <> [] -> nonce <> [] -> c <> [] -> sk <> [] ->
  select_kem (js_or (match override with VUndefined => VNull | a => a end)
                    (VStr alg)) = select_kem (VStr alg) ->
  kem_decap P (select_kem (VStr alg)) ct sk = Ok ss ->
  HKDF.derive P ss salt (js "ChaCha20-Poly1305") 32 = Ok key ->
  decrypt P
    (VStr (JSON.stringify
             (envelope (VStr alg) (Base64.encode ct) (Base64.encode salt)
                (Base64.encode nonce) (Base64.encode c) t)))
    (VStr (Base64.encode sk)) override tt empty_frame =
  match chacha20poly1305_decrypt P key nonce [] c with
  | Ok plaintext => (Ok (TextDecoder.decode plaintext), tt, zeroed ss key)
  | Throw e =>
      (Throw (js "Decryption failed: ChaCha20-Poly1305 decryption failed: "
                ++ e),
       tt, {| sharedSecret := Some ss; chachaKey := Some key |})
  end.
Proof.
  intros Ht Halg Hct Hsalt Hnonce Hc Hsk Hsel Hdecap Hkey.
  rewrite (decrypt_envelope_text P alg override ct salt nonce
             (Base64.encode c) sk ss key t);
    try assumption.
  - now rewrite Base64_decode_encode.
  - now apply Base64_encode_nonempty.
Qed.

Lemma select_kem_override (S : jsstring) (override : value) :
  S <> [] ->
  override = VStr S \/ override = VNull \/ override = VUndefined ->
  select_kem (js_or (match override with VUndefined => VNull | a => a end)
                    (VStr S)) = select_kem (VStr S).
Proof.
  intros HS [-> | [-> | ->]]; unfold js_or; [|reflexivity ..].
  now rewrite truthy_string.
Qed.

Lemma supported_nonempty (S : jsstring) :
  In S SUPPORTED_ALGORITHMS -> S <> [].
Proof. intros H. apply supported_cases in H. destruct H; subst; discriminate. Qed.

(** C1 (as amended).  For both suites, every generated key pair and every
    message that is a well-formed string not starting with U+FEFF,
    decrypting what [encrypt] returned gives the message back, with the
    suite passed to [decrypt] or left out. *)
Theorem round_trip_well_formed
        (P : Primitives) (S : jsstring) (w0 w : World)
        (keyPair override : value) (message : jsstring) :
  Section6 P ->
  In S SUPPORTED_ALGORITHMS ->
  outcome (generateKeyPair P (VStr S) w0 empty_frame) = Ok keyPair ->
  override = VStr S \/ override = VNull \/ override = VUndefined ->
  well_formed message = true ->
  starts_with_bom message = false ->
  round_trip P keyPair (VStr S) override w message = Ok message.
Proof.
  intros HP HS Hgen Hov Hwf Hbom.
  destruct (generateKeyPair_supported P S w0 keyPair HS Hgen)
    as [pk [sk [Hkem ->]]].
  destruct (kem_sizes P HP _ _ _ _ Hkem) as [Hpk Hsk].
  destruct (encrypt_generated P HP _ _ pk sk S message w Hkem eq_refl)
    as [ct [ss [key [c [He [Hct [Hd [Hkey [Hlen [Hseal [Hc [Hopen Henc]]]]]]]]]]]].
  unfold round_trip.
  rewrite field_publicKey, field_privateKey.
  rewrite Henc. cbn [outcome fst].
  rewrite (decrypt_envelope P S override ct (salt_of w) (nonce_of w) c sk ss key);
    try assumption.
  - rewrite Hopen. cbn [outcome fst]. f_equal.
    now apply TextDecoder_decode_encode.
  - apply now_safe.
  - now apply supported_nonempty.
  - apply nonempty_of_length. rewrite salt_of_length. lia.
  - apply nonempty_of_length. rewrite nonce_of_length. lia.
  - apply nonempty_of_length. rewrite Hsk. apply key_size_pos.
  - apply select_kem_override; [now apply supported_nonempty | assumption].
Qed.

Lemma round_trip_well_formed_witness :
  Section6 Stub.bound
  /\ In (js "ML-KEM-768") SUPPORTED_ALGORITHMS
  /\ outcome (generateKeyPair Stub.bound (VStr (js "ML-KEM-768"))
                              (Stub.world 0) empty_frame)
     = Ok (Stub.keyPair Stub.bound "ML-KEM-768")
  /\ round_trip Stub.bound (Stub.keyPair Stub.bound "ML-KEM-768")
                (VStr (js "ML-KEM-768")) VNull (Stub.world 7)
                (js "Hello, quantum-resistant world!")
     = Ok (js "Hello, quantum-resistant world!").
Proof.
  assert (H1 : Section6 Stub.bound) by apply Stub_contract.
  assert (H2 : In (js "ML-KEM-768") SUPPORTED_ALGORITHMS)
    by (right; left; reflexivity).
  assert (H3 : outcome (generateKeyPair Stub.bound (VStr (js "ML-KEM-768"))
                                        (Stub.world 0) empty_frame)
               = Ok (Stub.keyPair Stub.bound "ML-KEM-768"))
    by (vm_compute; reflexivity).
  split; [exact H1|]. split; [exact H2|]. split; [exact H3|].
  apply (round_trip_well_formed Stub.bound (js "ML-KEM-768") (Stub.world 0)
           (Stub.world 7) _ VNull _ H1 H2 H3);
    [right; left; reflexivity | reflexivity | reflexivity].
Defined.

(** C1 as stated fails: a lone surrogate cannot be carried by UTF-8, so
    the message [\uD800] comes back as U+FFFD. *)
Lemma round_trip_lone_surrogate :
  Section6 Stub.bound
  /\ outcome (generateKeyPair Stub.bound (VStr (js "ML-KEM-1024"))
                              (Stub.world 0) empty_frame)
     = Ok (Stub.keyPair Stub.bound "ML-KEM-1024")
  /\ round_trip Stub.bound (Stub.keyPair Stub.bound "ML-KEM-1024")
                (VStr (js "ML-KEM-1024")) (VStr (js "ML-KEM-1024"))
                (Stub.world 7) [0xD800]
     = Ok [0xFFFD]
  /\ round_trip Stub.bound (Stub.keyPair Stub.bound "ML-KEM-1024")
                (VStr (js "ML-KEM-1024")) (VStr (js "ML-KEM-1024"))
                (Stub.world 7) [0xD800]
     <> Ok [0xD800].
Proof.
  split; [apply Stub_contract|].
  split; [vm_compute; reflexivity|].
  split; [vm_compute; reflexivity|].
  vm_compute. discriminate.
Qed.

(** A leading byte order mark is dropped by [new TextDecoder()]. *)
Lemma round_trip_byte_order_mark :
  round_trip Stub.bound (Stub.keyPair Stub.bound "ML-KEM-1024")
             (VStr (js "ML-KEM-1024")) (VStr (js "ML-KEM-1024"))
             (Stub.world 7) (0xFEFF :: js "abc")
  = Ok (js "abc").
Proof. vm_compute. reflexivity. Qed.

Lemma get_field (d : value) (key : string) :
  d <> VNull -> d <> VUndefined -> get d key = Ok (field d key).
Proof. intros H1 H2. unfold field. destruct d; try congruence; reflexivity. Qed.

Lemma get_throws (d : value) (key : string) (e : jsstring) :
  get d key = Throw e -> d = VNull \/ d = VUndefined.
Proof. destruct d; cbn; intros H; try discriminate; auto. Qed.

Lemma get_ok_readable (d : value) (key : string) (v : value) :
  get d key = Ok v -> d <> VNull /\ d <> VUndefined.
Proof. destruct d; cbn; intros H; try discriminate; split; discriminate. Qed.

(** [decrypt] on every input: the guards in their order, then the
    stages. *)
Lemma decrypt_cases (P : Primitives) (encryptedContent privateKey algorithm : value) :
  decrypt P encryptedContent privateKey algorithm tt empty_frame =
  if negb (truthy encryptedContent) || negb (is_string encryptedContent)
  then decryption_failed (js "Invalid encrypted content")
  else if negb (truthy privateKey) || negb (is_string privateKey)
  then decryption_failed (js "Invalid private key")
  else
    match JSON.parse (ToString encryptedContent) with
    | None => decryption_failed (js "Invalid encrypted message format")
    | Some messageData =>
        match get messageData "v" with
        | Throw e => decryption_failed e
        | Ok _ =>
            if has_required_fields messageData
            then open_envelope P messageData (ToString privateKey)
                   (select_kem (js_or (override_of algorithm)
                                      (field messageData "alg")))
            else decryption_failed
                   (js "Missing required fields in encrypted message")
        end
    end.
Proof.
  unfold decrypt, decryption_failed, open_envelope, override_of, JSON_parse.
  destruct (negb (truthy encryptedContent) || negb (is_string encryptedContent));
    [reflexivity|].
  destruct (negb (truthy privateKey) || negb (is_string privateKey));
    [reflexivity|].
  destruct (JSON.parse (ToString encryptedContent)) as [d|]; [|reflexivity].
  destruct (get d "v") as [v|e] eqn:Hv.
  - destruct (get_ok_readable d _ _ Hv) as [N1 N2].
    unfold has_required_fields, required_fields. cbn [forallb].
    run_monad.
    rewrite !(get_field d) in * by assumption. run_monad.
    destruct (truthy (field d "v")); [|reflexivity].
    destruct (truthy (field d "alg")); [|reflexivity].
    destruct (truthy (field d "kem")); [|reflexivity].
    destruct (truthy (field d "s")); [|reflexivity].
    destruct (truthy (field d "n")); [|reflexivity].
    destruct (truthy (field d "c")); reflexivity.
  - run_monad. rewrite Hv. reflexivity.
Qed.

(** [encrypt] on every input: the guards in their order, then the
    stages. *)
Lemma encrypt_cases (P : Primitives) (message : jsstring)
      (recipientPublicKey algorithm : value) (w : World) :
  encrypt P message recipientPublicKey algorithm w empty_frame =
  if negb (truthy recipientPublicKey) || negb (is_string recipientPublicKey)
  then (Throw (js "Encryption failed: Invalid recipient public key"),
        w, empty_frame)
  else if negb (BASE64_RE_test (ToString recipientPublicKey))
  then (Throw (js "Encryption failed: Public key must be valid Base64"),
        w, empty_frame)
  else
    let alg := default_parameter algorithm (js "ML-KEM-1024") in
    match kem_encap P (select_kem alg)
                    (Base64.decode (ToString recipientPublicKey))
                    (seed_of w) with
    | Throw e =>
        (Throw (js "Encryption failed: " ++ e), advance w 32, empty_frame)
    | Ok (ct, ss) =>
        match HKDF.derive P ss (salt_of w) (js "ChaCha20-Poly1305") 32 with
        | Throw e =>
            (Throw (js "Encryption failed: " ++ e), advance w (32 + 32),
             {| sharedSecret := Some ss; chachaKey := None |})
        | Ok key =>
            match ChaCha20Poly1305.encrypt P key (nonce_of w)
                                           (TextEncoder.encode message) with
            | Throw e =>
                (Throw (js "Encryption failed: " ++ e),
                 advance w (32 + 32 + 12),
                 {| sharedSecret := Some ss; chachaKey := Some key |})
            | Ok c =>
                (Ok (JSON.stringify
                       (envelope alg (Base64.encode ct)
                          (Base64.encode (salt_of w))
                          (Base64.encode (nonce_of w))
                          (Base64.encode c) (now w))),
                 advance w (32 + 32 + 12), zeroed ss key)
            end
        end
    end.
Proof.
  destruct (negb (truthy recipientPublicKey) || negb (is_string recipientPublicKey))
    eqn:Hg.
  - unfold encrypt. rewrite message_guard, Hg. reflexivity.
  - apply orb_false_iff in Hg as [Ht Hs]. apply negb_false_iff in Ht, Hs.
    destruct recipientPublicKey as [| | | |pk| |]; try discriminate.
    cbn [ToString].
    destruct (BASE64_RE_test pk) eqn:Hre.
    + cbn [negb]. now apply encrypt_stages.
    + unfold encrypt. cbn [ToString].
      rewrite message_guard, Ht, Hs, Hre. reflexivity.
Qed.

(** What [encrypt] returned, when it returned. *)
Lemma encrypt_returned (P : Primitives) (message : jsstring)
      (recipientPublicKey algorithm : value) (w : World) (text : jsstring) :
  outcome (encrypt P message recipientPublicKey algorithm w empty_frame) = Ok text ->
  exists ct ss key c,
    kem_encap P (select_kem (default_parameter algorithm (js "ML-KEM-1024")))
              (Base64.decode (ToString recipientPublicKey)) (seed_of w)
    = Ok (ct, ss)
    /\ HKDF.derive P ss (salt_of w) (js "ChaCha20-Poly1305") 32 = Ok key
    /\ ChaCha20Poly1305.encrypt P key (nonce_of w) (TextEncoder.encode message)
       = Ok c
    /\ text = JSON.stringify
                (envelope (default_parameter algorithm (js "ML-KEM-1024"))
                   (Base64.encode ct) (Base64.encode (salt_of w))
                   (Base64.encode (nonce_of w)) (Base64.encode c) (now w)).
Proof.
  rewrite encrypt_cases.
  destruct (negb (truthy recipientPublicKey) || negb (is_string recipientPublicKey));
    [discriminate|].
  destruct (negb (BASE64_RE_test (ToString recipientPublicKey)));
    [discriminate|].
  cbv zeta.
  destruct (kem_encap P _ _ _) as [[ct ss]|e] eqn:E1; [|discriminate].
  destruct (HKDF.derive P ss _ _ _) as [key|e] eqn:E2; [|discriminate].
  destruct (ChaCha20Poly1305.encrypt P key _ _) as [c|e] eqn:E3; [|discriminate].
  cbn [outcome fst]. intros H. apply Ok_inj in H. subst text.
  exists ct, ss, key, c. repeat split; assumption.
Qed.

Lemma member_of_envelope (alg kem s n c : jsstring) (t : N) :
  t < 2 ^ 53 ->
  let text := JSON.stringify (envelope (VStr alg) kem s n c t) in
  member_of text "v" = VNum (integer 3)
  /\ member_of text "alg" = VStr alg
  /\ member_of text "kem" = VStr kem
  /\ member_of text "s" = VStr s
  /\ member_of text "n" = VStr n
  /\ member_of text "c" = VStr c
  /\ member_of text "t" = VNum (integer t).
Proof.
  intros Ht. cbv zeta. unfold member_of. rewrite envelope_parse by exact Ht.
  repeat split; reflexivity.
Qed.

Lemma set_member_c (alg kem s n c c' : jsstring) (t : N) :
  t < 2 ^ 53 ->
  set_member (JSON.stringify (envelope (VStr alg) kem s n c t)) "c" (VStr c')
  = JSON.stringify (envelope (VStr alg) kem s n c' t).
Proof.
  intros Ht. unfold set_member. rewrite envelope_parse by exact Ht.
  reflexivity.
Qed.

(** C2 (as amended).  Take an envelope produced by [encrypt] and replace
    its [c] field by any non-empty text.  [decrypt] hands the bytes that
    text decodes to to the AEAD, under the key and the nonce of the
    encryption: if the AEAD refuses them, [decrypt] throws the
    authentication failure; and [decrypt] returns only what the AEAD
    itself accepted and opened, never a plaintext of its own. *)
Theorem tampered_ciphertext_rejected
        (P : Primitives) (S : jsstring) (w0 w : World)
        (keyPair override : value) (message text : jsstring)
        (key : bytes) (changed : jsstring) :
  Section6 P ->
  In S SUPPORTED_ALGORITHMS ->
  outcome (generateKeyPair P (VStr S) w0 empty_frame) = Ok keyPair ->
  override = VStr S \/ override = VNull \/ override = VUndefined ->
  outcome (encrypt P message (field keyPair "publicKey") (VStr S)
                   w empty_frame) = Ok text ->
  encryption_key P (VStr S) (field keyPair "publicKey") w = Ok key ->
  changed <> [] ->
  let r :=
    outcome (decrypt P (VStr (set_member text "c" (VStr changed)))
               (field keyPair "privateKey") override tt empty_frame) in
  (forall e,
      chacha20poly1305_decrypt P key (nonce_of w) [] (Base64.decode changed)
      = Throw e ->
      r = Throw (js "Decryption failed: ChaCha20-Poly1305 decryption failed: "
                   ++ e))
  /\ (forall m,
        r = Ok m ->
        exists plaintext,
          chacha20poly1305_decrypt P key (nonce_of w) [] (Base64.decode changed)
          = Ok plaintext
          /\ m = TextDecoder.decode plaintext).
Proof.
  intros HP HS Hgen Hov Henc Hkey Hne.
  destruct (generateKeyPair_supported P S w0 keyPair HS Hgen)
    as [pk [sk [Hkem ->]]].
  destruct (kem_sizes P HP _ _ _ _ Hkem) as [Hpk Hsk].
  destruct (encrypt_generated P HP _ _ pk sk S message w Hkem eq_refl)
    as [ct [ss [key' [c [He [Hct [Hd [Hk' [Hlen [Hseal [Hc [Hopen Henc']]]]]]]]]]]].
  rewrite field_publicKey in Henc, Hkey. rewrite field_privateKey.
  rewrite Henc' in Henc. cbn [outcome fst] in Henc.
  apply Ok_inj in Henc. subst text.
  unfold encryption_key in Hkey. cbn [ToString] in Hkey.
  rewrite Base64_decode_encode, He in Hkey. cbn [rbind snd] in Hkey.
  rewrite Hk' in Hkey. apply Ok_inj in Hkey. subst key'.
  rewrite set_member_c by apply now_safe.
  rewrite (decrypt_envelope_text P S override ct (salt_of w) (nonce_of w)
             changed sk ss key);
    try assumption.
  - cbv zeta.
    destruct (chacha20poly1305_decrypt P key (nonce_of w) []
                (Base64.decode changed)) as [plaintext|e'].
    + split; [discriminate|].
      intros m Hm. cbn [outcome fst] in Hm. apply Ok_inj in Hm.
      exists plaintext. split; [reflexivity | now symmetry].
    + split; [|discriminate].
      intros e Hrej. cbn [outcome fst]. congruence.
  - apply now_safe.
  - now apply supported_nonempty.
  - apply nonempty_of_length. rewrite salt_of_length. lia.
  - apply nonempty_of_length. rewrite nonce_of_length. lia.
  - apply nonempty_of_length. rewrite Hsk. apply key_size_pos.
  - apply select_kem_override; [now apply supported_nonempty | assumption].
Qed.

Lemma tampered_ciphertext_rejected_witness :
  Section6 Stub.bound
  /\ outcome (decrypt Stub.bound
                (VStr (set_member
                         (Stub.sealed Stub.bound "ML-KEM-1024" "ML-KEM-1024" 7
                                      (js "Secret"))
                         "c"
                         (VStr (Base64.encode
                                  (Stub.tampered Stub.bound "ML-KEM-1024" 7
                                                 (js "Secret"))))))
                (field (Stub.keyPair Stub.bound "ML-KEM-1024") "privateKey")
                VNull tt empty_frame)
     = Throw (js "Decryption failed: ChaCha20-Poly1305 decryption failed: "
                ++ js "invalid tag").
Proof.
  split; [apply Stub_contract|].
  refine (proj1 (tampered_ciphertext_rejected Stub.bound (js "ML-KEM-1024")
           (Stub.world 0) (Stub.world 7)
           (Stub.keyPair Stub.bound "ML-KEM-1024") VNull (js "Secret")
           (Stub.sealed Stub.bound "ML-KEM-1024" "ML-KEM-1024" 7 (js "Secret"))
           (Stub.session_key Stub.bound "ML-KEM-1024" 7)
           (Base64.encode
              (Stub.tampered Stub.bound "ML-KEM-1024" 7 (js "Secret")))
           _ _ _ _ _ _ _) (js "invalid tag") _).
  - apply Stub_contract.
  - left. reflexivity.
  - vm_compute. reflexivity.
  - right. left. reflexivity.
  - vm_compute. reflexivity.
  - vm_compute. reflexivity.
  - vm_compute. discriminate.
  - vm_compute. reflexivity.
Defined.

(** C2 as stated fails: [Base64.decode] drops the bits of the last
    character that belong to no byte, so changing that character of the
    [c] text can leave the ciphertext bytes as they were; [decrypt] then
    returns the plaintext for an envelope whose [c] field was modified. *)
Lemma ciphertext_text_change_undetected :
  let text :=
    Stub.sealed Stub.bound "ML-KEM-1024" "ML-KEM-1024" 7 (js "Secret") in
  let c := ToString (member_of text "c") in
  let changed := firstn 29 c ++ [120] ++ skipn 30 c in
  changed <> c
  /\ length changed = length c
  /\ set_member text "c" (VStr changed) <> text
  /\ outcome
       (decrypt Stub.bound (VStr (set_member text "c" (VStr changed)))
          (field (Stub.keyPair Stub.bound "ML-KEM-1024") "privateKey")
          VNull tt empty_frame)
     = Ok (js "Secret").
Proof.
  vm_compute.
  split; [discriminate|]. split; [reflexivity|]. split; [discriminate|].
  reflexivity.
Qed.

(** C3 at the failing input: on the envelope whose ciphertext was
    changed, [decrypt] throws and leaves both the shared secret and the
    derived key in memory, not zero-filled. *)
Theorem decrypt_failure_leaves_key_material :
  let r :=
    decrypt Stub.bound
      (VStr (set_member
               (Stub.sealed Stub.bound "ML-KEM-1024" "ML-KEM-1024" 7
                            (js "Secret"))
               "c"
               (VStr (Base64.encode
                        (Stub.tampered Stub.bound "ML-KEM-1024" 7
                                       (js "Secret"))))))
      (field (Stub.keyPair Stub.bound "ML-KEM-1024") "privateKey")
      VNull tt empty_frame in
  outcome r
  = Throw (js "Decryption failed: ChaCha20-Poly1305 decryption failed: invalid tag")
  /\ chachaKey (frame_after r)
     = Some (Stub.session_key Stub.bound "ML-KEM-1024" 7)
  /\ buffer_zeroed (chachaKey (frame_after r)) = false
  /\ buffer_zeroed (sharedSecret (frame_after r)) = false.
Proof. vm_compute. repeat split; reflexivity. Qed.

(** The success path does zero both buffers. *)
Lemma secureClear_zeroed (data : bytes) :
  buffer_zeroed (Some (CryptoUtils.secureClear data)) = true.
Proof.
  unfold buffer_zeroed, CryptoUtils.secureClear.
  induction data as [|b l IH]; [reflexivity | exact IH].
Qed.

Lemma decrypt_success_zeroes (P : Primitives)
      (encryptedContent privateKey algorithm : value) (message : jsstring) :
  outcome (decrypt P encryptedContent privateKey algorithm tt empty_frame)
  = Ok message ->
  buffer_zeroed
    (sharedSecret
       (frame_after (decrypt P encryptedContent privateKey algorithm tt empty_frame)))
  = true
  /\ buffer_zeroed
       (chachaKey
          (frame_after (decrypt P encryptedContent privateKey algorithm tt empty_frame)))
     = true.
Proof.
  rewrite decrypt_cases. unfold decryption_failed.
  destruct (_ || _); [discriminate|].
  destruct (_ || _); [discriminate|].
  destruct (JSON.parse _) as [d|]; [|discriminate].
  destruct (get d "v"); [|discriminate].
  destruct (has_required_fields d); [|discriminate].
  unfold open_envelope. run_monad.
  repeat match goal with
         | |- context [match ?x with Ok _ => _ | Throw _ => _ end] =>
             destruct x; run_monad; try discriminate
         end.
  intros _. cbn [frame_after snd sharedSecret chachaKey].
  split; apply secureClear_zeroed.
Qed.

Lemma encrypt_success_zeroes (P : Primitives) (message : jsstring)
      (recipientPublicKey algorithm : value) (w : World) (text : jsstring) :
  outcome (encrypt P message recipientPublicKey algorithm w empty_frame)
  = Ok text ->
  buffer_zeroed
    (sharedSecret
       (frame_after (encrypt P message recipientPublicKey algorithm w empty_frame)))
  = true
  /\ buffer_zeroed
       (chachaKey
          (frame_after (encrypt P message recipientPublicKey algorithm w empty_frame)))
     = true.
Proof.
  rewrite encrypt_cases.
  destruct (_ || _); [discriminate|].
  destruct (negb _); [discriminate|].
  cbv zeta.
  destruct (kem_encap P _ _ _) as [[ct ss]|e]; [|discriminate].
  destruct (HKDF.derive P ss _ _ _) as [key|e]; [|discriminate].
  destruct (ChaCha20Poly1305.encrypt P key _ _) as [c|e]; [|discriminate].
  intros _. cbn [frame_after snd zeroed sharedSecret chachaKey].
  split; apply secureClear_zeroed.
Qed.

(** [JSON.parse] never yields [undefined]. *)
Lemma parse_defined_fuel (fuel : nat) :
  (forall s v r, JSON.parse_value fuel s = Some (v, r) -> v <> VUndefined)
  /\ (forall s acc v r,
        JSON.parse_members fuel s acc = Some (v, r) -> v <> VUndefined)
  /\ (forall s acc v r,
        JSON.parse_elements fuel s acc = Some (v, r) -> v <> VUndefined).
Proof.
  induction fuel as [|f [IHv [IHm IHe]]].
  - repeat split; intros; discriminate.
  - repeat split.
    + intros s v r. destruct s as [|c s]; [discriminate|].
      rewrite parse_value_S.
      repeat match goal with
             | |- context [if ?b then _ else _] => destruct b
             | |- context [match JSON.string_body ?x with _ => _ end] =>
                 destruct (JSON.string_body x) as [[? ?]|]
             | |- context [match JSON.skip_ws ?x with _ => _ end] =>
                 destruct (JSON.skip_ws x)
             | |- context [match JSON.parse_number ?x with _ => _ end] =>
                 destruct (JSON.parse_number x) as [[? ?]|]
             end;
        try discriminate;
        try (intros H; apply Ok_inj in H; congruence);
        try (intros H; injection H as <- _; discriminate);
        try apply IHm; try apply IHe;
        unfold JSON.keyword;
        try (destruct (JSON.strip_prefix _ _); try discriminate;
             intros H; injection H as <- _; discriminate).
    + intros s acc v r. destruct s as [|c s]; [discriminate|].
      rewrite parse_members_S.
      repeat match goal with
             | |- context [if ?b then _ else _] => destruct b
             | |- context [match JSON.string_body ?x with _ => _ end] =>
                 destruct (JSON.string_body x) as [[? ?]|]
             | |- context [match JSON.skip_ws ?x with _ => _ end] =>
                 destruct (JSON.skip_ws x)
             | |- context [match JSON.parse_value ?g ?x with _ => _ end] =>
                 destruct (JSON.parse_value g x) as [[? ?]|]
             end;
        try discriminate;
        try (intros H; injection H as <- _; discriminate);
        try apply IHm.
    + intros s acc v r. cbn [JSON.parse_elements].
      repeat match goal with
             | |- context [if ?b then _ else _] => destruct b
             | |- context [match JSON.skip_ws ?x with _ => _ end] =>
                 destruct (JSON.skip_ws x)
             | |- context [match JSON.parse_value ?g ?x with _ => _ end] =>
                 destruct (JSON.parse_value g x) as [[? ?]|]
             end;
        try discriminate;
        try (intros H; injection H as <- _; discriminate);
        try apply IHe.
Qed.

Lemma JSON_parse_defined (text : jsstring) :
  JSON.parse text <> Some VUndefined.
Proof.
  unfold JSON.parse.
  destruct (JSON.parse_value _ _) as [[v r]|] eqn:E; [|discriminate].
  destruct (JSON.skip_ws r); [|discriminate].
  intros H. injection H as ->.
  now apply (proj1 (parse_defined_fuel _)) in E.
Qed.

Lemma select_kem_not_768 (alg : value) :
  strict_equals_string alg (js "ML-KEM-768") = false ->
  select_kem alg = MlKem1024.
Proof. unfold select_kem. now intros ->. Qed.

Lemma truthy_string_inv (s : jsstring) : truthy (VStr s) = true -> s <> [].
Proof. intros H ->. discriminate. Qed.

(** C4 (as amended).  [decrypt] has no unsupported-suite failure.  For
    an envelope whose declared suite is anything but ['ML-KEM-768'],
    recognized or not, [decrypt] without an override decapsulates with
    the ML-KEM-1024 instance and throws only what decapsulation, key
    derivation or the AEAD throws; otherwise it returns the decoded
    plaintext.  It does so exactly as under the override
    ['ML-KEM-1024']. *)
Theorem undeclared_suite_decrypts_as_1024
        (P : Primitives) (text : jsstring) (messageData : value) :
  JSON.parse text = Some messageData ->
  strict_equals_string (field messageData "alg") (js "ML-KEM-768") = false ->
  (forall (privateKey kem s n c : jsstring) (override : value),
      privateKey <> [] ->
      override = VNull \/ override = VUndefined ->
      has_required_fields messageData = true ->
      field messageData "kem" = VStr kem ->
      field messageData "s" = VStr s ->
      field messageData "n" = VStr n ->
      field messageData "c" = VStr c ->
      decrypt P (VStr text) (VStr privateKey) override tt empty_frame
      = match kem_decap P MlKem1024 (Base64.decode kem)
                        (Base64.decode privateKey) with
        | Throw e => (Throw (js "Decryption failed: " ++ e), tt, empty_frame)
        | Ok ss =>
            match HKDF.derive P ss (Base64.decode s)
                              (js "ChaCha20-Poly1305") 32 with
            | Throw e =>
                (Throw (js "Decryption failed: " ++ e), tt,
                 {| sharedSecret := Some ss; chachaKey := None |})
            | Ok key =>
                match ChaCha20Poly1305.decrypt P key (Base64.decode n)
                                               (Base64.decode c) with
                | Throw e =>
                    (Throw (js "Decryption failed: " ++ e), tt,
                     {| sharedSecret := Some ss; chachaKey := Some key |})
                | Ok plaintext =>
                    (Ok (TextDecoder.decode plaintext), tt, zeroed ss key)
                end
            end
        end)
  /\ (forall privateKey : value,
        decrypt P (VStr text) privateKey VNull tt empty_frame
        = decrypt P (VStr text) privateKey (VStr (js "ML-KEM-1024"))
                  tt empty_frame).
Proof.
  intros Hparse Halg. split.
  - intros sk kem s n c override Hsk Hov Hreq Hkem Hs Hn Hc.
    assert (Htext : text <> []) by (intros ->; discriminate).
    assert (Hd : messageData <> VNull /\ messageData <> VUndefined)
      by (split; intros ->; discriminate).
    destruct Hd as [D1 D2].
    unfold has_required_fields, required_fields in Hreq.
    cbn [forallb] in Hreq.
    apply andb_prop in Hreq as [Tv Hreq]. apply andb_prop in Hreq as [Talg Hreq].
    apply andb_prop in Hreq as [Tkem Hreq]. apply andb_prop in Hreq as [Ts Hreq].
    apply andb_prop in Hreq as [Tn Hreq]. apply andb_prop in Hreq as [Tc _].
    rewrite Hkem in Tkem. rewrite Hs in Ts. rewrite Hn in Tn. rewrite Hc in Tc.
    rewrite (decrypt_stages P text sk override messageData
               (field messageData "v") (field messageData "alg") kem s n c);
      try assumption;
      try (now apply truthy_string_inv);
      try (rewrite get_field by assumption; congruence).
    assert (Hsel : select_kem
                     (js_or (match override with
                             | VUndefined => VNull
                             | a => a
                             end) (field messageData "alg")) = MlKem1024).
    { destruct Hov as [-> | ->]; unfold js_or; cbn [truthy];
        now apply select_kem_not_768. }
    now rewrite Hsel.
  - intros privateKey. rewrite !decrypt_cases. cbn [ToString].
    destruct (_ || _); [reflexivity|].
    destruct (_ || _); [reflexivity|].
    rewrite Hparse.
    destruct (get messageData "v"); [|reflexivity].
    destruct (has_required_fields messageData); [|reflexivity].
    cbn [override_of]. unfold js_or at 1. cbn [truthy].
    rewrite (select_kem_not_768 _ Halg). reflexivity.
Qed.

Lemma undeclared_suite_decrypts_as_1024_witness :
  decrypt Stub.bound
    (VStr (Stub.sealed Stub.bound "ML-KEM-1024" "ML-KEM-512" 7 (js "Secret")))
    (field (Stub.keyPair Stub.bound "ML-KEM-1024") "privateKey")
    VNull tt empty_frame
  = decrypt Stub.bound
      (VStr (Stub.sealed Stub.bound "ML-KEM-1024" "ML-KEM-512" 7 (js "Secret")))
      (field (Stub.keyPair Stub.bound "ML-KEM-1024") "privateKey")
      (VStr (js "ML-KEM-1024")) tt empty_frame
  /\ outcome
       (decrypt Stub.bound
          (VStr (Stub.sealed Stub.bound "ML-KEM-1024" "ML-KEM-512" 7
                             (js "Secret")))
          (VStr (ToString (field (Stub.keyPair Stub.bound "ML-KEM-1024")
                                 "privateKey")))
          VUndefined tt empty_frame)
     = Ok (js "Secret").
Proof.
  pose (sealed := Stub.sealed Stub.bound "ML-KEM-1024" "ML-KEM-512" 7
                              (js "Secret")).
  pose (messageData := match JSON.parse sealed with
                       | Some parsed => parsed
                       | None => VUndefined
                       end).
  assert (H1 : JSON.parse sealed = Some messageData)
    by (vm_compute; reflexivity).
  assert (H2 : strict_equals_string (field messageData "alg") (js "ML-KEM-768")
               = false) by (vm_compute; reflexivity).
  pose proof (undeclared_suite_decrypts_as_1024 Stub.bound sealed messageData
                H1 H2) as [HA HB].
  split.
  - exact (HB (field (Stub.keyPair Stub.bound "ML-KEM-1024") "privateKey")).
  - fold sealed.
    rewrite (HA (ToString (field (Stub.keyPair Stub.bound "ML-KEM-1024")
                                 "privateKey"))
                (ToString (field messageData "kem"))
                (ToString (field messageData "s"))
                (ToString (field messageData "n"))
                (ToString (field messageData "c"))
                VUndefined).
    + vm_compute. reflexivity.
    + vm_compute. discriminate.
    + right. reflexivity.
    + vm_compute. reflexivity.
    + vm_compute. reflexivity.
    + vm_compute. reflexivity.
    + vm_compute. reflexivity.
    + vm_compute. reflexivity.
Defined.

(** C4 as stated fails: an envelope that declares ['ML-KEM-512'] is not
    refused; [decrypt] decapsulates under ML-KEM-1024 and returns the
    plaintext. *)
Lemma unrecognized_suite_not_refused :
  member_of (Stub.sealed Stub.bound "ML-KEM-1024" "ML-KEM-512" 7 (js "Secret"))
            "alg" = VStr (js "ML-KEM-512")
  /\ outcome
       (decrypt Stub.bound
          (VStr (Stub.sealed Stub.bound "ML-KEM-1024" "ML-KEM-512" 7
                             (js "Secret")))
          (field (Stub.keyPair Stub.bound "ML-KEM-1024") "privateKey")
          VNull tt empty_frame)
     = Ok (js "Secret").
Proof. vm_compute. split; reflexivity. Qed.

(** C5 (as amended).  [decrypt] returns only for a string that parses
    to a value in which [v], [alg], [kem], [s], [n] and [c] are all
    truthy.  It throws for an input that is not a non-empty string; and,
    given a non-empty private key string, it throws when the text is not
    JSON, when it is the JSON [null], and when one of the six fields is
    absent or falsy.  [t] is not among them. *)
Theorem malformed_envelope_rejected
        (P : Primitives) (encryptedContent privateKey algorithm : value) :
  let r :=
    outcome (decrypt P encryptedContent privateKey algorithm tt empty_frame) in
  (forall message,
      r = Ok message ->
      exists text messageData,
        encryptedContent = VStr text
        /\ JSON.parse text = Some messageData
        /\ has_required_fields messageData = true)
  /\ (is_string encryptedContent = false \/ encryptedContent = VStr [] ->
      r = Throw (js "Decryption failed: Invalid encrypted content"))
  /\ (forall text key,
        encryptedContent = VStr text -> text <> [] ->
        privateKey = VStr key -> key <> [] ->
        (JSON.parse text = None ->
         r = Throw (js "Decryption failed: Invalid encrypted message format"))
        /\ (JSON.parse text = Some VNull ->
            r = Throw (js "Decryption failed: Cannot read properties of null (reading 'v')"))
        /\ (forall messageData,
              JSON.parse text = Some messageData -> messageData <> VNull ->
              has_required_fields messageData = false ->
              r = Throw (js "Decryption failed: Missing required fields in encrypted message"))).
Proof.
  intros r. subst r. rewrite decrypt_cases. split; [|split].
  - intros m.
    destruct encryptedContent as [| | | |text| |];
      try (match goal with
           | |- context [is_string ?v] => change (is_string v) with false
           end; cbn [negb]; rewrite orb_true_r; discriminate).
    cbn [ToString].
    destruct (negb (truthy (VStr text)) || negb (is_string (VStr text)));
      [discriminate|].
    destruct (negb (truthy privateKey) || negb (is_string privateKey));
      [discriminate|].
    destruct (JSON.parse text) as [d|] eqn:Hd; [|discriminate].
    destruct (get d "v"); [|discriminate].
    destruct (has_required_fields d) eqn:Hreq; [|discriminate].
    intros _. exists text, d. split; [reflexivity|]. split; assumption.
  - intros [H| ->].
    + rewrite H. cbn [negb]. now rewrite orb_true_r.
    + reflexivity.
  - intros text key -> Ht -> Hk. cbn [ToString].
    change (is_string (VStr text)) with true.
    change (is_string (VStr key)) with true.
    rewrite !truthy_string by assumption. cbn [negb orb].
    split; [|split].
    + now intros ->.
    + now intros ->.
    + intros d Hd Hnull Hreq. rewrite Hd.
      assert (Hundef : d <> VUndefined)
        by (intros ->; now apply (JSON_parse_defined text)).
      rewrite (get_field d "v") by assumption. now rewrite Hreq.
Qed.

Lemma malformed_envelope_rejected_witness :
  outcome (decrypt Stub.bound (VStr (js "invalid-data")) (VStr (js "AAAA"))
                   VNull tt empty_frame)
  = Throw (js "Decryption failed: Invalid encrypted message format")
  /\ outcome (decrypt Stub.bound (VStr []) (VStr (js "AAAA"))
                      VNull tt empty_frame)
     = Throw (js "Decryption failed: Invalid encrypted content").
Proof.
  split.
  - refine (proj1 (proj2 (proj2 (malformed_envelope_rejected Stub.bound
                     (VStr (js "invalid-data")) (VStr (js "AAAA")) VNull))
                     (js "invalid-data") (js "AAAA") eq_refl _ eq_refl _) _).
    + discriminate.
    + discriminate.
    + vm_compute. reflexivity.
  - apply (proj1 (proj2 (malformed_envelope_rejected Stub.bound
                     (VStr []) (VStr (js "AAAA")) VNull))).
    right. reflexivity.
Defined.

(** C5 as stated fails: the envelope with its [t] member deleted is
    parsed and decrypted. *)
Lemma envelope_without_timestamp_accepted :
  member_of (delete_member
               (Stub.sealed Stub.bound "ML-KEM-1024" "ML-KEM-1024" 7
                            (js "Secret")) "t") "t" = VUndefined
  /\ outcome
       (decrypt Stub.bound
          (VStr (delete_member
                   (Stub.sealed Stub.bound "ML-KEM-1024" "ML-KEM-1024" 7
                                (js "Secret")) "t"))
          (field (Stub.keyPair Stub.bound "ML-KEM-1024") "privateKey")
          VNull tt empty_frame)
     = Ok (js "Secret").
Proof. vm_compute. split; reflexivity. Qed.

Lemma includes_supported (S : jsstring) :
  In S SUPPORTED_ALGORITHMS -> includes SUPPORTED_ALGORITHMS (VStr S) = true.
Proof. intros H. apply supported_cases in H. destruct H; subst; reflexivity. Qed.

Lemma js_or_string (s : jsstring) (b : value) :
  s <> [] -> js_or (VStr s) b = VStr s.
Proof. intros H. unfold js_or. now rewrite truthy_string. Qed.

(** What [importKeyPair] returns for a record with both keys as
    non-empty strings. *)
Lemma importKeyPair_record (props : list (jsstring * value))
      (publicKey privateKey : jsstring) :
  lookup (js "publicKey") props = VStr publicKey -> publicKey <> [] ->
  lookup (js "privateKey") props = VStr privateKey -> privateKey <> [] ->
  includes SUPPORTED_ALGORITHMS
    (js_or (lookup (js "algorithm") props) (VStr DEFAULT_ALGORITHM)) = true ->
  importKeyPair (VObj props)
  = Ok (VObj [(js "publicKey", VStr publicKey);
              (js "privateKey", VStr privateKey);
              (js "algorithm",
               js_or (lookup (js "algorithm") props) (VStr DEFAULT_ALGORITHM))]).
Proof.
  intros Hpk Npk Hsk Nsk Halg. unfold importKeyPair.
  change (negb (truthy (VObj props))
          || negb (jsstring_eqb (typeof (VObj props)) (js "object")))
    with false.
  cbn [get rbind]. rewrite Hpk, Hsk.
  change (is_string (VStr publicKey)) with true.
  change (is_string (VStr privateKey)) with true.
  rewrite !truthy_string by assumption. cbn [negb orb].
  now rewrite Halg.
Qed.

Lemma lookup_obj_delete (props : list (jsstring * value)) (k : jsstring) :
  lookup k (obj_delete props k) = VUndefined.
Proof.
  induction props as [|[k' v] r IH]; [reflexivity|].
  cbn [obj_delete filter fst]. destruct (jsstring_eqb k k') eqn:E.
  - exact IH.
  - cbn [negb lookup]. rewrite E. exact IH.
Qed.

(** Export, then import, of a record of two non-empty key strings and a
    supported suite. *)
Lemma export_import_record (publicKey privateKey algorithm : jsstring)
      (w : World) :
  publicKey <> [] -> privateKey <> [] ->
  In algorithm SUPPORTED_ALGORITHMS ->
  let keyPair := VObj [(js "publicKey", VStr publicKey);
                       (js "privateKey", VStr privateKey);
                       (js "algorithm", VStr algorithm)] in
  exists exported,
    outcome (exportKeyPair keyPair w empty_frame) = Ok (VObj exported)
    /\ importKeyPair (VObj exported) = Ok keyPair
    /\ importKeyPair (VObj (obj_delete exported (js "algorithm")))
       = Ok (VObj [(js "publicKey", VStr publicKey);
                   (js "privateKey", VStr privateKey);
                   (js "algorithm", VStr (js "ML-KEM-1024"))]).
Proof.
  intros Npk Nsk Halg keyPair.
  eexists. split; [reflexivity|]. split.
  - rewrite (importKeyPair_record _ publicKey privateKey);
      try assumption; try reflexivity.
    + change (lookup (js "algorithm") _) with (VStr algorithm).
      rewrite js_or_string by (now apply supported_nonempty). reflexivity.
    + change (lookup (js "algorithm") _) with (VStr algorithm).
      rewrite js_or_string by (now apply supported_nonempty).
      now apply includes_supported.
  - rewrite (importKeyPair_record _ publicKey privateKey);
      try assumption; try reflexivity.
Qed.

(** C6.  Importing what [exportKeyPair] wrote for a generated key pair
    gives the key pair back, field by field; the same holds for every
    record of two non-empty key strings and a supported suite; and a
    record without [algorithm] whose keys are non-empty strings imports
    with the default suite ['ML-KEM-1024'], in particular an exported
    record from which [algorithm] was deleted. *)
Theorem export_import_round_trip :
  (forall (P : Primitives) (S : jsstring) (w0 w : World) (keyPair : value),
      Section6 P -> In S SUPPORTED_ALGORITHMS ->
      outcome (generateKeyPair P (VStr S) w0 empty_frame) = Ok keyPair ->
      exists exported imported,
        outcome (exportKeyPair keyPair w empty_frame) = Ok (VObj exported)
        /\ importKeyPair (VObj exported) = Ok imported
        /\ imported = keyPair
        /\ field imported "publicKey" = field keyPair "publicKey"
        /\ field imported "privateKey" = field keyPair "privateKey"
        /\ field imported "algorithm" = VStr S
        /\ importKeyPair (VObj (obj_delete exported (js "algorithm")))
           = Ok (VObj [(js "publicKey", field keyPair "publicKey");
                       (js "privateKey", field keyPair "privateKey");
                       (js "algorithm", VStr (js "ML-KEM-1024"))]))
  /\ (forall (publicKey privateKey algorithm : jsstring) (w : World),
         publicKey <> [] -> privateKey <> [] ->
         In algorithm SUPPORTED_ALGORITHMS ->
         let keyPair := VObj [(js "publicKey", VStr publicKey);
                              (js "privateKey", VStr privateKey);
                              (js "algorithm", VStr algorithm)] in
         exists exported,
           outcome (exportKeyPair keyPair w empty_frame) = Ok (VObj exported)
           /\ importKeyPair (VObj exported) = Ok keyPair
           /\ importKeyPair (VObj (obj_delete exported (js "algorithm")))
              = Ok (VObj [(js "publicKey", VStr publicKey);
                          (js "privateKey", VStr privateKey);
                          (js "algorithm", VStr (js "ML-KEM-1024"))]))
  /\ (forall (props : list (jsstring * value)) (publicKey privateKey : jsstring),
         lookup (js "publicKey") props = VStr publicKey -> publicKey <> [] ->
         lookup (js "privateKey") props = VStr privateKey -> privateKey <> [] ->
         lookup (js "algorithm") props = VUndefined ->
         importKeyPair (VObj props)
         = Ok (VObj [(js "publicKey", VStr publicKey);
                     (js "privateKey", VStr privateKey);
                     (js "algorithm", VStr (js "ML-KEM-1024"))])).
Proof.
  split; [|split].
  - intros P S w0 w keyPair HP HS Hgen.
    destruct (generateKeyPair_supported P S w0 keyPair HS Hgen)
      as [pk [sk [Hkem ->]]].
    destruct (kem_sizes P HP _ _ _ _ Hkem) as [Hpk Hsk].
    destruct (key_size_pos (select_kem (VStr S))) as [Ppk Psk].
    destruct (export_import_record (Base64.encode pk) (Base64.encode sk) S w)
      as [exported [Hex [Him Hlegacy]]].
    + apply Base64_encode_nonempty, nonempty_of_length. lia.
    + apply Base64_encode_nonempty, nonempty_of_length. lia.
    + exact HS.
    + exists exported. eexists. split; [exact Hex|]. split; [exact Him|].
      split; [reflexivity|]. split; [reflexivity|]. split; [reflexivity|].
      split; [reflexivity|]. rewrite field_publicKey, field_privateKey.
      exact Hlegacy.
  - intros pk sk alg w Npk Nsk Halg. now apply export_import_record.
  - intros props pk sk Hpk Npk Hsk Nsk Halg.
    rewrite (importKeyPair_record props pk sk) by (rewrite ?Halg; auto).
    now rewrite Halg.
Qed.

Lemma export_import_round_trip_witness :
  (exists exported,
      outcome (exportKeyPair (Stub.keyPair Stub.bound "ML-KEM-768")
                             (Stub.world 3) empty_frame) = Ok (VObj exported)
      /\ importKeyPair (VObj exported)
         = Ok (Stub.keyPair Stub.bound "ML-KEM-768"))
  /\ importKeyPair (VObj [(js "publicKey", VStr (js "dGVzdA=="));
                          (js "privateKey", VStr (js "dGVzdA=="))])
     = Ok (VObj [(js "publicKey", VStr (js "dGVzdA=="));
                 (js "privateKey", VStr (js "dGVzdA=="));
                 (js "algorithm", VStr (js "ML-KEM-1024"))]).
Proof.
  split.
  - destruct (proj1 export_import_round_trip Stub.bound (js "ML-KEM-768")
                (Stub.world 0) (Stub.world 3)
                (Stub.keyPair Stub.bound "ML-KEM-768"))
      as [exported [imported [Hex [Him [Heq _]]]]].
    + apply Stub_contract.
    + right. left. reflexivity.
    + vm_compute. reflexivity.
    + exists exported. split; [exact Hex|]. now rewrite Him, Heq.
  - apply (proj2 (proj2 export_import_round_trip));
      [reflexivity | discriminate | reflexivity | discriminate | reflexivity].
Defined.

(** When [validatePublicKey] answers [true]. *)
Lemma validatePublicKey_true (publicKey algorithm : value) :
  validatePublicKey publicKey algorithm = true <->
  exists s n,
    publicKey = VStr s /\ BASE64_RE_test s = true
    /\ expectedSize (default_parameter algorithm DEFAULT_ALGORITHM) = Some n
    /\ length (Base64.decode s) = n
    /\ forallb is_zero_byte (Base64.decode s) = false.
Proof.
  unfold validatePublicKey, validatePublicKey_try. split.
  - destruct publicKey as [| | | |s| |];
      try (match goal with
           | |- context [is_string ?v] => change (is_string v) with false
           end; cbn [negb]; rewrite orb_true_r; discriminate).
    change (is_string (VStr s)) with true. cbn [ToString negb orb rbind].
    destruct (negb (truthy (VStr s))); [discriminate|].
    destruct (BASE64_RE_test s) eqn:Hre; [|discriminate]. cbn [negb].
    destruct (expectedSize _) as [n|] eqn:Hn; [|discriminate].
    destruct (length (Base64.decode s) =? n)%nat eqn:Hl; [|discriminate].
    cbn [negb]. apply Nat.eqb_eq in Hl.
    destruct (forallb is_zero_byte (Base64.decode s)) eqn:Hz; [discriminate|].
    intros _. exists s, n. auto.
  - intros [s [n [-> [Hre [Hn [Hl Hz]]]]]].
    assert (Hne : s <> []) by (intros ->; discriminate).
    change (is_string (VStr s)) with true. cbn [ToString rbind].
    rewrite truthy_string, Hre, Hn by assumption. cbn [negb orb].
    rewrite <- Hl, Nat.eqb_refl, Hz. reflexivity.
Qed.

(** The [try] block of [validatePublicKey] has no throwing outcome. *)
Lemma validatePublicKey_try_returns (publicKey algorithm : value) :
  exists answer, validatePublicKey_try publicKey algorithm = Ok answer.
Proof.
  unfold validatePublicKey_try.
  destruct (negb (truthy publicKey) || negb (is_string publicKey));
    [now exists false|].
  destruct (negb (BASE64_RE_test (ToString publicKey))); [now exists false|].
  cbn [rbind]. destruct (expectedSize algorithm) as [n|]; [|now exists false].
  destruct (negb (length (Base64.decode (ToString publicKey)) =? n)%nat);
    [now exists false|].
  destruct (forallb is_zero_byte (Base64.decode (ToString publicKey)));
    [now exists false | now exists true].
Qed.

Lemma expectedSize_supported (S : jsstring) :
  In S SUPPORTED_ALGORITHMS ->
  expectedSize (VStr S) = Some (public_key_size (select_kem (VStr S))).
Proof. intros H. apply supported_cases in H. destruct H; subst; reflexivity. Qed.

Lemma public_key_sizes_differ (S other : jsstring) :
  In S SUPPORTED_ALGORITHMS -> In other SUPPORTED_ALGORITHMS -> S <> other ->
  public_key_size (select_kem (VStr S))
  <> public_key_size (select_kem (VStr other)).
Proof.
  intros H1 H2 Hne. apply supported_cases in H1, H2.
  destruct H1, H2; subst; try congruence; vm_compute; discriminate.
Qed.

(** C7 (as amended).  [validatePublicKey] answers [false] for an input
    that is not a string, for a string the expression
    [/^[A-Za-z0-9+/]+=*$/] refuses, for a decoded
    length other than the size of the suite, for an unknown suite, and
    for an all-zero key; a key generated for one suite is refused under
    the other.  Its [try] block has no throwing outcome, so the answer
    is always the one computed there. *)
Theorem validatePublicKey_rejects (publicKey algorithm : value) :
  (exists answer,
      validatePublicKey_try publicKey
        (default_parameter algorithm DEFAULT_ALGORITHM) = Ok answer
      /\ validatePublicKey publicKey algorithm = answer)
  /\ (is_string publicKey = false ->
      validatePublicKey publicKey algorithm = false)
  /\ (forall s, publicKey = VStr s -> BASE64_RE_test s = false ->
                validatePublicKey publicKey algorithm = false)
  /\ (forall s n, publicKey = VStr s ->
                  expectedSize (default_parameter algorithm DEFAULT_ALGORITHM)
                  = Some n ->
                  length (Base64.decode s) <> n ->
                  validatePublicKey publicKey algorithm = false)
  /\ (expectedSize (default_parameter algorithm DEFAULT_ALGORITHM) = None ->
      validatePublicKey publicKey algorithm = false)
  /\ (forall s, publicKey = VStr s ->
                forallb is_zero_byte (Base64.decode s) = true ->
                validatePublicKey publicKey algorithm = false)
  /\ (forall (P : Primitives) (S other : jsstring) (w : World) (keyPair : value),
         Section6 P -> In S SUPPORTED_ALGORITHMS ->
         In other SUPPORTED_ALGORITHMS -> S <> other ->
         outcome (generateKeyPair P (VStr S) w empty_frame) = Ok keyPair ->
         validatePublicKey (field keyPair "publicKey") (VStr other) = false).
Proof.
  split; [|repeat split].
  - destruct (validatePublicKey_try_returns publicKey
                (default_parameter algorithm DEFAULT_ALGORITHM)) as [answer E].
    exists answer. split; [exact E|]. unfold validatePublicKey.
    rewrite E. reflexivity.
  - intros H. destruct (validatePublicKey publicKey algorithm) eqn:E; [|reflexivity].
    apply validatePublicKey_true in E as [s [n [-> _]]]. discriminate.
  - intros s -> H. destruct (validatePublicKey _ _) eqn:E; [|reflexivity].
    apply validatePublicKey_true in E as [s' [n [E' [Hre _]]]].
    injection E' as <-. congruence.
  - intros s n -> Hn Hl. destruct (validatePublicKey _ _) eqn:E; [|reflexivity].
    apply validatePublicKey_true in E as [s' [n' [E' [_ [Hn' [Hl' _]]]]]].
    injection E' as <-. congruence.
  - intros H. destruct (validatePublicKey _ _) eqn:E; [|reflexivity].
    apply validatePublicKey_true in E as [s' [n' [_ [_ [Hn' _]]]]]. congruence.
  - intros s -> Hz. destruct (validatePublicKey _ _) eqn:E; [|reflexivity].
    apply validatePublicKey_true in E as [s' [n' [E' [_ [_ [_ Hz']]]]]].
    injection E' as <-. congruence.
  - intros P S other w keyPair HP HS Hother Hne Hgen.
    destruct (generateKeyPair_supported P S w keyPair HS Hgen)
      as [pk [sk [Hkem ->]]].
    destruct (kem_sizes P HP _ _ _ _ Hkem) as [Hpk _].
    rewrite field_publicKey.
    destruct (validatePublicKey _ _) eqn:E; [|reflexivity].
    apply validatePublicKey_true in E as [s' [n' [E' [_ [Hn' [Hl' _]]]]]].
    apply eq_sym in E'. injection E' as ->.
    rewrite Base64_decode_encode in Hl'.
    cbn [default_parameter] in Hn'.
    rewrite expectedSize_supported in Hn' by assumption.
    apply eq_sym in Hn'. injection Hn' as ->.
    exfalso. apply (public_key_sizes_differ S other); congruence.
Qed.

Lemma validatePublicKey_rejects_witness :
  validatePublicKey VNull (VStr (js "ML-KEM-1024")) = false
  /\ validatePublicKey (VStr [])  (VStr (js "ML-KEM-1024")) = false
  /\ validatePublicKey (VStr (js "not-valid-base64!!!")) (VStr (js "ML-KEM-1024"))
     = false
  /\ validatePublicKey
       (field (Stub.keyPair Stub.bound "ML-KEM-768") "publicKey")
       (VStr (js "ML-KEM-1024")) = false.
Proof.
  split; [|split; [|split]].
  - apply (proj1 (proj2 (validatePublicKey_rejects VNull _))). reflexivity.
  - apply (proj1 (proj2 (proj2 (validatePublicKey_rejects (VStr []) _))) []);
      reflexivity.
  - apply (proj1 (proj2 (proj2 (validatePublicKey_rejects _ _)))
             (js "not-valid-base64!!!")); reflexivity.
  - apply (proj2 (proj2 (proj2 (proj2 (proj2 (proj2
             (validatePublicKey_rejects VNull VNull))))))
             Stub.bound (js "ML-KEM-768") (js "ML-KEM-1024") (Stub.world 0)).
    + apply Stub_contract.
    + right. left. reflexivity.
    + left. reflexivity.
    + discriminate.
    + vm_compute. reflexivity.
Defined.

(** C7 as stated fails: a string that is not valid Base64 (its length is
    no multiple of four, so it is the encoding of no byte array) passes
    the expression, decodes to 1568 bytes that are not all zero, and is
    accepted. *)
Lemma unpadded_key_accepted :
  let publicKey := 66 :: repeat 65 2090 in
  (forall data, Base64.encode data <> publicKey)
  /\ validatePublicKey (VStr publicKey) (VStr (js "ML-KEM-1024")) = true.
Proof.
  cbv zeta. split.
  - intros data H. apply (f_equal (@length N)) in H.
    rewrite Base64_encode_length in H. cbn [length] in H.
    rewrite repeat_length in H. lia.
  - vm_compute. reflexivity.
Qed.






(** The contract of section 6 alone does not give the last part: with
    stand-in primitives that meet the contract but bind neither salt nor
    nonce into their output, two calls with different salts and different
    nonces write the same [c]. *)
Lemma same_ciphertext_under_fresh_randomness :
  salt_of (Stub.world 7) <> salt_of (Stub.world 8)
  /\ nonce_of (Stub.world 7) <> nonce_of (Stub.world 8)
  /\ member_of (Stub.sealed Stub.unbound "ML-KEM-1024" "ML-KEM-1024" 7
                            (js "Same message")) "c"
     = member_of (Stub.sealed Stub.unbound "ML-KEM-1024" "ML-KEM-1024" 8
                              (js "Same message")) "c"
  /\ truthy (member_of (Stub.sealed Stub.unbound "ML-KEM-1024" "ML-KEM-1024" 7
                                    (js "Same message")) "c") = true.
Proof.
  split; [vm_compute; discriminate|].
  split; [vm_compute; discriminate|].
  split; vm_compute; reflexivity.
Qed.

(** C9.  For an algorithm argument that is a string other than
    ['ML-KEM-768'], [encrypt] has no failure of its own: it fails exactly
    when it fails for ['ML-KEM-1024'], it encapsulates with ML-KEM-1024,
    and the envelope carries the argument verbatim in [alg]. *)
Theorem undeclared_algorithm_encrypts_with_1024
        (P : Primitives) (message A : jsstring)
        (recipientPublicKey : value) (w : World) :
  A <> js "ML-KEM-768" ->
  (forall e,
      outcome (encrypt P message recipientPublicKey (VStr A) w empty_frame)
      = Throw e <->
      outcome (encrypt P message recipientPublicKey (VStr (js "ML-KEM-1024"))
                       w empty_frame) = Throw e)
  /\ (forall text,
        outcome (encrypt P message recipientPublicKey (VStr A) w empty_frame)
        = Ok text ->
        member_of text "alg" = VStr A
        /\ exists ct ss,
            kem_encap P MlKem1024 (Base64.decode (ToString recipientPublicKey))
                      (seed_of w) = Ok (ct, ss)
            /\ member_of text "kem" = VStr (Base64.encode ct)).
Proof.
  intros HA.
  assert (Hsel : select_kem (VStr A) = MlKem1024).
  { apply select_kem_not_768. cbn. now apply jsstring_eqb_neq. }
  split.
  - intros e. rewrite !encrypt_cases. cbn [default_parameter]. rewrite Hsel.
    change (select_kem (VStr (js "ML-KEM-1024"))) with MlKem1024.
    destruct (_ || _); [reflexivity|].
    destruct (negb _); [reflexivity|].
    destruct (kem_encap P _ _ _) as [[ct ss]|e1]; [|reflexivity].
    destruct (HKDF.derive P ss _ _ _) as [key|e2]; [|reflexivity].
    destruct (ChaCha20Poly1305.encrypt P key _ _) as [c|e3]; [|reflexivity].
    cbn [outcome fst]. split; discriminate.
  - intros text H.
    apply encrypt_returned in H as [ct [ss [key [c [He [_ [_ E]]]]]]].
    cbn [default_parameter] in *. rewrite Hsel in He.
    destruct (member_of_envelope A (Base64.encode ct) (Base64.encode (salt_of w))
                (Base64.encode (nonce_of w)) (Base64.encode c) (now w)
                (now_safe w))
      as [_ [Halg [Hkem _]]].
    rewrite <- E in Halg, Hkem.
    split; [exact Halg|]. exists ct, ss. auto.
Qed.

Lemma undeclared_algorithm_encrypts_with_1024_witness :
  js "ML-KEM-512" <> js "ML-KEM-768"
  /\ member_of (Stub.sealed Stub.bound "ML-KEM-1024" "ML-KEM-512" 7
                            (js "Secret")) "alg"
     = VStr (js "ML-KEM-512").
Proof.
  assert (H : js "ML-KEM-512" <> js "ML-KEM-768") by discriminate.
  split; [exact H|].
  apply (proj2 (undeclared_algorithm_encrypts_with_1024 Stub.bound (js "Secret")
                  (js "ML-KEM-512")
                  (field (Stub.keyPair Stub.bound "ML-KEM-1024") "publicKey")
                  (Stub.world 7) H)).
  vm_compute. reflexivity.
Defined.

Lemma and_then_chain (d : value) :
  d <> VNull -> d <> VUndefined ->
  match
    and_then (get d "v")
   (and_then (get d "alg")
   (and_then (get d "kem")
   (and_then (get d "s")
   (and_then (get d "n")
             (get d "c")))))
  with
  | Ok last => truthy last
  | Throw _ => false
  end = has_required_fields d.
Proof.
  intros H1 H2. rewrite !(get_field d) by assumption.
  unfold has_required_fields, required_fields, and_then. cbn [forallb rbind].
  destruct (truthy (field d "v")) eqn:E1; [|exact E1].
  destruct (truthy (field d "alg")) eqn:E2; [|exact E2].
  destruct (truthy (field d "kem")) eqn:E3; [|exact E3].
  destruct (truthy (field d "s")) eqn:E4; [|exact E4].
  destruct (truthy (field d "n")) eqn:E5; [|exact E5].
  cbn [andb]. now rewrite andb_true_r.
Qed.

(** [isValidEncryptedMessage] on a string. *)
Lemma isValidEncryptedMessage_string (text : jsstring) :
  isValidEncryptedMessage (VStr text) =
  match JSON.parse text with
  | Some messageData => has_required_fields messageData
  | None => false
  end.
Proof.
  unfold isValidEncryptedMessage, JSON_parse.
  change (is_string (VStr text)) with true. cbn [ToString].
  destruct text as [|c text]; [reflexivity|].
  change (truthy (VStr (c :: text))) with true. cbn [negb orb].
  destruct (JSON.parse (c :: text)) as [d|] eqn:Hp; [|reflexivity].
  cbn [rbind].
  assert (Hd : d = VNull \/ d = VUndefined \/ (d <> VNull /\ d <> VUndefined)).
  { destruct d; auto; right; right; split; discriminate. }
  destruct Hd as [-> | [-> | [H1 H2]]]; [reflexivity | reflexivity |].
  rewrite <- (and_then_chain d H1 H2).
  match goal with
  | |- context [and_then ?a ?b] => destruct (and_then a b)
  end; cbn [rbind]; [apply negb_involutive | reflexivity].
Qed.

(** C10.  [isValidEncryptedMessage] is a total predicate: it answers
    [false] for an input that is not a string and for a text that is not
    JSON, and [true] exactly for a text that parses to a value whose [v],
    [alg], [kem], [s], [n] and [c] are truthy: [t] is not needed and the
    fields are not decoded. *)
Theorem isValidEncryptedMessage_spec (encryptedContent : value) :
  (is_string encryptedContent = false ->
   isValidEncryptedMessage encryptedContent = false)
  /\ (forall text, encryptedContent = VStr text -> JSON.parse text = None ->
                   isValidEncryptedMessage encryptedContent = false)
  /\ (isValidEncryptedMessage encryptedContent = true <->
      exists text messageData,
        encryptedContent = VStr text
        /\ JSON.parse text = Some messageData
        /\ has_required_fields messageData = true)
  /\ isValidEncryptedMessage
       (VStr (JSON.stringify
                (VObj [(js "v", VNum (integer 1));
                       (js "alg", VStr (js "none"));
                       (js "kem", VStr (js "?"));
                       (js "s", VStr (js "?"));
                       (js "n", VStr (js "?"));
                       (js "c", VStr (js "?"))])))
     = true.
Proof.
  split; [|split; [|split; [split|vm_compute; reflexivity]]].
  - destruct encryptedContent; try reflexivity.
    + unfold isValidEncryptedMessage. intros _.
      change (is_string (VBool b)) with false. cbn [negb].
      now rewrite orb_true_r.
    + unfold isValidEncryptedMessage. intros _.
      change (is_string (VNum n)) with false. cbn [negb].
      now rewrite orb_true_r.
    + discriminate.
  - intros text -> Hp. rewrite isValidEncryptedMessage_string. now rewrite Hp.
  - intros H. destruct encryptedContent as [| | | |text| |];
      try (unfold isValidEncryptedMessage in H;
           match type of H with
           | context [is_string ?v] => change (is_string v) with false in H
           end; cbn [negb] in H; rewrite orb_true_r in H; discriminate).
    rewrite isValidEncryptedMessage_string in H.
    destruct (JSON.parse text) as [d|] eqn:Hp; [|discriminate].
    exists text, d. auto.
  - intros [text [d [-> [Hp Hreq]]]].
    rewrite isValidEncryptedMessage_string. now rewrite Hp.
Qed.

Lemma isValidEncryptedMessage_spec_witness :
  isValidEncryptedMessage VNull = false
  /\ isValidEncryptedMessage (VStr (js "invalid-data")) = false.
Proof.
  split.
  - apply (proj1 (isValidEncryptedMessage_spec VNull)). reflexivity.
  - apply (proj1 (proj2 (isValidEncryptedMessage_spec
                           (VStr (js "invalid-data"))))
             (js "invalid-data")); [reflexivity | vm_compute; reflexivity].
Defined.

(* ================================================================== *)
(** * Part III.  Further properties of the three modules *)
(* ================================================================== *)

(** ** crypto-utils.js: the Base64 codec and the comparison *)

(** X1.  [Base64.decode] gives back the bytes [Base64.encode] was given, and
    the encoding has four characters for every three bytes, the last
    group padded. *)
Theorem Base64_encode_then_decode (data : bytes) :
  Base64.decode (Base64.encode data) = data
  /\ length (Base64.encode data) = (4 * ((length data + 2) / 3))%nat.
Proof.
  split; [apply Base64_decode_encode | apply Base64_encode_length].
Qed.

(** X2.  The encoding of a buffer passes the format check
    [/^[A-Za-z0-9+/]+=*$/] of [encrypt] and [validatePublicKey] exactly
    when the buffer is not empty: the empty buffer encodes to the empty
    string, which the check refuses. *)
Theorem Base64_encode_format (data : bytes) :
  BASE64_RE_test (Base64.encode data)
  = match data with [] => false | _ :: _ => true end.
Proof.
  destruct data as [|a r]; [reflexivity|].
  apply Base64_encode_test. discriminate.
Qed.

Lemma to_N_inj (x y : byte) : Byte.to_N x = Byte.to_N y -> x = y.
Proof.
  intros H. rewrite <- (byte_of_to_N x), <- (byte_of_to_N y). now rewrite H.
Qed.

(** The accumulator of the loop of [constantTimeEqual] ends at zero only
    if it started at zero and every pair of bytes was equal. *)
Lemma accumulate_zero (pairs : list (byte * byte)) (acc : N) :
  fold_left (fun acc '(x, y) => N.lor acc (N.lxor (Byte.to_N x) (Byte.to_N y)))
            pairs acc = 0
  <-> acc = 0 /\ Forall (fun p => fst p = snd p) pairs.
Proof.
  revert acc. induction pairs as [|[x y] r IH]; intros acc; cbn [fold_left].
  - split; [auto | tauto].
  - rewrite IH, N.lor_eq_0_iff, N.lxor_eq_0_iff. split.
    + intros [[H0 Hxy] Hr]. split; [exact H0|].
      constructor; [now apply to_N_inj | exact Hr].
    + intros [H0 Hall]. inversion Hall as [|p l Hxy Hr]; subst.
      cbn [fst snd] in Hxy. subst y. auto.
Qed.

Lemma combine_equal (a b : bytes) :
  length a = length b ->
  Forall (fun p => fst p = snd p) (combine a b) -> a = b.
Proof.
  revert b. induction a as [|x a IH]; intros [|y b] Hlen Hall;
    try discriminate; [reflexivity|].
  cbn [combine] in Hall. inversion Hall as [|p l Hxy Hr]; subst.
  cbn [fst snd] in Hxy. subst y. f_equal. apply IH; [|exact Hr].
  now injection Hlen.
Qed.

Lemma combine_diagonal (a : bytes) :
  Forall (fun p : byte * byte => fst p = snd p) (combine a a).
Proof. induction a; cbn [combine]; constructor; auto. Qed.

(** X3.  [constantTimeEqual] answers [true] exactly for two arrays with the
    same bytes; arrays of different lengths compare unequal. *)
Theorem constantTimeEqual_decides_equality (a b : bytes) :
  CryptoUtils.constantTimeEqual a b = true <-> a = b.
Proof.
  unfold CryptoUtils.constantTimeEqual.
  destruct (length a =? length b)%nat eqn:Hlen; cbn [negb].
  - apply Nat.eqb_eq in Hlen. rewrite N.eqb_eq, accumulate_zero. split.
    + intros [_ Hall]. now apply combine_equal.
    + intros ->. split; [reflexivity | apply combine_diagonal].
  - apply Nat.eqb_neq in Hlen. split; [discriminate|].
    intros ->. now contradiction Hlen.
Qed.

(** ** key-manager.js *)

Lemma strict_equals_string_true (v : value) (literal : jsstring) :
  strict_equals_string v literal = true <-> v = VStr literal.
Proof.
  destruct v; cbn [strict_equals_string]; try (split; discriminate).
  rewrite jsstring_eqb_eq. split; [now intros -> | intros H; now injection H].
Qed.

(** [SUPPORTED_ALGORITHMS.includes(v)] holds for the two names only. *)
Lemma includes_true (v : value) :
  includes SUPPORTED_ALGORITHMS v = true
  <-> exists S, In S SUPPORTED_ALGORITHMS /\ v = VStr S.
Proof.
  unfold includes. rewrite existsb_exists. split.
  - intros [S [HS Heq]]. apply strict_equals_string_true in Heq. eauto.
  - intros [S [HS ->]]. exists S. split; [exact HS|].
    now apply strict_equals_string_true.
Qed.

Lemma includes_false (v : value) :
  (forall S, In S SUPPORTED_ALGORITHMS -> v <> VStr S) ->
  includes SUPPORTED_ALGORITHMS v = false.
Proof.
  intros H. destruct (includes SUPPORTED_ALGORITHMS v) eqn:E; [|reflexivity].
  apply includes_true in E as [S [HS ->]]. now contradiction (H S HS).
Qed.

Lemma default_parameter_given (v : value) (d : jsstring) :
  v <> VUndefined -> default_parameter v d = v.
Proof. intros H. destruct v; [congruence | reflexivity ..]. Qed.

(** X4.  [generateKeyPair] refuses every primitive algorithm other than
    the two supported names, [null], numbers and the empty string
    included, naming it in the message; it throws before the library is
    called, so no randomness is drawn. *)
Theorem generateKeyPair_unsupported
        (P : Primitives) (algorithm : value) (w : World) :
  is_primitive algorithm = true ->
  algorithm <> VUndefined ->
  (forall S, In S SUPPORTED_ALGORITHMS -> algorithm <> VStr S) ->
  generateKeyPair P algorithm w empty_frame
  = (Throw (js "Unsupported algorithm: " ++ ToString algorithm
              ++ js ". Supported: ML-KEM-1024, ML-KEM-768"),
     w, empty_frame).
Proof.
  intros _ Hgiven Hnot. unfold generateKeyPair.
  rewrite default_parameter_given by assumption.
  rewrite includes_false by assumption. reflexivity.
Qed.

Lemma generateKeyPair_unsupported_witness :
  generateKeyPair Stub.bound (VStr (js "ML-KEM-512")) (Stub.world 0) empty_frame
  = (Throw (js "Unsupported algorithm: ML-KEM-512. Supported: ML-KEM-1024, ML-KEM-768"),
     Stub.world 0, empty_frame)
  /\ outcome (generateKeyPair Stub.bound VNull (Stub.world 0) empty_frame)
     = Throw (js "Unsupported algorithm: null. Supported: ML-KEM-1024, ML-KEM-768")
  /\ outcome (generateKeyPair Stub.bound
                (VNum {| negative := false; mantissa := 15; exponent := -1 |})
                (Stub.world 0) empty_frame)
     = Throw (js "Unsupported algorithm: 1.5. Supported: ML-KEM-1024, ML-KEM-768").
Proof.
  split; [|split].
  - apply (generateKeyPair_unsupported Stub.bound (VStr (js "ML-KEM-512"))).
    + reflexivity.
    + discriminate.
    + intros S [<- | [<- | []]]; discriminate.
  - rewrite (generateKeyPair_unsupported Stub.bound VNull).
    + reflexivity.
    + reflexivity.
    + discriminate.
    + intros S _. discriminate.
  - rewrite (generateKeyPair_unsupported Stub.bound
               (VNum {| negative := false; mantissa := 15; exponent := -1 |})).
    + vm_compute. reflexivity.
    + reflexivity.
    + discriminate.
    + intros S _. discriminate.
Defined.

(** X5.  For a supported suite the key pair of [generateKeyPair] is the
    library's, Base64 encoded: both keys pass the format check, their
    decoded lengths are the sizes [getKeySizes] reports for the suite, and
    [validatePublicKey] accepts the public key unless it is all zero. *)
Theorem generateKeyPair_key_sizes
        (P : Primitives) (S : jsstring) (w : World) (keyPair : value) :
  Section6 P -> In S SUPPORTED_ALGORITHMS ->
  outcome (generateKeyPair P (VStr S) w empty_frame) = Ok keyPair ->
  exists publicKey privateKey,
    keyPair = VObj [(js "publicKey", VStr publicKey);
                    (js "privateKey", VStr privateKey);
                    (js "algorithm", VStr S)]
    /\ BASE64_RE_test publicKey = true
    /\ BASE64_RE_test privateKey = true
    /\ getKeySizes (VStr S)
       = Ok (length (Base64.decode publicKey), length (Base64.decode privateKey))
    /\ validatePublicKey (VStr publicKey) (VStr S)
       = negb (forallb is_zero_byte (Base64.decode publicKey)).
Proof.
  intros HP HS Hgen.
  destruct (generateKeyPair_supported P S w keyPair HS Hgen)
    as [pk [sk [Hkem ->]]].
  destruct (kem_sizes P HP _ _ _ _ Hkem) as [Hpk Hsk].
  destruct (key_size_pos (select_kem (VStr S))) as [Ppk Psk].
  assert (Npk : pk <> []) by (apply nonempty_of_length; lia).
  assert (Nsk : sk <> []) by (apply nonempty_of_length; lia).
  exists (Base64.encode pk), (Base64.encode sk).
  split; [reflexivity|].
  split; [now apply Base64_encode_test|].
  split; [now apply Base64_encode_test|].
  rewrite !Base64_decode_encode, Hpk, Hsk. split.
  - apply supported_cases in HS. destruct HS as [-> | ->]; reflexivity.
  - unfold validatePublicKey, validatePublicKey_try.
    cbn [default_parameter ToString].
    change (is_string (VStr (Base64.encode pk))) with true.
    rewrite truthy_string by (now apply Base64_encode_nonempty).
    rewrite Base64_encode_test by assumption. cbn [negb orb rbind].
    rewrite expectedSize_supported by assumption.
    rewrite Base64_decode_encode, Hpk, Nat.eqb_refl. cbn [negb].
    now destruct (forallb is_zero_byte pk).
Qed.

Lemma generateKeyPair_key_sizes_witness :
  exists publicKey privateKey,
    Stub.keyPair Stub.bound "ML-KEM-768"
    = VObj [(js "publicKey", VStr publicKey);
            (js "privateKey", VStr privateKey);
            (js "algorithm", VStr (js "ML-KEM-768"))]
    /\ length (Base64.decode publicKey) = 1184%nat
    /\ length (Base64.decode privateKey) = 2400%nat.
Proof.
  destruct (generateKeyPair_key_sizes Stub.bound (js "ML-KEM-768")
              (Stub.world 0) (Stub.keyPair Stub.bound "ML-KEM-768"))
    as [publicKey [privateKey [Hpair [_ [_ [Hsizes _]]]]]].
  - apply Stub_contract.
  - right. left. reflexivity.
  - vm_compute. reflexivity.
  - exists publicKey, privateKey. split; [exact Hpair|].
    change (getKeySizes (VStr (js "ML-KEM-768"))) with (Ok (1184, 2400)%nat)
      in Hsizes.
    apply Ok_inj in Hsizes.
    split; [exact (eq_sym (f_equal fst Hsizes))
           | exact (eq_sym (f_equal snd Hsizes))].
Defined.

(** X6.  For a supported suite [generateKeyPair] returns exactly when the
    library's key generation returns, with the two keys Base64 encoded
    and the suite as given; an error [e] of the library comes out as
    ['Failed to generate <suite> key pair: e']. *)
Theorem generateKeyPair_follows_library
        (P : Primitives) (S : jsstring) (w : World) :
  In S SUPPORTED_ALGORITHMS ->
  outcome (generateKeyPair P (VStr S) w empty_frame)
  = match kem_generateKeyPair P (select_kem (VStr S))
                              (map (entropy w) (seq (cursor w) 64)) with
    | Ok (publicKey, privateKey) =>
        Ok (VObj [(js "publicKey", VStr (Base64.encode publicKey));
                  (js "privateKey", VStr (Base64.encode privateKey));
                  (js "algorithm", VStr S)])
    | Throw e =>
        Throw (js "Failed to generate " ++ S ++ js " key pair: " ++ e)
    end.
Proof.
  intros HS. apply supported_cases in HS.
  destruct HS as [-> | ->]; unfold generateKeyPair;
    cbn [default_parameter];
    match goal with
    | |- context [includes ?l ?v] =>
        replace (includes l v) with true by reflexivity
    end;
    match goal with
    | |- context [if strict_equals_string ?v ?l then MlKem1024 else MlKem768] =>
        replace (if strict_equals_string v l then MlKem1024 else MlKem768)
          with (select_kem v) by reflexivity
    end;
    run_monad;
    match goal with
    | |- context [kem_generateKeyPair P ?k ?seed] =>
        destruct (kem_generateKeyPair P k seed) as [[pk sk]|e]
    end; reflexivity.
Qed.

Lemma generateKeyPair_follows_library_witness :
  outcome (generateKeyPair
             {| kem_generateKeyPair := fun _ _ => Throw (js "no entropy");
                kem_encap := kem_encap Stub.bound;
                kem_decap := kem_decap Stub.bound;
                subtle_deriveBits := subtle_deriveBits Stub.bound;
                chacha20poly1305_encrypt := chacha20poly1305_encrypt Stub.bound;
                chacha20poly1305_decrypt := chacha20poly1305_decrypt Stub.bound;
                buffer_from := buffer_from Stub.bound |}
             (VStr (js "ML-KEM-768")) (Stub.world 0) empty_frame)
  = Throw (js "Failed to generate ML-KEM-768 key pair: no entropy").
Proof.
  rewrite (generateKeyPair_follows_library _ (js "ML-KEM-768") (Stub.world 0)).
  - reflexivity.
  - right. left. reflexivity.
Defined.

(** X7.  [getKeySizes] knows exactly the algorithms [generateKeyPair] accepts:
    for those it returns the sizes of the suite, the public one being the
    length [validatePublicKey] demands; for every other algorithm it
    throws, with ['Unknown algorithm: ...'] naming a primitive value, and
    [validatePublicKey] answers [false] whatever the key. *)
Theorem getKeySizes_agrees (algorithm : value) :
  let given := default_parameter algorithm DEFAULT_ALGORITHM in
  if includes SUPPORTED_ALGORITHMS given
  then getKeySizes algorithm
       = Ok (public_key_size (select_kem given),
             private_key_size (select_kem given))
       /\ expectedSize given = Some (public_key_size (select_kem given))
  else (exists e, getKeySizes algorithm = Throw e)
       /\ (is_primitive algorithm = true ->
           getKeySizes algorithm
           = Throw (js "Unknown algorithm: " ++ ToString algorithm))
       /\ forall publicKey, validatePublicKey publicKey algorithm = false.
Proof.
  cbv zeta.
  destruct (includes SUPPORTED_ALGORITHMS
              (default_parameter algorithm DEFAULT_ALGORITHM)) eqn:E.
  - apply includes_true in E as [S [HS E]]. unfold getKeySizes. rewrite E.
    apply supported_cases in HS. destruct HS as [-> | ->]; split; reflexivity.
  - assert (H := E). unfold includes in H.
    cbn [SUPPORTED_ALGORITHMS existsb] in H.
    apply orb_false_iff in H as [H1 H2].
    apply orb_false_iff in H2 as [H2 _].
    assert (Hgiven : default_parameter algorithm DEFAULT_ALGORITHM = algorithm).
    { destruct algorithm; try reflexivity. discriminate. }
    assert (Hthrow : getKeySizes algorithm
                     = Throw (js "Unknown algorithm: " ++ ToString algorithm)).
    { unfold getKeySizes. rewrite H1, H2, Hgiven. reflexivity. }
    split; [eexists; exact Hthrow|]. split; [intros _; exact Hthrow|].
    intros publicKey.
    destruct (validatePublicKey publicKey algorithm) eqn:V; [|reflexivity].
    apply validatePublicKey_true in V as [s [n [_ [_ [Hn _]]]]].
    unfold expectedSize in Hn. rewrite H1, H2 in Hn. discriminate.
Qed.

Lemma getKeySizes_agrees_witness :
  getKeySizes (VNum {| negative := false; mantissa := 1; exponent := 21 |})
  = Throw (js "Unknown algorithm: 1e+21").
Proof.
  pose proof (getKeySizes_agrees
                (VNum {| negative := false; mantissa := 1; exponent := 21 |}))
    as H.
  cbv zeta in H.
  change (includes SUPPORTED_ALGORITHMS
            (default_parameter
               (VNum {| negative := false; mantissa := 1; exponent := 21 |})
               DEFAULT_ALGORITHM)) with false in H.
  cbv iota in H. destruct H as [_ [H _]].
  rewrite (H eq_refl). vm_compute. reflexivity.
Defined.

Lemma non_empty_string_inv (v : value) :
  negb (truthy v) || negb (is_string v) = false ->
  exists s, v = VStr s /\ s <> [].
Proof.
  intros H. apply orb_false_iff in H as [Ht Hs].
  apply negb_false_iff in Ht, Hs.
  destruct v as [| | | |s| |]; try discriminate.
  exists s. split; [reflexivity|]. intros ->. discriminate.
Qed.

Lemma not_non_empty_string (v : value) :
  (forall s, s <> [] -> v <> VStr s) ->
  negb (truthy v) || negb (is_string v) = true.
Proof.
  intros H.
  destruct (negb (truthy v) || negb (is_string v)) eqn:E; [reflexivity|].
  apply non_empty_string_inv in E as [s [-> Hs]]. now contradiction (H s Hs).
Qed.

Lemma non_empty_string_guard (s : jsstring) :
  s <> [] -> negb (truthy (VStr s)) || negb (is_string (VStr s)) = false.
Proof.
  intros H. rewrite truthy_string by assumption. reflexivity.
Qed.

(** X8.  Whatever [importKeyPair] returns is a key pair record of exactly
    three fields: the two keys, non-empty strings copied from the input,
    and a supported algorithm, the input's own or ['ML-KEM-1024'] when the
    input has none; every other field of the input is dropped.  Importing
    the result again changes nothing. *)
Theorem importKeyPair_returns_key_pair (data imported : value) :
  importKeyPair data = Ok imported ->
  exists publicKey privateKey algorithm,
    imported = VObj [(js "publicKey", VStr publicKey);
                     (js "privateKey", VStr privateKey);
                     (js "algorithm", VStr algorithm)]
    /\ publicKey <> [] /\ privateKey <> []
    /\ In algorithm SUPPORTED_ALGORITHMS
    /\ field data "publicKey" = VStr publicKey
    /\ field data "privateKey" = VStr privateKey
    /\ js_or (field data "algorithm") (VStr DEFAULT_ALGORITHM) = VStr algorithm
    /\ importKeyPair imported = Ok imported.
Proof.
  unfold importKeyPair at 1.
  destruct (negb (truthy data) || negb (jsstring_eqb (typeof data) (js "object")))
    eqn:Hobj; [discriminate|].
  assert (Hread : forall key, get data key = Ok (field data key)).
  { intros key. apply get_field; intros ->; discriminate. }
  rewrite !Hread. cbn [rbind].
  destruct (negb (truthy (field data "publicKey")) || _) eqn:Hpk; [discriminate|].
  destruct (negb (truthy (field data "privateKey")) || _) eqn:Hsk; [discriminate|].
  destruct (includes SUPPORTED_ALGORITHMS _) eqn:Halg; [|discriminate].
  cbn [negb]. intros H. apply Ok_inj in H. subst imported.
  apply non_empty_string_inv in Hpk as [pk [Epk Npk]].
  apply non_empty_string_inv in Hsk as [sk [Esk Nsk]].
  apply includes_true in Halg as [alg [HS Ealg]].
  rewrite Epk, Esk, Ealg.
  exists pk, sk, alg. repeat (split; [assumption || reflexivity|]).
  rewrite (importKeyPair_record _ pk sk); try assumption; try reflexivity.
  - change (lookup (js "algorithm") _) with (VStr alg).
    rewrite js_or_string by (now apply supported_nonempty). reflexivity.
  - change (lookup (js "algorithm") _) with (VStr alg).
    rewrite js_or_string by (now apply supported_nonempty).
    now apply includes_supported.
Qed.

Lemma importKeyPair_returns_key_pair_witness :
  exists publicKey privateKey algorithm,
    VObj [(js "publicKey", VStr (js "cHVi")); (js "privateKey", VStr (js "cHJpdg=="));
          (js "algorithm", VStr (js "ML-KEM-1024"))]
    = VObj [(js "publicKey", VStr publicKey);
            (js "privateKey", VStr privateKey);
            (js "algorithm", VStr algorithm)]
    /\ In algorithm SUPPORTED_ALGORITHMS.
Proof.
  destruct (importKeyPair_returns_key_pair
              (VObj [(js "version", VStr (js "1.0.0"));
                     (js "privateKey", VStr (js "cHJpdg=="));
                     (js "publicKey", VStr (js "cHVi"))])
              (VObj [(js "publicKey", VStr (js "cHVi"));
                     (js "privateKey", VStr (js "cHJpdg=="));
                     (js "algorithm", VStr (js "ML-KEM-1024"))])
              eq_refl)
    as [publicKey [privateKey [algorithm [H [_ [_ [HS _]]]]]]].
  exists publicKey, privateKey, algorithm. split; assumption.
Defined.

(** X9.  What [importKeyPair] refuses, in the order of its checks: a value
    that is not an object; an array, or an object whose [publicKey] is
    missing, empty or not a string; then the same for [privateKey]; then
    an algorithm that is given, as a primitive value, and is not one of
    the two supported names. *)
Theorem importKeyPair_rejects (data : value) :
  ((forall props, data <> VObj props) -> (forall items, data <> VArr items) ->
   importKeyPair data = Throw (js "Invalid key pair data: must be an object"))
  /\ ((forall s, s <> [] -> field data "publicKey" <> VStr s) ->
      (exists props, data = VObj props) \/ (exists items, data = VArr items) ->
      importKeyPair data
      = Throw (js "Invalid key pair data: missing or invalid publicKey"))
  /\ (forall props publicKey,
        data = VObj props ->
        lookup (js "publicKey") props = VStr publicKey -> publicKey <> [] ->
        (forall s, s <> [] -> lookup (js "privateKey") props <> VStr s) ->
        importKeyPair data
        = Throw (js "Invalid key pair data: missing or invalid privateKey"))
  /\ (forall props publicKey privateKey,
        data = VObj props ->
        lookup (js "publicKey") props = VStr publicKey -> publicKey <> [] ->
        lookup (js "privateKey") props = VStr privateKey -> privateKey <> [] ->
        truthy (lookup (js "algorithm") props) = true ->
        is_primitive (lookup (js "algorithm") props) = true ->
        (forall S, In S SUPPORTED_ALGORITHMS ->
                   lookup (js "algorithm") props <> VStr S) ->
        importKeyPair data
        = Throw (js "Unsupported algorithm: "
                   ++ ToString (lookup (js "algorithm") props)
                   ++ js ". Supported: ML-KEM-1024, ML-KEM-768")).
Proof.
  split; [|split; [|split]].
  - intros Hobj Harr.
    destruct data as [| | | | |items|props];
      [ reflexivity | reflexivity | | | | now contradiction (Harr items)
      | now contradiction (Hobj props) ];
      unfold importKeyPair; cbn [typeof];
      match goal with
      | |- context [jsstring_eqb ?a ?b] => change (jsstring_eqb a b) with false
      end; cbn [negb]; rewrite orb_true_r; reflexivity.
  - intros Hpk [[props ->] | [items ->]]; unfold importKeyPair;
      change (negb (truthy _) || negb (jsstring_eqb (typeof _) (js "object")))
        with false at 1.
    + cbn [get rbind]. unfold field in Hpk. cbn [get] in Hpk.
      now rewrite not_non_empty_string.
    + reflexivity.
  - intros props pk -> Epk Npk Hsk. unfold importKeyPair.
    change (negb (truthy _) || negb (jsstring_eqb (typeof _) (js "object")))
      with false at 1.
    cbn [get rbind]. rewrite Epk, non_empty_string_guard by assumption.
    now rewrite not_non_empty_string.
  - intros props pk sk -> Epk Npk Esk Nsk Halg _ Hnot. unfold importKeyPair.
    change (negb (truthy _) || negb (jsstring_eqb (typeof _) (js "object")))
      with false at 1.
    cbn [get rbind]. rewrite Epk, Esk, !non_empty_string_guard by assumption.
    unfold js_or. rewrite Halg, includes_false by assumption. reflexivity.
Qed.

Lemma importKeyPair_rejects_witness :
  importKeyPair VNull = Throw (js "Invalid key pair data: must be an object")
  /\ importKeyPair (VObj [(js "privateKey", VStr (js "cHJpdg=="))])
     = Throw (js "Invalid key pair data: missing or invalid publicKey")
  /\ importKeyPair (VObj [(js "publicKey", VStr (js "cHVi"));
                          (js "privateKey", VStr (js "cHJpdg=="));
                          (js "algorithm", VStr (js "RSA"))])
     = Throw (js "Unsupported algorithm: RSA. Supported: ML-KEM-1024, ML-KEM-768").
Proof.
  split; [|split].
  - apply (proj1 (importKeyPair_rejects VNull)); intros x; discriminate.
  - apply (proj1 (proj2 (importKeyPair_rejects
                           (VObj [(js "privateKey", VStr (js "cHJpdg=="))])))).
    + intros s _. discriminate.
    + left. eexists. reflexivity.
  - apply (proj2 (proj2 (proj2 (importKeyPair_rejects
             (VObj [(js "publicKey", VStr (js "cHVi"));
                    (js "privateKey", VStr (js "cHJpdg=="));
                    (js "algorithm", VStr (js "RSA"))]))))
             _ (js "cHVi") (js "cHJpdg==") eq_refl).
    + reflexivity.
    + discriminate.
    + reflexivity.
    + discriminate.
    + reflexivity.
    + reflexivity.
    + intros S [<- | [<- | []]]; discriminate.
Defined.

(** X10.  [exportKeyPair] copies the three fields [importKeyPair] reads, so on
    every object importing the export gives what importing the object
    itself gives, the same key pair or the same error. *)
Theorem importKeyPair_after_export (props : list (jsstring * value)) (w : World) :
  exists exported,
    outcome (exportKeyPair (VObj props) w empty_frame) = Ok exported
    /\ field exported "timestamp" = VNum (integer (now w))
    /\ importKeyPair exported = importKeyPair (VObj props).
Proof.
  eexists. split; [reflexivity|]. split; [reflexivity|].
  unfold importKeyPair.
  change (negb (truthy _) || negb (jsstring_eqb (typeof _) (js "object")))
    with false at 1.
  change (negb (truthy (VObj props))
          || negb (jsstring_eqb (typeof (VObj props)) (js "object")))
    with false.
  reflexivity.
Qed.

(** ** encryptor.js *)

(** X11.  [encrypt] refuses a recipient key that is missing, empty or not a
    string, and a string the Base64 format check refuses, before it
    draws any randomness or computes any secret. *)
Theorem encrypt_rejects_public_key
        (P : Primitives) (message : jsstring)
        (recipientPublicKey algorithm : value) (w : World) :
  ((forall s, s <> [] -> recipientPublicKey <> VStr s) ->
   encrypt P message recipientPublicKey algorithm w empty_frame
   = (Throw (js "Encryption failed: Invalid recipient public key"),
      w, empty_frame))
  /\ (forall publicKey,
        recipientPublicKey = VStr publicKey -> publicKey <> [] ->
        BASE64_RE_test publicKey = false ->
        encrypt P message recipientPublicKey algorithm w empty_frame
        = (Throw (js "Encryption failed: Public key must be valid Base64"),
           w, empty_frame)).
Proof.
  rewrite encrypt_cases. split.
  - intros H. now rewrite not_non_empty_string.
  - intros pk -> Hne Hre.
    rewrite non_empty_string_guard by assumption.
    cbn [ToString]. now rewrite Hre.
Qed.

Lemma encrypt_rejects_public_key_witness :
  encrypt Stub.bound (js "Secret") VNull VUndefined (Stub.world 7) empty_frame
  = (Throw (js "Encryption failed: Invalid recipient public key"),
     Stub.world 7, empty_frame)
  /\ encrypt Stub.bound (js "Secret") (VStr (js "invalid-key")) VUndefined
             (Stub.world 7) empty_frame
     = (Throw (js "Encryption failed: Public key must be valid Base64"),
        Stub.world 7, empty_frame).
Proof.
  split.
  - apply (proj1 (encrypt_rejects_public_key Stub.bound (js "Secret") VNull
                    VUndefined (Stub.world 7))).
    intros s _. discriminate.
  - apply (proj2 (encrypt_rejects_public_key Stub.bound (js "Secret")
                    (VStr (js "invalid-key")) VUndefined (Stub.world 7))
             (js "invalid-key") eq_refl).
    + discriminate.
    + reflexivity.
Defined.

Lemma try_catch_prefixed {W A} (m : M W A) (prefix : jsstring)
      (w : W) (f : Frame) (e : jsstring) :
  outcome (try_catch m (fun message => throw (prefix ++ message)) w f) = Throw e ->
  exists cause, e = prefix ++ cause.
Proof.
  unfold outcome, try_catch, throw.
  destruct (m w f) as [[[a|cause] w'] f']; cbn [fst]; [discriminate|].
  intros H. injection H as <-. now exists cause.
Qed.

(** X12.  Every error [encrypt] throws has a message that starts with
    ['Encryption failed: '], and every error [decrypt] throws one that
    starts with ['Decryption failed: ']: no error of a validation step or
    of a primitive leaves either function unwrapped. *)
Theorem failures_are_wrapped (P : Primitives) :
  (forall message recipientPublicKey algorithm w e,
      outcome (encrypt P message recipientPublicKey algorithm w empty_frame)
      = Throw e ->
      exists cause, e = js "Encryption failed: " ++ cause)
  /\ (forall encryptedContent privateKey algorithm e,
         outcome (decrypt P encryptedContent privateKey algorithm tt empty_frame)
         = Throw e ->
         exists cause, e = js "Decryption failed: " ++ cause).
Proof.
  split.
  - intros message pk algorithm w e. unfold encrypt. apply try_catch_prefixed.
  - intros content sk algorithm e. unfold decrypt. apply try_catch_prefixed.
Qed.

Lemma failures_are_wrapped_witness :
  exists cause,
    js "Decryption failed: Invalid encrypted content"
    = js "Decryption failed: " ++ cause.
Proof.
  apply (proj2 (failures_are_wrapped Stub.bound) VNull VNull VNull).
  reflexivity.
Defined.

Lemma has_required_fields_envelope (alg : value) (kem s n c : jsstring) (t : N) :
  kem <> [] -> s <> [] -> n <> [] -> c <> [] ->
  has_required_fields (envelope alg kem s n c t) = truthy alg.
Proof.
  intros Hk Hs Hn Hc. unfold has_required_fields, required_fields.
  cbn [forallb].
  change (field (envelope alg kem s n c t) "v") with (VNum (integer 3)).
  change (field (envelope alg kem s n c t) "alg") with alg.
  change (field (envelope alg kem s n c t) "kem") with (VStr kem).
  change (field (envelope alg kem s n c t) "s") with (VStr s).
  change (field (envelope alg kem s n c t) "n") with (VStr n).
  change (field (envelope alg kem s n c t) "c") with (VStr c).
  rewrite !truthy_string by assumption.
  change (truthy (VNum (integer 3))) with true.
  cbn [andb]. now rewrite andb_true_r.
Qed.

(** X13.  Under the contract, [encrypt] to a generated public key returns, and
    what it returns is an envelope [isValidEncryptedMessage] accepts: a
    JSON object with [v] 3, [alg] the suite, [s] the Base64 of the 32
    salt bytes and [n] the Base64 of the 12 nonce bytes it drew, and [t]
    the time of the call. *)
Theorem encrypt_returns_valid_envelope
        (P : Primitives) (S : jsstring) (w0 w : World)
        (keyPair : value) (message : jsstring) :
  Section6 P -> In S SUPPORTED_ALGORITHMS ->
  outcome (generateKeyPair P (VStr S) w0 empty_frame) = Ok keyPair ->
  exists text,
    outcome (encrypt P message (field keyPair "publicKey") (VStr S)
                     w empty_frame) = Ok text
    /\ isValidEncryptedMessage (VStr text) = true
    /\ member_of text "v" = VNum (integer 3)
    /\ member_of text "alg" = VStr S
    /\ member_of text "s" = VStr (Base64.encode (salt_of w))
    /\ length (salt_of w) = 32%nat
    /\ member_of text "n" = VStr (Base64.encode (nonce_of w))
    /\ length (nonce_of w) = 12%nat
    /\ member_of text "t" = VNum (integer (now w)).
Proof.
  intros HP HS Hgen.
  destruct (generateKeyPair_supported P S w0 keyPair HS Hgen)
    as [pk [sk [Hkem ->]]].
  destruct (encrypt_generated P HP _ _ pk sk S message w Hkem eq_refl)
    as [ct [ss [key [c [He [Hct [Hd [Hk [Hlen [Hseal [Hc [Hopen Henc]]]]]]]]]]]].
  rewrite field_publicKey, Henc. eexists. split; [reflexivity|].
  destruct (member_of_envelope S (Base64.encode ct) (Base64.encode (salt_of w))
              (Base64.encode (nonce_of w)) (Base64.encode c) (now w)
              (now_safe w))
    as [Mv [Malg [_ [Ms [Mn [_ Mt]]]]]].
  split.
  - rewrite isValidEncryptedMessage_string, envelope_parse by apply now_safe.
    rewrite has_required_fields_envelope.
    + apply truthy_string. now apply supported_nonempty.
    + now apply Base64_encode_nonempty.
    + apply Base64_encode_nonempty, nonempty_of_length.
      rewrite salt_of_length. lia.
    + apply Base64_encode_nonempty, nonempty_of_length.
      rewrite nonce_of_length. lia.
    + now apply Base64_encode_nonempty.
  - split; [exact Mv|]. split; [exact Malg|]. split; [exact Ms|].
    split; [apply salt_of_length|]. split; [exact Mn|].
    split; [apply nonce_of_length | exact Mt].
Qed.

Lemma encrypt_returns_valid_envelope_witness :
  exists text,
    outcome (encrypt Stub.bound (js "Secret")
               (field (Stub.keyPair Stub.bound "ML-KEM-1024") "publicKey")
               (VStr (js "ML-KEM-1024")) (Stub.world 7) empty_frame) = Ok text
    /\ isValidEncryptedMessage (VStr text) = true.
Proof.
  destruct (encrypt_returns_valid_envelope Stub.bound (js "ML-KEM-1024")
              (Stub.world 0) (Stub.world 7)
              (Stub.keyPair Stub.bound "ML-KEM-1024") (js "Secret"))
    as [text [Henc [Hvalid _]]].
  - apply Stub_contract.
  - left. reflexivity.
  - vm_compute. reflexivity.
  - exists text. split; assumption.
Defined.

(** X14.  [decrypt] returns only for a content [isValidEncryptedMessage]
    accepts: a content the validity check refuses never decrypts. *)
Theorem decrypt_returns_only_valid
        (P : Primitives) (encryptedContent privateKey algorithm : value)
        (message : jsstring) :
  outcome (decrypt P encryptedContent privateKey algorithm tt empty_frame)
  = Ok message ->
  isValidEncryptedMessage encryptedContent = true.
Proof.
  rewrite decrypt_cases.
  destruct encryptedContent as [| | | |text| |];
    try (match goal with
         | |- context [is_string ?v] => change (is_string v) with false
         end; cbn [negb]; rewrite orb_true_r; discriminate).
  cbn [ToString].
  destruct (negb (truthy (VStr text)) || negb (is_string (VStr text)));
    [discriminate|].
  destruct (negb (truthy privateKey) || negb (is_string privateKey));
    [discriminate|].
  rewrite isValidEncryptedMessage_string.
  destruct (JSON.parse text) as [d|]; [|discriminate].
  destruct (get d "v"); [|discriminate].
  destruct (has_required_fields d); [reflexivity | discriminate].
Qed.

Lemma decrypt_returns_only_valid_witness :
  isValidEncryptedMessage
    (VStr (Stub.sealed Stub.bound "ML-KEM-1024" "ML-KEM-1024" 7 (js "Secret")))
  = true.
Proof.
  apply (decrypt_returns_only_valid Stub.bound _
           (field (Stub.keyPair Stub.bound "ML-KEM-1024") "privateKey")
           VNull (js "Secret")).
  vm_compute. reflexivity.
Defined.

(** X15.  [decrypt] reports a private key that is missing, empty or not a
    string as ['Invalid private key'] before it looks into the content:
    the content need not even be JSON. *)
Theorem decrypt_rejects_private_key
        (P : Primitives) (text : jsstring) (privateKey algorithm : value) :
  text <> [] ->
  (forall s, s <> [] -> privateKey <> VStr s) ->
  decrypt P (VStr text) privateKey algorithm tt empty_frame
  = (Throw (js "Decryption failed: Invalid private key"), tt, empty_frame).
Proof.
  intros Ht Hk. rewrite decrypt_cases.
  rewrite non_empty_string_guard by assumption.
  now rewrite not_non_empty_string.
Qed.

Lemma decrypt_rejects_private_key_witness :
  js "invalid-data" <> []
  /\ decrypt Stub.bound (VStr (js "invalid-data")) (VStr []) VNull tt empty_frame
     = (Throw (js "Decryption failed: Invalid private key"), tt, empty_frame).
Proof.
  assert (H : js "invalid-data" <> []) by discriminate.
  split; [exact H|].
  apply (decrypt_rejects_private_key Stub.bound _ (VStr []) VNull H).
  intros s Hs E. injection E as <-. now apply Hs.
Defined.

(** X16.  [encrypt] takes the empty string for an algorithm: it encapsulates
    with ML-KEM-1024 and writes [alg] empty, and the envelope it returns
    is one [isValidEncryptedMessage] refuses and [decrypt] rejects for a
    missing field, whatever suite the caller of [decrypt] names. *)
Theorem empty_algorithm_envelope_refused
        (P : Primitives) (w0 w : World) (keyPair : value) (message : jsstring) :
  Section6 P ->
  outcome (generateKeyPair P (VStr (js "ML-KEM-1024")) w0 empty_frame)
  = Ok keyPair ->
  exists text,
    outcome (encrypt P message (field keyPair "publicKey") (VStr [])
                     w empty_frame) = Ok text
    /\ isValidEncryptedMessage (VStr text) = false
    /\ forall override,
         outcome (decrypt P (VStr text) (field keyPair "privateKey") override
                          tt empty_frame)
         = Throw (js "Decryption failed: Missing required fields in encrypted message").
Proof.
  intros HP Hgen.
  destruct (generateKeyPair_supported P (js "ML-KEM-1024") w0 keyPair
              (or_introl eq_refl) Hgen) as [pk [sk [Hkem ->]]].
  destruct (kem_sizes P HP _ _ _ _ Hkem) as [Hpk Hsk].
  destruct (encrypt_generated P HP _ _ pk sk [] message w Hkem eq_refl)
    as [ct [ss [key [c [He [Hct [Hd [Hk [Hlen [Hseal [Hc [Hopen Henc]]]]]]]]]]]].
  rewrite field_publicKey, field_privateKey, Henc.
  eexists. split; [reflexivity|].
  assert (Hreq : has_required_fields
                   (envelope (VStr []) (Base64.encode ct)
                      (Base64.encode (salt_of w)) (Base64.encode (nonce_of w))
                      (Base64.encode c) (now w)) = false).
  { rewrite has_required_fields_envelope; [reflexivity | ..].
    - now apply Base64_encode_nonempty.
    - apply Base64_encode_nonempty, nonempty_of_length.
      rewrite salt_of_length. lia.
    - apply Base64_encode_nonempty, nonempty_of_length.
      rewrite nonce_of_length. lia.
    - now apply Base64_encode_nonempty. }
  split.
  - rewrite isValidEncryptedMessage_string, envelope_parse by apply now_safe.
    exact Hreq.
  - intros override. rewrite decrypt_cases.
    rewrite !non_empty_string_guard.
    + cbn [ToString]. rewrite envelope_parse by apply now_safe.
      now rewrite Hreq.
    + apply Base64_encode_nonempty, nonempty_of_length. rewrite Hsk.
      apply key_size_pos.
    + apply stringify_nonempty.
Qed.

Lemma empty_algorithm_envelope_refused_witness :
  exists text,
    outcome (encrypt Stub.bound (js "Secret")
               (field (Stub.keyPair Stub.bound "ML-KEM-1024") "publicKey")
               (VStr []) (Stub.world 7) empty_frame) = Ok text
    /\ isValidEncryptedMessage (VStr text) = false.
Proof.
  destruct (empty_algorithm_envelope_refused Stub.bound (Stub.world 0)
              (Stub.world 7) (Stub.keyPair Stub.bound "ML-KEM-1024")
              (js "Secret")) as [text [Henc [Hvalid _]]].
  - apply Stub_contract.
  - vm_compute. reflexivity.
  - exists text. split; assumption.
Defined.

(** X17.  [decrypt] reads the six fields [v], [alg], [kem], [s], [n], [c] of
    the parsed object and nothing else: two contents that parse to
    objects agreeing on these fields decrypt alike, to the same message
    or the same error, whatever [t] and any further member say. *)
Theorem decrypt_reads_six_fields
        (P : Primitives) (text1 text2 : jsstring)
        (props1 props2 : list (jsstring * value))
        (privateKey algorithm : value) :
  JSON.parse text1 = Some (VObj props1) ->
  JSON.parse text2 = Some (VObj props2) ->
  (forall key, In key required_fields ->
               lookup (js key) props1 = lookup (js key) props2) ->
  decrypt P (VStr text1) privateKey algorithm tt empty_frame
  = decrypt P (VStr text2) privateKey algorithm tt empty_frame.
Proof.
  intros H1 H2 Hsame.
  assert (N1 : text1 <> []) by (intros ->; discriminate).
  assert (N2 : text2 <> []) by (intros ->; discriminate).
  assert (Hv : lookup (js "v") props1 = lookup (js "v") props2)
    by (apply Hsame; cbn; tauto).
  assert (Halg : lookup (js "alg") props1 = lookup (js "alg") props2)
    by (apply Hsame; cbn; tauto).
  assert (Hkem : lookup (js "kem") props1 = lookup (js "kem") props2)
    by (apply Hsame; cbn; tauto).
  assert (Hs : lookup (js "s") props1 = lookup (js "s") props2)
    by (apply Hsame; cbn; tauto).
  assert (Hn : lookup (js "n") props1 = lookup (js "n") props2)
    by (apply Hsame; cbn; tauto).
  assert (Hc : lookup (js "c") props1 = lookup (js "c") props2)
    by (apply Hsame; cbn; tauto).
  rewrite !decrypt_cases. rewrite !non_empty_string_guard by assumption.
  cbn [ToString]. rewrite H1, H2. cbn [get].
  unfold has_required_fields, required_fields, open_envelope, field.
  cbn [forallb get]. now rewrite Hv, Halg, Hkem, Hs, Hn, Hc.
Qed.

Lemma decrypt_reads_six_fields_witness :
  decrypt Stub.bound
    (VStr (delete_member
             (Stub.sealed Stub.bound "ML-KEM-1024" "ML-KEM-1024" 7 (js "Secret"))
             "t"))
    (field (Stub.keyPair Stub.bound "ML-KEM-1024") "privateKey")
    VNull tt empty_frame
  = decrypt Stub.bound
      (VStr (Stub.sealed Stub.bound "ML-KEM-1024" "ML-KEM-1024" 7 (js "Secret")))
      (field (Stub.keyPair Stub.bound "ML-KEM-1024") "privateKey")
      VNull tt empty_frame.
Proof.
  pose (sealed := Stub.sealed Stub.bound "ML-KEM-1024" "ML-KEM-1024" 7
                              (js "Secret")).
  pose (props1 := match JSON.parse (delete_member sealed "t") with
                  | Some (VObj props) => props
                  | _ => []
                  end).
  pose (props2 := match JSON.parse sealed with
                  | Some (VObj props) => props
                  | _ => []
                  end).
  assert (H1 : JSON.parse (delete_member sealed "t") = Some (VObj props1))
    by (vm_compute; reflexivity).
  assert (H2 : JSON.parse sealed = Some (VObj props2))
    by (vm_compute; reflexivity).
  assert (H3 : forall key, In key required_fields ->
                           lookup (js key) props1 = lookup (js key) props2).
  { intros key [<- | [<- | [<- | [<- | [<- | [<- | []]]]]]];
      vm_compute; reflexivity. }
  exact (decrypt_reads_six_fields Stub.bound (delete_member sealed "t") sealed
           props1 props2
           (field (Stub.keyPair Stub.bound "ML-KEM-1024") "privateKey")
           VNull H1 H2 H3).
Defined.

(** X18.  Whenever [encrypt] or [decrypt] returns, the buffers bound to
    [sharedSecret] and [chachaKey] have been zero-filled: for every input
    and every primitive, a call that returns leaves no byte of the shared
    secret or of the derived key behind. *)
Theorem returning_calls_clear_secrets (P : Primitives) :
  (forall message recipientPublicKey algorithm w text,
      let r := encrypt P message recipientPublicKey algorithm w empty_frame in
      outcome r = Ok text ->
      buffer_zeroed (sharedSecret (frame_after r)) = true
      /\ buffer_zeroed (chachaKey (frame_after r)) = true)
  /\ (forall encryptedContent privateKey algorithm message,
         let r := decrypt P encryptedContent privateKey algorithm tt empty_frame in
         outcome r = Ok message ->
         buffer_zeroed (sharedSecret (frame_after r)) = true
         /\ buffer_zeroed (chachaKey (frame_after r)) = true).
Proof.
  split.
  - intros message pk algorithm w text r. apply encrypt_success_zeroes.
  - intros content sk algorithm message r. apply decrypt_success_zeroes.
Qed.

Lemma returning_calls_clear_secrets_witness :
  buffer_zeroed
    (chachaKey
       (frame_after
          (encrypt Stub.bound (js "Secret")
             (field (Stub.keyPair Stub.bound "ML-KEM-1024") "publicKey")
             (VStr (js "ML-KEM-1024")) (Stub.world 7) empty_frame)))
  = true.
Proof.
  refine (proj2 (proj1 (returning_calls_clear_secrets Stub.bound)
                   (js "Secret")
                   (field (Stub.keyPair Stub.bound "ML-KEM-1024") "publicKey")
                   (VStr (js "ML-KEM-1024")) (Stub.world 7)
                   (Stub.sealed Stub.bound "ML-KEM-1024" "ML-KEM-1024" 7
                                (js "Secret")) _)).
  vm_compute. reflexivity.
Defined.
